(** * The orchestration core of Auto Cursor

    A shallow embedding of the four core singletons of the repository,

    - [EventBus]      (src/core/eventBus.ts),
    - [MemoryStore]   (src/core/memoryStore.ts),
    - [AgentManager]  (src/core/agentManager.ts),
    - [AutoFlow]      (src/core/autoFlow.ts),

    of the plugin class [AutoCursor] (src/index.ts) that starts and stops
    them, and of the way they are wired together through the bus.  Every
    TypeScript method becomes a function on an explicit state record.
    [Date.now()] reads the field [now] of the state, [uuidv4()] is an
    argument of the operation that calls it, and the files that the store
    reaches are a finite map from the files, each named by its path from the
    persistence directory, to documents. *)

From stdpp Require Import gmap strings list fin_maps.
From Stdlib Require Import ZArith.
From Stdlib Require QArith.QArith_base QArith.Qround.

Set Default Proof Using "Type".

(** ** JavaScript values and JSON documents *)

Module JS.

#[local] Unset Elimination Schemes.

(** The values of an [any]-typed field that the model covers: [undefined],
    [null], booleans, numbers, strings, arrays and plain objects of these.
    [VNum] holds the whole numbers, [VNonFinite] stands for [NaN] and the two
    infinities.  [VBigInt] is a value that [JSON.stringify] refuses with a
    [TypeError]; an object graph with a cycle is another such value, and is
    meant by it too. *)
Inductive JsVal : Type :=
| VUndefined
| VNull
| VBool (b : bool)
| VNum (n : Z)
| VNonFinite
| VBigInt (n : Z)
| VStr (s : string)
| VArr (items : list JsVal)
| VObj (props : list (string * JsVal)).

(** What a JSON text denotes. *)
Inductive Json : Type :=
| JNull
| JBool (b : bool)
| JNum (n : Z)
| JStr (s : string)
| JArr (items : list Json)
| JObj (members : list (string * Json)).

#[local] Set Elimination Schemes.

(** [JSON.stringify] throws on a value that holds a [BigInt]. *)
Fixpoint stringify_throws (v : JsVal) : bool :=
  match v with
  | VBigInt _ => true
  | VArr items => existsb stringify_throws items
  | VObj props => existsb (fun kv => stringify_throws kv.2) props
  | _ => false
  end.

(** [JSON.stringify] where it returns, that is on the values on which
    [stringify_throws] is [false] (on the others the function has no
    meaning: the store calls it under a [try] and looks at
    [stringify_throws] first).  [None] is the result [undefined].  A
    property whose value stringifies to [undefined] is left out, an array
    element that does becomes [null], and so does a number that is not
    finite. *)
Fixpoint JSON_stringify (v : JsVal) : option Json :=
  match v with
  | VUndefined => None
  | VNull => Some JNull
  | VBool b => Some (JBool b)
  | VNum n => Some (JNum n)
  | VNonFinite => Some JNull
  | VBigInt _ => None
  | VStr s => Some (JStr s)
  | VArr items =>
      Some (JArr (map (fun x => default JNull (JSON_stringify x)) items))
  | VObj props =>
      Some (JObj (omap (fun kv => let '(k, x) := kv in
                                  pair k <$> JSON_stringify x) props))
  end.

(** [JSON.parse] on the text of a document. *)
Fixpoint JSON_parse (j : Json) : JsVal :=
  match j with
  | JNull => VNull
  | JBool b => VBool b
  | JNum n => VNum n
  | JStr s => VStr s
  | JArr items => VArr (map JSON_parse items)
  | JObj members =>
      VObj (map (fun kv => let '(k, x) := kv in (k, JSON_parse x)) members)
  end.

(** Reading back an optional member of a document. *)
Definition parse_member (m : option Json) : JsVal :=
  match m with
  | Some j => JSON_parse j
  | None => VUndefined
  end.

(** Values that JSON represents exactly: no [undefined], no non-finite
    number and no [BigInt] anywhere inside. *)
Fixpoint json_clean (v : JsVal) : bool :=
  match v with
  | VUndefined | VNonFinite | VBigInt _ => false
  | VNull | VBool _ | VNum _ | VStr _ => true
  | VArr items => forallb json_clean items
  | VObj props => forallb (fun kv => json_clean kv.2) props
  end.

(** An optional field may be [undefined] (the member is then absent from
    the document and reads back as [undefined]). *)
Definition json_clean_opt (v : JsVal) : bool :=
  match v with
  | VUndefined => true
  | _ => json_clean v
  end.

(** Truthiness of an optional whole number, as in
    [if (!payload.timestamp)]. *)
Definition truthy_num (n : option Z) : bool :=
  match n with
  | Some z => negb (z =? 0)%Z
  | None => false
  end.

(** *** Numbers as delays

    The values of type [number]: the finite ones, as fractions, [NaN] and
    the two infinities. *)
Inductive JsNumber : Type :=
| NFinite (q : QArith_base.Q)
| NNaN
| NPosInfinity
| NNegInfinity.


(** Truthiness of an optional number, as in [timeout ? ... : null]: zero
    and [NaN] are falsy, every other number is truthy. *)
Definition truthy_number (n : option JsNumber) : bool :=
  match n with
  | Some (NFinite q) => negb (QArith_base.Qeq_bool q (QArith_base.inject_Z 0))
  | Some NNaN => false
  | Some NPosInfinity | Some NNegInfinity => true
  | None => false
  end.

(** [TIMEOUT_MAX] of Node's timers, [2 ** 31 - 1]. *)
Definition TIMEOUT_MAX : Z := 2147483647.

(** The delay in milliseconds that [setTimeout(f, after)] gives its timer:
    [after] itself, cut to whole milliseconds, when
    [1 <= after <= TIMEOUT_MAX], and 1 for every other number, [NaN] and the
    infinities included. *)
Definition timerDelay (after : JsNumber) : Z :=
  match after with
  | NFinite q =>
      if QArith_base.Qle_bool (QArith_base.inject_Z 1) q
         && QArith_base.Qle_bool q (QArith_base.inject_Z TIMEOUT_MAX)
      then Qround.Qfloor q
      else 1%Z
  | _ => 1%Z
  end.

(** *** Keys of plain objects

    The names that an object literal inherits from [Object.prototype].
    Under one of these names [obj[key]] reads or writes an inherited member
    and not an entry of the object; the model keeps the objects of the store
    as finite maps, which is what they are for every other key, and the
    statements about their entries are made for those keys. *)
Definition objectPrototypeKeys : list string :=
  [ "__proto__"; "constructor"; "hasOwnProperty"; "isPrototypeOf";
    "propertyIsEnumerable"; "toLocaleString"; "toString"; "valueOf";
    "__defineGetter__"; "__defineSetter__"; "__lookupGetter__";
    "__lookupSetter__" ].

Definition ordinaryKey (k : string) : bool :=
  bool_decide (k ∉ objectPrototypeKeys).

(** *** Paths

    The segments of a path, which "/" separates (POSIX). *)
Fixpoint segments (s : string) : list string :=
  match s with
  | EmptyString => [EmptyString]
  | String c s' =>
      if Ascii.eqb c (Ascii.ascii_of_nat 47)
      then EmptyString :: segments s'
      else match segments s' with
           | seg :: rest => String c seg :: rest
           | [] => [String c EmptyString]
           end
  end.

(** One segment more on the way that [path.normalize] goes: the stack
    holds the directories passed, the last first. *)
Definition descend (stack : list string) (seg : string) : list string :=
  if decide (seg = "" ∨ seg = ".") then stack
  else if decide (seg = "..")
       then match stack with
            | top :: rest => if decide (top = "..") then seg :: stack else rest
            | [] => [seg]
            end
       else seg :: stack.

(** The string has no "/" in it. *)
Fixpoint slashFree (s : string) : bool :=
  match s with
  | EmptyString => true
  | String c s' => negb (Ascii.eqb c (Ascii.ascii_of_nat 47)) && slashFree s'
  end.

(** The string has no NUL character in it. *)
Fixpoint nulFree (s : string) : bool :=
  match s with
  | EmptyString => true
  | String c s' => negb (Ascii.eqb c Ascii.zero) && nulFree s'
  end.

(** A name that a file system takes for a file of a directory, with
    ".json" after it: no "/" and no NUL in it, and not longer than 250 bytes
    (a file name has at most 255). *)
Definition plainName (s : string) : bool :=
  slashFree s && nulFree s && (String.length s <=? 250).

(** [s.endsWith(suffix)]: some tail of [s] is [suffix]. *)
Fixpoint endsWith (suffix s : string) : bool :=
  if String.eqb s suffix then true
  else match s with
       | EmptyString => false
       | String _ s' => endsWith suffix s'
       end.

(** [s.replace(pat, '')] with a string pattern: the first occurrence of
    [pat] goes, a string without one is returned as it is. *)
Fixpoint removeFirstOccurrence (pat s : string) : string :=
  if String.prefix pat s
  then String.substring (String.length pat)
         (String.length s - String.length pat) s
  else match s with
       | EmptyString => EmptyString
       | String c s' => String c (removeFirstOccurrence pat s')
       end.

End JS.

(** ** The project store (src/core/memoryStore.ts) *)

Module MemoryStore.
Import JS.

(** [enum ProjectStatus]. *)
Inductive ProjectStatus : Set :=
| INITIALIZING | REQUIREMENTS | ARCHITECTURE | DEVELOPMENT | TESTING
| DEVOPS | DOCUMENTATION | COMPLETED | FAILED.

(** The [status] of a phase record:
    ['pending' | 'in_progress' | 'completed' | 'failed']. *)
Inductive PhaseStatus : Set := pending | in_progress | completed | failed.

(** The [role] of a conversation entry: ['user' | 'lead' | 'system']. *)
Inductive Speaker : Set := user | lead | system.

#[global] Instance ProjectStatus_eq_dec : EqDecision ProjectStatus.
Proof. solve_decision. Defined.

#[global] Instance PhaseStatus_eq_dec : EqDecision PhaseStatus.
Proof. solve_decision. Defined.

(** [interface PhaseData].  The [any]-typed members hold [VUndefined] when
    they are absent; so do the two times, which are numbers of any kind while
    the record is in memory ([VNum], [VNonFinite]) and can be [VNull] once it
    is read back from its file. *)
Module PhaseData.
Record t : Type := mk {
  name : string;
  status : PhaseStatus;
  startedAt : JsVal;
  completedAt : JsVal;
  result : JsVal;
  artifacts : JsVal;
  notes : option (list string)
}.
End PhaseData.

(** [Partial<PhaseData>]: [None] is a key that the object literal does not
    have.  For the times, [result] and [artifacts] the key can be there and
    hold [undefined], which is [Some VUndefined]. *)
Module PartialPhaseData.
Record t : Type := mk {
  name : option string;
  status : option PhaseStatus;
  startedAt : option JsVal;
  completedAt : option JsVal;
  result : option JsVal;
  artifacts : option JsVal;
  notes : option (list string)
}.
End PartialPhaseData.

(** [interface ConversationEntry]. *)
Module ConversationEntry.
Record t : Type := mk {
  timestamp : Z;
  role : Speaker;
  message : string;
  metadata : JsVal
}.
End ConversationEntry.

(** [interface ProjectContext].  The tech stack is opaque to the core. *)
Module ProjectContext.
Record t : Type := mk {
  id : string;
  purposeId : string;
  purposeName : string;
  techStack : JsVal;
  status : ProjectStatus;
  createdAt : Z;
  updatedAt : Z;
  phases : gmap string PhaseData.t;
  artifacts : gmap string JsVal;
  conversationHistory : list ConversationEntry.t;
  metadata : gmap string JsVal
}.

Definition with_status (v : ProjectStatus) (p : t) : t :=
  mk (id p) (purposeId p) (purposeName p) (techStack p) v (createdAt p)
     (updatedAt p) (phases p) (artifacts p) (conversationHistory p)
     (metadata p).

Definition with_updatedAt (v : Z) (p : t) : t :=
  mk (id p) (purposeId p) (purposeName p) (techStack p) (status p)
     (createdAt p) v (phases p) (artifacts p) (conversationHistory p)
     (metadata p).

Definition with_phases (v : gmap string PhaseData.t) (p : t) : t :=
  mk (id p) (purposeId p) (purposeName p) (techStack p) (status p)
     (createdAt p) (updatedAt p) v (artifacts p) (conversationHistory p)
     (metadata p).

Definition with_artifacts (v : gmap string JsVal) (p : t) : t :=
  mk (id p) (purposeId p) (purposeName p) (techStack p) (status p)
     (createdAt p) (updatedAt p) (phases p) v (conversationHistory p)
     (metadata p).

Definition with_conversationHistory (v : list ConversationEntry.t) (p : t)
  : t :=
  mk (id p) (purposeId p) (purposeName p) (techStack p) (status p)
     (createdAt p) (updatedAt p) (phases p) (artifacts p) v (metadata p).

Definition with_metadata (v : gmap string JsVal) (p : t) : t :=
  mk (id p) (purposeId p) (purposeName p) (techStack p) (status p)
     (createdAt p) (updatedAt p) (phases p) (artifacts p)
     (conversationHistory p) v.
End ProjectContext.

(** *** Durable records

    One document per project: what [JSON.stringify(project, null, 2)] writes,
    member by member.  A member is optional in the document where the
    in-memory field can be [undefined]. *)

Record PhaseDoc : Type := mkPhaseDoc {
  pd_name : string;
  pd_status : PhaseStatus;
  pd_startedAt : option Json;
  pd_completedAt : option Json;
  pd_result : option Json;
  pd_artifacts : option Json;
  pd_notes : option (list string)
}.

Record ConversationDoc : Type := mkConversationDoc {
  cd_timestamp : Z;
  cd_role : Speaker;
  cd_message : string;
  cd_metadata : option Json
}.

Record ProjectDoc : Type := mkProjectDoc {
  jd_id : string;
  jd_purposeId : string;
  jd_purposeName : string;
  jd_techStack : option Json;
  jd_status : ProjectStatus;
  jd_createdAt : Z;
  jd_updatedAt : Z;
  jd_phases : gmap string PhaseDoc;
  jd_artifacts : gmap string Json;
  jd_conversationHistory : list ConversationDoc;
  jd_metadata : gmap string Json
}.

Definition stringify_phase (d : PhaseData.t) : PhaseDoc :=
  {| pd_name := PhaseData.name d;
     pd_status := PhaseData.status d;
     pd_startedAt := JSON_stringify (PhaseData.startedAt d);
     pd_completedAt := JSON_stringify (PhaseData.completedAt d);
     pd_result := JSON_stringify (PhaseData.result d);
     pd_artifacts := JSON_stringify (PhaseData.artifacts d);
     pd_notes := PhaseData.notes d |}.

Definition parse_phase (d : PhaseDoc) : PhaseData.t :=
  {| PhaseData.name := pd_name d;
     PhaseData.status := pd_status d;
     PhaseData.startedAt := parse_member (pd_startedAt d);
     PhaseData.completedAt := parse_member (pd_completedAt d);
     PhaseData.result := parse_member (pd_result d);
     PhaseData.artifacts := parse_member (pd_artifacts d);
     PhaseData.notes := pd_notes d |}.

Definition stringify_entry (e : ConversationEntry.t) : ConversationDoc :=
  {| cd_timestamp := ConversationEntry.timestamp e;
     cd_role := ConversationEntry.role e;
     cd_message := ConversationEntry.message e;
     cd_metadata := JSON_stringify (ConversationEntry.metadata e) |}.

Definition parse_entry (e : ConversationDoc) : ConversationEntry.t :=
  {| ConversationEntry.timestamp := cd_timestamp e;
     ConversationEntry.role := cd_role e;
     ConversationEntry.message := cd_message e;
     ConversationEntry.metadata := parse_member (cd_metadata e) |}.

(** [JSON.stringify] on a project context.  In a [Record<string, any>] the
    keys whose value is [undefined] are dropped. *)
Definition stringify_project (p : ProjectContext.t) : ProjectDoc :=
  {| jd_id := ProjectContext.id p;
     jd_purposeId := ProjectContext.purposeId p;
     jd_purposeName := ProjectContext.purposeName p;
     jd_techStack := JSON_stringify (ProjectContext.techStack p);
     jd_status := ProjectContext.status p;
     jd_createdAt := ProjectContext.createdAt p;
     jd_updatedAt := ProjectContext.updatedAt p;
     jd_phases := stringify_phase <$> ProjectContext.phases p;
     jd_artifacts := omap JSON_stringify (ProjectContext.artifacts p);
     jd_conversationHistory :=
       stringify_entry <$> ProjectContext.conversationHistory p;
     jd_metadata := omap JSON_stringify (ProjectContext.metadata p) |}.

(** [JSON.parse(data) as ProjectContext]. *)
Definition parse_project (d : ProjectDoc) : ProjectContext.t :=
  {| ProjectContext.id := jd_id d;
     ProjectContext.purposeId := jd_purposeId d;
     ProjectContext.purposeName := jd_purposeName d;
     ProjectContext.techStack := parse_member (jd_techStack d);
     ProjectContext.status := jd_status d;
     ProjectContext.createdAt := jd_createdAt d;
     ProjectContext.updatedAt := jd_updatedAt d;
     ProjectContext.phases := parse_phase <$> jd_phases d;
     ProjectContext.artifacts := JSON_parse <$> jd_artifacts d;
     ProjectContext.conversationHistory :=
       parse_entry <$> jd_conversationHistory d;
     ProjectContext.metadata := JSON_parse <$> jd_metadata d |}.

(** [JSON.stringify(project, null, 2)] throws: some value of the project
    holds a [BigInt]. *)
Definition phase_throws (d : PhaseData.t) : bool :=
  stringify_throws (PhaseData.startedAt d)
  || stringify_throws (PhaseData.completedAt d)
  || stringify_throws (PhaseData.result d)
  || stringify_throws (PhaseData.artifacts d).

Definition project_throws (p : ProjectContext.t) : bool :=
  stringify_throws (ProjectContext.techStack p)
  || existsb (fun kv => phase_throws kv.2)
             (map_to_list (ProjectContext.phases p))
  || existsb (fun kv => stringify_throws kv.2)
             (map_to_list (ProjectContext.artifacts p))
  || existsb (fun e => stringify_throws (ConversationEntry.metadata e))
             (ProjectContext.conversationHistory p)
  || existsb (fun kv => stringify_throws kv.2)
             (map_to_list (ProjectContext.metadata p)).

(** *** The files of the store

    The directory of the singleton, [./.autocursor]. *)
Definition persistenceDir : list string := [".autocursor"].

(** The file that [path.join(this.persistencePath, `${projectId}.json`)]
    names.  [path.join] normalises the path: empty and "." segments go and
    a ".." takes back the segment before it.  A file of the directory itself
    is named by its name without ".json", which is the id for an id without
    "/"; a file elsewhere by its path from the directory.  So two ids have
    the same key exactly when they name the same file. *)
Definition fileKey (projectId : string) : string :=
  let segs := segments projectId in
  let dirs :=
    rev (foldl descend [] (persistenceDir ++ take (length segs - 1) segs)) in
  let rel :=
    if decide (take 1 dirs = persistenceDir) then drop 1 dirs
    else ".." :: dirs in
  foldr (fun seg acc => seg +:+ "/" +:+ acc) (default "" (last segs)) rel.

(** *** The store

    [projects] and [currentProjectId] are the two private fields of the
    class; [files] holds the files that the store reaches, each under its
    [fileKey]; [writable] says whether the file system carries out
    [writeFileSync] and [unlinkSync] at this time, on the files of the
    persistence directory that have a [plainName]: when it does not, the call
    throws and the [catch] of the method logs the error.  Reading is taken to
    succeed, and the documents in the files to be documents of projects.

    The map of the class holds the project objects, which the methods write
    in place; every object is held under one key only ([createProject] and
    [loadProject] make a fresh one), so a write to a field of the object
    under [projectId] is the update of the entry of [projectId]. *)
Record t : Type := mk {
  projects : gmap string ProjectContext.t;
  currentProjectId : option string;
  files : gmap string ProjectDoc;
  writable : bool
}.

Definition new : t :=
  {| projects := ∅; currentProjectId := None; files := ∅; writable := true |}.

(** [persist]: [JSON.stringify] and [writeFileSync] run under a [try]; when
    either throws nothing is written. *)
Definition persist (projectId : string) (st : t) : t :=
  match projects st !! projectId with
  | None => st
  | Some project =>
      if writable st && negb (project_throws project)
      then {| projects := projects st;
              currentProjectId := currentProjectId st;
              files :=
                <[fileKey projectId := stringify_project project]> (files st);
              writable := writable st |}
      else st
  end.

(** [this.projects.set(projectId, project)]. *)
Definition set_project (projectId : string) (project : ProjectContext.t)
  (st : t) : t :=
  {| projects := <[projectId := project]> (projects st);
     currentProjectId := currentProjectId st;
     files := files st;
     writable := writable st |}.

Definition createProject (now : Z) (uuid : string)
  (purposeId purposeName : string) (techStack : JsVal) (st : t)
  : ProjectContext.t * t :=
  let project :=
    {| ProjectContext.id := uuid;
       ProjectContext.purposeId := purposeId;
       ProjectContext.purposeName := purposeName;
       ProjectContext.techStack := techStack;
       ProjectContext.status := INITIALIZING;
       ProjectContext.createdAt := now;
       ProjectContext.updatedAt := now;
       ProjectContext.phases := ∅;
       ProjectContext.artifacts := ∅;
       ProjectContext.conversationHistory := [];
       ProjectContext.metadata := ∅ |} in
  let st1 := set_project uuid project st in
  let st2 := {| projects := projects st1;
                currentProjectId := Some uuid;
                files := files st1;
                writable := writable st1 |} in
  (project, persist uuid st2).

(** [if (!this.currentProjectId) return null]: the empty string is falsy
    too. *)
Definition getCurrentProject (st : t) : option ProjectContext.t :=
  match currentProjectId st with
  | None => None
  | Some cur => if decide (cur = "") then None else projects st !! cur
  end.

Definition getProject (projectId : string) (st : t)
  : option ProjectContext.t :=
  projects st !! projectId.

Definition updateProjectStatus (now : Z) (projectId : string)
  (status : ProjectStatus) (st : t) : t :=
  match projects st !! projectId with
  | None => st
  | Some project =>
      let project' :=
        ProjectContext.with_updatedAt now
          (ProjectContext.with_status status project) in
      persist projectId (set_project projectId project' st)
  end.

(** The record that [updatePhase] creates first when the phase has none. *)
Definition pending_phase (phaseName : string) : PhaseData.t :=
  {| PhaseData.name := phaseName;
     PhaseData.status := pending;
     PhaseData.startedAt := VUndefined;
     PhaseData.completedAt := VUndefined;
     PhaseData.result := VUndefined;
     PhaseData.artifacts := VUndefined;
     PhaseData.notes := Some [] |}.

(** One key of the spread [{...old, ...phaseData}]. *)
Definition spread {A : Type} (old : A) (upd : option A) : A :=
  match upd with
  | Some v => v
  | None => old
  end.

Definition spread_opt {A : Type} (old upd : option A) : option A :=
  match upd with
  | Some v => Some v
  | None => old
  end.

Definition merge_phase (old : PhaseData.t) (upd : PartialPhaseData.t)
  : PhaseData.t :=
  {| PhaseData.name := spread (PhaseData.name old) (PartialPhaseData.name upd);
     PhaseData.status :=
       spread (PhaseData.status old) (PartialPhaseData.status upd);
     PhaseData.startedAt :=
       spread (PhaseData.startedAt old) (PartialPhaseData.startedAt upd);
     PhaseData.completedAt :=
       spread (PhaseData.completedAt old) (PartialPhaseData.completedAt upd);
     PhaseData.result :=
       spread (PhaseData.result old) (PartialPhaseData.result upd);
     PhaseData.artifacts :=
       spread (PhaseData.artifacts old) (PartialPhaseData.artifacts upd);
     PhaseData.notes :=
       spread_opt (PhaseData.notes old) (PartialPhaseData.notes upd) |}.

(** [updatePhase].  [project.phases] is a plain object: the test
    [if (!project.phases[phaseName])] and the assignment are those of a finite
    map for every [phaseName] that is an [ordinaryKey], and the function is
    meant for these. *)
Definition updatePhase (now : Z) (projectId phaseName : string)
  (phaseData : PartialPhaseData.t) (st : t) : t :=
  match projects st !! projectId with
  | None => st
  | Some project =>
      let existing :=
        default (pending_phase phaseName)
                (ProjectContext.phases project !! phaseName) in
      let phases' :=
        <[phaseName := merge_phase existing phaseData]>
          (ProjectContext.phases project) in
      let project' :=
        ProjectContext.with_updatedAt now
          (ProjectContext.with_phases phases' project) in
      persist projectId (set_project projectId project' st)
  end.

(** [storeArtifact].  [project.artifacts] is a plain object: the
    assignment makes or replaces an entry for every [artifactKey] that is an
    [ordinaryKey] (under "__proto__" it would set the prototype instead), and
    the function is meant for these. *)
Definition storeArtifact (now : Z) (projectId artifactKey : string)
  (artifactData : JsVal) (st : t) : t :=
  match projects st !! projectId with
  | None => st
  | Some project =>
      let project' :=
        ProjectContext.with_updatedAt now
          (ProjectContext.with_artifacts
             (<[artifactKey := artifactData]>
                (ProjectContext.artifacts project)) project) in
      persist projectId (set_project projectId project' st)
  end.

(** [project?.artifacts[artifactKey]]; [VUndefined] when there is none.
    For an [artifactKey] that is not an [ordinaryKey] the read would find an
    inherited member; the function is meant for ordinary keys. *)
Definition getArtifact (projectId artifactKey : string) (st : t) : JsVal :=
  match projects st !! projectId with
  | None => VUndefined
  | Some project =>
      default VUndefined (ProjectContext.artifacts project !! artifactKey)
  end.

Definition addConversation (now : Z) (projectId : string) (role : Speaker)
  (message : string) (metadata : JsVal) (st : t) : t :=
  match projects st !! projectId with
  | None => st
  | Some project =>
      let entry :=
        {| ConversationEntry.timestamp := now;
           ConversationEntry.role := role;
           ConversationEntry.message := message;
           ConversationEntry.metadata := metadata |} in
      let project' :=
        ProjectContext.with_updatedAt now
          (ProjectContext.with_conversationHistory
             (ProjectContext.conversationHistory project ++ [entry])
             project) in
      persist projectId (set_project projectId project' st)
  end.

Definition getConversationHistory (projectId : string) (st : t)
  : list ConversationEntry.t :=
  match projects st !! projectId with
  | None => []
  | Some project => ProjectContext.conversationHistory project
  end.

(** [updateMetadata]; [project.metadata] is a plain object too, and the
    function is meant for a [key] that is an [ordinaryKey]. *)
Definition updateMetadata (now : Z) (projectId key : string) (value : JsVal)
  (st : t) : t :=
  match projects st !! projectId with
  | None => st
  | Some project =>
      let project' :=
        ProjectContext.with_updatedAt now
          (ProjectContext.with_metadata
             (<[key := value]> (ProjectContext.metadata project)) project) in
      persist projectId (set_project projectId project' st)
  end.

(** [deletePersisted]: [unlinkSync] runs under a [try], and only when the
    file exists. *)
Definition deletePersisted (projectId : string) (st : t) : t :=
  match files st !! fileKey projectId with
  | None => st
  | Some _ =>
      if writable st
      then {| projects := projects st;
              currentProjectId := currentProjectId st;
              files := delete (fileKey projectId) (files st);
              writable := writable st |}
      else st
  end.

Definition deleteProject (projectId : string) (st : t) : t :=
  let st1 :=
    {| projects := delete projectId (projects st);
       currentProjectId :=
         if decide (currentProjectId st = Some projectId) then None
         else currentProjectId st;
       files := files st;
       writable := writable st |} in
  deletePersisted projectId st1.

Definition setCurrentProject (projectId : string) (st : t) : t :=
  match projects st !! projectId with
  | None => st
  | Some _ =>
      {| projects := projects st;
         currentProjectId := Some projectId;
         files := files st;
         writable := writable st |}
  end.

Definition loadProject (projectId : string) (st : t)
  : option ProjectContext.t * t :=
  match files st !! fileKey projectId with
  | None => (None, st)
  | Some data =>
      let project := parse_project data in
      (Some project, set_project projectId project st)
  end.

(** The mutating calls of the store, as data. *)
Inductive Mutation : Type :=
| UpdateProjectStatus (projectId : string) (status : ProjectStatus)
| UpdatePhase (projectId phaseName : string) (phaseData : PartialPhaseData.t)
| StoreArtifact (projectId artifactKey : string) (artifactData : JsVal)
| AddConversation (projectId : string) (role : Speaker) (message : string)
    (metadata : JsVal)
| UpdateMetadata (projectId key : string) (value : JsVal).

Definition target (m : Mutation) : string :=
  match m with
  | UpdateProjectStatus projectId _ => projectId
  | UpdatePhase projectId _ _ => projectId
  | StoreArtifact projectId _ _ => projectId
  | AddConversation projectId _ _ _ => projectId
  | UpdateMetadata projectId _ _ => projectId
  end.

Definition apply (now : Z) (m : Mutation) (st : t) : t :=
  match m with
  | UpdateProjectStatus projectId status =>
      updateProjectStatus now projectId status st
  | UpdatePhase projectId phaseName phaseData =>
      updatePhase now projectId phaseName phaseData st
  | StoreArtifact projectId artifactKey artifactData =>
      storeArtifact now projectId artifactKey artifactData st
  | AddConversation projectId role message metadata =>
      addConversation now projectId role message metadata st
  | UpdateMetadata projectId key value =>
      updateMetadata now projectId key value st
  end.

(** A run of mutating calls, each at its own time. *)
Definition apply_all (ms : list (Z * Mutation)) (st : t) : t :=
  foldl (fun acc tm => apply tm.1 tm.2 acc) st ms.

(** The values handed to a mutation are JSON-representable. *)
Definition clean_partial (d : PartialPhaseData.t) : bool :=
  from_option json_clean_opt true (PartialPhaseData.startedAt d)
  && from_option json_clean_opt true (PartialPhaseData.completedAt d)
  && from_option json_clean_opt true (PartialPhaseData.result d)
  && from_option json_clean_opt true (PartialPhaseData.artifacts d).

Definition clean_mutation (m : Mutation) : bool :=
  match m with
  | UpdateProjectStatus _ _ => true
  | UpdatePhase _ _ phaseData => clean_partial phaseData
  | StoreArtifact _ _ artifactData => json_clean artifactData
  | AddConversation _ _ _ metadata => json_clean_opt metadata
  | UpdateMetadata _ _ value => json_clean value
  end.

(** [getAllProjects]: the values of the map.  A JavaScript [Map] lists
    them in the order of insertion, which the finite map does not keep: the
    list is meant up to its order. *)
Definition getAllProjects (st : t) : list ProjectContext.t :=
  (map_to_list (projects st)).*2.

(** [loadAllProjects].  [listing] is what [fs.readdirSync] answers: the
    names of the files of the persistence directory, in the order of the file
    system.  The directory exists, the constructor has seen to that. *)
Definition loadAllProjects (listing : list string) (st : t) : t :=
  foldl (fun acc file =>
           (loadProject (removeFirstOccurrence ".json" file) acc).2)
        st
        (filter (fun file => endsWith ".json" file = true) listing).

(** [new MemoryStore()] in a later run of the program: the two fields are
    fresh, the persistence directory is as the earlier run left it. *)
Definition reopen (st : t) : t :=
  {| projects := ∅; currentProjectId := None; files := files st;
     writable := writable st |}.

(** The name of the file of a project. *)
Definition fileName (projectId : string) : string := projectId +:+ ".json".

(** The file system starts or stops carrying out writes. *)
Definition setWritable (v : bool) (st : t) : t :=
  {| projects := projects st;
     currentProjectId := currentProjectId st;
     files := files st;
     writable := v |}.

(** Every call that changes the store, as data, and with them the change
    of the file system under it. *)
Inductive Op : Type :=
| CreateProject (now : Z) (uuid purposeId purposeName : string)
    (techStack : JsVal)
| Mutate (now : Z) (m : Mutation)
| DeleteProject (projectId : string)
| SetCurrentProject (projectId : string)
| LoadProject (projectId : string)
| Disk (writable : bool).

Definition exec (op : Op) (st : t) : t :=
  match op with
  | CreateProject now uuid purposeId purposeName techStack =>
      (createProject now uuid purposeId purposeName techStack st).2
  | Mutate now m => apply now m st
  | DeleteProject projectId => deleteProject projectId st
  | SetCurrentProject projectId => setCurrentProject projectId st
  | LoadProject projectId => (loadProject projectId st).2
  | Disk v => setWritable v st
  end.

Definition exec_all (ops : list Op) (st : t) : t :=
  foldl (fun acc op => exec op acc) st ops.

End MemoryStore.

(** ** The event bus (src/core/eventBus.ts) *)

Module EventBus.
Import JS.

(** [enum EventType]: the channel identifiers are strings. *)
Definition SYSTEM_INIT : string := "system.init".
Definition SYSTEM_ERROR : string := "system.error".
Definition PURPOSE_SELECTED : string := "purpose.selected".
Definition PROJECT_REALIGN : string := "project.realign".
Definition AGENT_CREATED : string := "agent.created".
Definition AGENT_STARTED : string := "agent.started".
Definition AGENT_COMPLETED : string := "agent.completed".
Definition AGENT_FAILED : string := "agent.failed".
Definition PHASE_REQUIREMENTS_START : string := "phase.requirements.start".
Definition PHASE_REQUIREMENTS_COMPLETE : string :=
  "phase.requirements.complete".
Definition PHASE_ARCHITECTURE_START : string := "phase.architecture.start".
Definition PHASE_ARCHITECTURE_COMPLETE : string :=
  "phase.architecture.complete".
Definition PHASE_DEVELOPMENT_START : string := "phase.development.start".
Definition PHASE_DEVELOPMENT_COMPLETE : string :=
  "phase.development.complete".
Definition PHASE_TESTING_START : string := "phase.testing.start".
Definition PHASE_TESTING_COMPLETE : string := "phase.testing.complete".
Definition PHASE_DEVOPS_START : string := "phase.devops.start".
Definition PHASE_DEVOPS_COMPLETE : string := "phase.devops.complete".
Definition PHASE_DOCUMENTATION_START : string := "phase.documentation.start".
Definition PHASE_DOCUMENTATION_COMPLETE : string :=
  "phase.documentation.complete".
Definition USER_MESSAGE : string := "user.message".

(** [EventPayload] and the members that its extensions for phase and agent
    events add; a member that an event does not carry is [None] or
    [VUndefined]. *)
Record EventPayload : Type := mkPayload {
  timestamp : option Z;
  source : option string;
  metadata : JsVal;
  phase : option string;
  result : JsVal;
  artifacts : JsVal;
  agentId : option string;
  agentRole : option string;
  data : JsVal
}.

Definition emptyPayload : EventPayload :=
  mkPayload None None VUndefined None VUndefined VUndefined None None
            VUndefined.

(** The functions that are subscribed: those of the core, and those of
    the code around it.  Two listeners hold the same function exactly when
    they hold the same tag. *)
Inductive Handler : Type :=
| PhaseComplete (phaseName : string)
    (* the arrow function that AutoFlow.setupEventListeners subscribes for
       the phase of that name *)
| SystemError
| ProjectRealign
    (* the two arrow functions of AgentManager.setupEventListeners *)
| WaitFor (call : nat) (timer : option nat)
    (* [handler] in the [call]-th run of [waitFor], which closes over the
       timer of that run *)
| Foreign (n : nat).
    (* a function that code outside the core subscribes, the [n]-th of
       them: the orchestrator's listener of "purpose.selected" is one.  What
       it does is not modelled, and a dispatch that reaches it is not
       followed. *)

#[global] Instance Handler_eq_dec : EqDecision Handler.
Proof. solve_decision. Defined.

(** An entry of the emitter: the function and its [once] flag. *)
Record Listener : Type := mkListener {
  event : string;
  fn : Handler;
  once : bool
}.

Record t : Type := mk {
  listeners : list Listener;
  eventHistory : list (string * EventPayload);
  maxHistorySize : nat
}.

Definition new : t :=
  {| listeners := []; eventHistory := []; maxHistorySize := 1000 |}.

Definition with_listeners (ls : list Listener) (b : t) : t :=
  {| listeners := ls;
     eventHistory := eventHistory b;
     maxHistorySize := maxHistorySize b |}.

Definition with_eventHistory (h : list (string * EventPayload)) (b : t) : t :=
  {| listeners := listeners b;
     eventHistory := h;
     maxHistorySize := maxHistorySize b |}.

Definition on (ev : string) (handler : Handler) (b : t) : t :=
  with_listeners (listeners b ++ [mkListener ev handler false]) b.

Definition subscribeOnce (ev : string) (handler : Handler) (b : t) : t :=
  with_listeners (listeners b ++ [mkListener ev handler true]) b.

(** [emitter.off(event, handler)]: every entry of the event that holds the
    function goes. *)
Definition off (ev : string) (handler : Handler) (b : t) : t :=
  with_listeners
    (filter (fun l => ¬ (event l = ev ∧ fn l = handler)) (listeners b)) b.

(** What the emitter does with a [once] entry just before it calls it: the
    entries of the event that hold the function and are [once] go. *)
Definition dropOnce (ev : string) (handler : Handler) (b : t) : t :=
  with_listeners
    (filter (fun l => ¬ (event l = ev ∧ fn l = handler ∧ once l = true))
            (listeners b)) b.

(** The entries that a dispatch of [ev] calls, in subscription order. *)
Definition subscribers (ev : string) (b : t) : list Listener :=
  filter (fun l => event l = ev) (listeners b).

Definition addToHistory (ev : string) (payload : EventPayload) (b : t) : t :=
  let pushed := eventHistory b ++ [(ev, payload)] in
  if decide (maxHistorySize b < length pushed)
  then with_eventHistory (tail pushed) b
  else with_eventHistory pushed b.

(** [if (!payload.timestamp) payload.timestamp = Date.now()]. *)
Definition stamp (now : Z) (payload : EventPayload) : EventPayload :=
  if truthy_num (timestamp payload) then payload
  else mkPayload (Some now) (source payload) (metadata payload)
                 (phase payload) (result payload) (artifacts payload)
                 (agentId payload) (agentRole payload) (data payload).

(** [getHistory(filterEvent?)]; the empty string is falsy. *)
Definition getHistory (filterEvent : option string) (b : t)
  : list (string * EventPayload) :=
  match filterEvent with
  | Some ev =>
      if decide (ev = "") then eventHistory b
      else filter (fun entry => entry.1 = ev) (eventHistory b)
  | None => eventHistory b
  end.

Definition clearHistory (b : t) : t := with_eventHistory [] b.

Definition removeAllListeners (b : t) : t := with_listeners [] b.

(** The part of [emit] that is the bus's own: stamp, then store. *)
Definition record (now : Z) (ev : string) (payload : EventPayload) (b : t)
  : t :=
  addToHistory ev (stamp now payload) b.

(** A call [emit(event, payload)] made when the clock shows [time]. *)
Record Publish : Type := mkPublish {
  p_time : Z;
  p_event : string;
  p_payload : EventPayload
}.

(** Publishing a run of events on a bus that nobody listens to. *)
Definition record_all (ps : list Publish) (b : t) : t :=
  foldl (fun acc p => record (p_time p) (p_event p) (p_payload p) acc) b ps.

(** What the class lets a caller do to the bus itself: subscribe and
    unsubscribe, publish (of which the bus's own part is [record]), clear the
    history, remove the listeners.  The capacity is a private field with an
    initializer; the constructor takes no argument and no method assigns the
    field. *)
Inductive Call : Type :=
| Subscribe (ev : string) (handler : Handler) (once : bool)
| Unsubscribe (ev : string) (handler : Handler)
| Store (p : Publish)
| ClearHistory
| RemoveAllListeners.

Definition step (c : Call) (b : t) : t :=
  match c with
  | Subscribe ev handler false => on ev handler b
  | Subscribe ev handler true => subscribeOnce ev handler b
  | Unsubscribe ev handler => off ev handler b
  | Store p => record (p_time p) (p_event p) (p_payload p) b
  | ClearHistory => clearHistory b
  | RemoveAllListeners => removeAllListeners b
  end.

Definition run (cs : list Call) (b : t) : t :=
  foldl (fun acc c => step c acc) b cs.

End EventBus.

(** ** The agent registry (src/core/agentManager.ts) *)

Module AgentManager.

(** [enum AgentRole]. *)
Inductive AgentRole : Set :=
| LEAD | REQUIREMENTS | ARCHITECT | BACKEND | FRONTEND | MOBILE | GAME
| TESTER | DEVOPS | DOCS | SUMMARIZER.

(** The [status] of an instance:
    ['idle' | 'working' | 'completed' | 'failed']. *)
Inductive AgentStatus : Set := idle | working | completed | failed.

#[global] Instance AgentRole_eq_dec : EqDecision AgentRole.
Proof. solve_decision. Defined.

#[global] Instance AgentStatus_eq_dec : EqDecision AgentStatus.
Proof. solve_decision. Defined.

Definition role_index (r : AgentRole) : nat :=
  match r with
  | LEAD => 0 | REQUIREMENTS => 1 | ARCHITECT => 2 | BACKEND => 3
  | FRONTEND => 4 | MOBILE => 5 | GAME => 6 | TESTER => 7 | DEVOPS => 8
  | DOCS => 9 | SUMMARIZER => 10
  end.

Definition role_of_index (n : nat) : AgentRole :=
  match n with
  | 0 => LEAD | 1 => REQUIREMENTS | 2 => ARCHITECT | 3 => BACKEND
  | 4 => FRONTEND | 5 => MOBILE | 6 => GAME | 7 => TESTER | 8 => DEVOPS
  | 9 => DOCS | _ => SUMMARIZER
  end.

#[global] Instance AgentRole_countable : Countable AgentRole.
Proof.
  refine (inj_countable' role_index role_of_index _). by intros [].
Defined.

Definition status_index (s : AgentStatus) : nat :=
  match s with idle => 0 | working => 1 | completed => 2 | failed => 3 end.

Definition status_of_index (n : nat) : AgentStatus :=
  match n with 0 => idle | 1 => working | 2 => completed | _ => failed end.

#[global] Instance AgentStatus_countable : Countable AgentStatus.
Proof.
  refine (inj_countable' status_index status_of_index _). by intros [].
Defined.

(** The string value of a role, as it travels in event payloads. *)
Definition role_name (r : AgentRole) : string :=
  match r with
  | LEAD => "lead" | REQUIREMENTS => "requirements"
  | ARCHITECT => "architect" | BACKEND => "backend"
  | FRONTEND => "frontend" | MOBILE => "mobile" | GAME => "game"
  | TESTER => "tester" | DEVOPS => "devops" | DOCS => "docs"
  | SUMMARIZER => "summarizer"
  end.

(** [interface AgentConfig]. *)
Record AgentConfig : Type := mkConfig {
  cfg_role : AgentRole;
  capabilities : list string;
  priority : Z;
  systemPrompt : option string
}.

(** [interface AgentInstance]; [agent] is the handle of the worker. *)
Record AgentInstance : Type := mkInstance {
  id : string;
  role : AgentRole;
  agent : nat;
  config : AgentConfig;
  status : AgentStatus;
  createdAt : Z
}.

Definition with_status (v : AgentStatus) (i : AgentInstance)
  : AgentInstance :=
  mkInstance (id i) (role i) (agent i) (config i) v (createdAt i).

(** The two private maps.  The role index holds the very instance objects
    of [agents]; it is kept here as the list of their ids. *)
Record t : Type := mk {
  agents : gmap string AgentInstance;
  agentsByRole : gmap AgentRole (list string)
}.

Definition new : t := {| agents := ∅; agentsByRole := ∅ |}.

Definition createAgent (now : Z) (uuid : string) (r : AgentRole)
  (cfg : AgentConfig) (worker : nat) (m : t) : string * t :=
  let instance := mkInstance uuid r worker cfg idle now in
  let byRole :=
    <[r := default [] (agentsByRole m !! r) ++ [uuid]]> (agentsByRole m) in
  (uuid, {| agents := <[uuid := instance]> (agents m);
            agentsByRole := byRole |}).

Definition getAgent (agentId : string) (m : t) : option AgentInstance :=
  agents m !! agentId.

Definition getAgentsByRole (r : AgentRole) (m : t) : list AgentInstance :=
  omap (fun i => agents m !! i) (default [] (agentsByRole m !! r)).

(** [instance.status = v] on the instance that [agents.get(agentId)]
    returned. *)
Definition setStatus (agentId : string) (v : AgentStatus) (m : t) : t :=
  {| agents := alter (with_status v) agentId (agents m);
     agentsByRole := agentsByRole m |}.

Definition isActive (i : AgentInstance) : bool :=
  match status i with
  | idle | working => true
  | completed | failed => false
  end.

Definition getActiveAgents (m : t) : list AgentInstance :=
  filter (fun i => isActive i = true) ((map_to_list (agents m)).*2).

(** [roleAgents.splice(index, 1)] at the first index whose id matches. *)
Fixpoint removeFirst (agentId : string) (l : list string) : list string :=
  match l with
  | [] => []
  | x :: l' => if decide (x = agentId) then l' else x :: removeFirst agentId l'
  end.

Definition removeAgent (agentId : string) (m : t) : t :=
  match agents m !! agentId with
  | None => m
  | Some instance =>
      {| agents := delete agentId (agents m);
         agentsByRole :=
           alter (removeFirst agentId) (role instance) (agentsByRole m) |}
  end.

Definition clearAgents (m : t) : t := {| agents := ∅; agentsByRole := ∅ |}.

(** [stats.byX[k] = (stats.byX[k] || 0) + 1]. *)
Definition bump {K : Type} `{Countable K} (k : K) (counts : gmap K nat)
  : gmap K nat :=
  <[k := default 0 (counts !! k) + 1]> counts.

Record Statistics : Type := mkStats {
  total : nat;
  byRole : gmap AgentRole nat;
  byStatus : gmap AgentStatus nat
}.

Definition getStatistics (m : t) : Statistics :=
  {| total := size (agents m);
     byRole := map_fold (fun _ i acc => bump (role i) acc) ∅ (agents m);
     byStatus := map_fold (fun _ i acc => bump (status i) acc) ∅ (agents m) |}.

(** The sum of the counts of a [Record<string, number>]. *)
Definition sum_counts {K : Type} `{Countable K} (counts : gmap K nat) : nat :=
  map_fold (fun _ n acc => n + acc) 0 counts.

(** The calls that change the registry.  [executeAgent] is asynchronous: it
    sets the instance to ['working'], awaits the worker and then sets it to
    ['completed'] or ['failed']; the two halves are [ExecuteStart] and
    [ExecuteSettle], and other calls may come in between. *)
Inductive Call : Type :=
| CreateAgent (now : Z) (uuid : string) (r : AgentRole) (cfg : AgentConfig)
    (worker : nat)
| ExecuteStart (agentId : string)
| ExecuteSettle (agentId : string) (succeeded : bool)
| RemoveAgent (agentId : string)
| ClearAgents.

Definition step (c : Call) (m : t) : t :=
  match c with
  | CreateAgent now uuid r cfg worker => (createAgent now uuid r cfg worker m).2
  | ExecuteStart agentId => setStatus agentId working m
  | ExecuteSettle agentId succeeded =>
      setStatus agentId (if succeeded then completed else failed) m
  | RemoveAgent agentId => removeAgent agentId m
  | ClearAgents => clearAgents m
  end.

Definition run (cs : list Call) (m : t) : t := foldl (fun acc c => step c acc) m cs.

End AgentManager.

(** ** The workflow engine (src/core/autoFlow.ts): its data *)

Module AutoFlow.
Import EventBus.

(** [interface WorkflowPhase]. *)
Record WorkflowPhase : Type := mkPhase {
  name : string;
  agentRoles : list AgentManager.AgentRole;
  startEvent : string;
  completeEvent : string;
  nextPhase : option string;
  isParallel : option bool
}.

Record t : Type := mk {
  workflows : gmap string (list WorkflowPhase);
  currentPhase : option string;
  isRunning : bool
}.

Definition defaultWorkflow : list WorkflowPhase :=
  [ mkPhase "requirements" [AgentManager.REQUIREMENTS]
      PHASE_REQUIREMENTS_START PHASE_REQUIREMENTS_COMPLETE
      (Some "architecture") None;
    mkPhase "architecture" [AgentManager.ARCHITECT]
      PHASE_ARCHITECTURE_START PHASE_ARCHITECTURE_COMPLETE
      (Some "development") None;
    mkPhase "development"
      [AgentManager.BACKEND; AgentManager.FRONTEND; AgentManager.MOBILE;
       AgentManager.GAME]
      PHASE_DEVELOPMENT_START PHASE_DEVELOPMENT_COMPLETE
      (Some "testing") (Some true);
    mkPhase "testing" [AgentManager.TESTER]
      PHASE_TESTING_START PHASE_TESTING_COMPLETE
      (Some "devops") None;
    mkPhase "devops" [AgentManager.DEVOPS]
      PHASE_DEVOPS_START PHASE_DEVOPS_COMPLETE
      (Some "documentation") None;
    mkPhase "documentation" [AgentManager.DOCS]
      PHASE_DOCUMENTATION_START PHASE_DOCUMENTATION_COMPLETE
      None None ].

(** The fields after [initializeDefaultWorkflow()]. *)
Definition new : t :=
  {| workflows := {["default" := defaultWorkflow]};
     currentPhase := None;
     isRunning := false |}.

Definition registerWorkflow (workflowName : string)
  (phases : list WorkflowPhase) (f : t) : t :=
  {| workflows := <[workflowName := phases]> (workflows f);
     currentPhase := currentPhase f;
     isRunning := isRunning f |}.

Definition with_currentPhase (v : option string) (f : t) : t :=
  {| workflows := workflows f; currentPhase := v; isRunning := isRunning f |}.

Definition with_isRunning (v : bool) (f : t) : t :=
  {| workflows := workflows f; currentPhase := currentPhase f;
     isRunning := v |}.

Definition getCurrentPhase (f : t) : option string := currentPhase f.

Definition isWorkflowRunning (f : t) : bool := isRunning f.

Definition reset (f : t) : t :=
  {| workflows := workflows f; currentPhase := None; isRunning := false |}.

(** [workflow.find((phase) => phase.name === phaseName)]; it is also the
    entry at [workflow.findIndex(...)]. *)
Definition findPhase (phaseName : string) (workflow : list WorkflowPhase)
  : option WorkflowPhase :=
  List.find (fun ph => bool_decide (name ph = phaseName)) workflow.

(** The local table [statusMap] of [proceedToNextPhase], an object
    literal: what [statusMap[phaseName]] reads for a [phaseName] that is an
    [ordinaryKey] ([None] is [undefined]).  Under one of the inherited names
    the read finds a member of [Object.prototype], which is no status; the
    function is meant for ordinary names, the names of the built-in phases
    among them. *)
Definition statusMap (phaseName : string) : option MemoryStore.ProjectStatus :=
  if decide (phaseName = "requirements") then Some MemoryStore.REQUIREMENTS
  else if decide (phaseName = "architecture") then Some MemoryStore.ARCHITECTURE
  else if decide (phaseName = "development") then Some MemoryStore.DEVELOPMENT
  else if decide (phaseName = "testing") then Some MemoryStore.TESTING
  else if decide (phaseName = "devops") then Some MemoryStore.DEVOPS
  else if decide (phaseName = "documentation")
       then Some MemoryStore.DOCUMENTATION
  else None.

(** [statusMap[nextPhaseName] || ProjectStatus.DEVELOPMENT]: the phase to
    status mapping. *)
Definition phaseStatus (phaseName : string) : MemoryStore.ProjectStatus :=
  default MemoryStore.DEVELOPMENT (statusMap phaseName).

(** [if (!nextPhaseName)]: the name is missing or the empty string. *)
Definition successor (ph : WorkflowPhase) : option string :=
  match nextPhase ph with
  | Some n => if decide (n = "") then None else Some n
  | None => None
  end.

(** The object literals that the engine passes to [updatePhase]. *)
Definition startedRecord (phaseName : string) (now : Z)
  : MemoryStore.PartialPhaseData.t :=
  {| MemoryStore.PartialPhaseData.name := Some phaseName;
     MemoryStore.PartialPhaseData.status := Some MemoryStore.in_progress;
     MemoryStore.PartialPhaseData.startedAt := Some (JS.VNum now);
     MemoryStore.PartialPhaseData.completedAt := None;
     MemoryStore.PartialPhaseData.result := None;
     MemoryStore.PartialPhaseData.artifacts := None;
     MemoryStore.PartialPhaseData.notes := None |}.

Definition completedRecord (phaseName : string) (now : Z)
  (payload : EventPayload) : MemoryStore.PartialPhaseData.t :=
  {| MemoryStore.PartialPhaseData.name := Some phaseName;
     MemoryStore.PartialPhaseData.status := Some MemoryStore.completed;
     MemoryStore.PartialPhaseData.startedAt := None;
     MemoryStore.PartialPhaseData.completedAt := Some (JS.VNum now);
     MemoryStore.PartialPhaseData.result := Some (result payload);
     MemoryStore.PartialPhaseData.artifacts := Some (artifacts payload);
     MemoryStore.PartialPhaseData.notes := None |}.

(** The payload of a start event. *)
Definition startPayload (phaseName : string) (now : Z) : EventPayload :=
  mkPayload (Some now) (Some "AutoFlow") JS.VUndefined (Some phaseName)
            JS.VUndefined JS.VUndefined None None JS.VUndefined.

(** The listeners that [setupEventListeners] subscribes, in its order. *)
Definition phaseListeners : list Listener :=
  [ mkListener PHASE_REQUIREMENTS_COMPLETE (PhaseComplete "requirements")
      false;
    mkListener PHASE_ARCHITECTURE_COMPLETE (PhaseComplete "architecture")
      false;
    mkListener PHASE_DEVELOPMENT_COMPLETE (PhaseComplete "development") false;
    mkListener PHASE_TESTING_COMPLETE (PhaseComplete "testing") false;
    mkListener PHASE_DEVOPS_COMPLETE (PhaseComplete "devops") false;
    mkListener PHASE_DOCUMENTATION_COMPLETE (PhaseComplete "documentation")
      false ].

End AutoFlow.

(** ** The four singletons together

    The module-level instances [eventBus], [memoryStore], [agentManager] and
    [autoFlow], the clock and the pending timers and promises of the
    JavaScript run time.  [emit] calls the listeners synchronously, and a
    listener of the engine emits in turn, so [emit] takes fuel: the depth of
    nested emits that the call stack allows.  [None] is a dispatch that did
    not finish within it. *)

Module Core.
Import JS EventBus.

(** How the promise of a [waitFor] call was settled. *)
Inductive Settlement : Type :=
| Resolved (payload : EventPayload)
| Rejected (message : string).

(** A pending [setTimeout] of [waitFor]: its callback unsubscribes the
    handler of the call and rejects its promise. *)
Record Timer : Type := mkTimer {
  timerId : nat;
  due : Z;
  t_event : string;
  t_call : nat
}.

Record t : Type := mk {
  now : Z;
  bus : EventBus.t;
  timers : list Timer;
  nextTimer : nat;
  nextCall : nat;
  promises : gmap nat Settlement;
  store : MemoryStore.t;
  manager : AgentManager.t;
  flow : AutoFlow.t
}.

Definition with_now (v : Z) (s : t) : t :=
  mk v (bus s) (timers s) (nextTimer s) (nextCall s) (promises s) (store s)
     (manager s) (flow s).

Definition with_bus (v : EventBus.t) (s : t) : t :=
  mk (now s) v (timers s) (nextTimer s) (nextCall s) (promises s) (store s)
     (manager s) (flow s).

Definition with_timers (v : list Timer) (s : t) : t :=
  mk (now s) (bus s) v (nextTimer s) (nextCall s) (promises s) (store s)
     (manager s) (flow s).

Definition with_nextTimer (v : nat) (s : t) : t :=
  mk (now s) (bus s) (timers s) v (nextCall s) (promises s) (store s)
     (manager s) (flow s).

Definition with_nextCall (v : nat) (s : t) : t :=
  mk (now s) (bus s) (timers s) (nextTimer s) v (promises s) (store s)
     (manager s) (flow s).

Definition with_promises (v : gmap nat Settlement) (s : t) : t :=
  mk (now s) (bus s) (timers s) (nextTimer s) (nextCall s) v (store s)
     (manager s) (flow s).

Definition with_store (v : MemoryStore.t) (s : t) : t :=
  mk (now s) (bus s) (timers s) (nextTimer s) (nextCall s) (promises s) v
     (manager s) (flow s).

Definition with_manager (v : AgentManager.t) (s : t) : t :=
  mk (now s) (bus s) (timers s) (nextTimer s) (nextCall s) (promises s)
     (store s) v (flow s).

Definition with_flow (v : AutoFlow.t) (s : t) : t :=
  mk (now s) (bus s) (timers s) (nextTimer s) (nextCall s) (promises s)
     (store s) (manager s) v.

(** The listeners of the two [setupEventListeners], in the order in which
    the modules are loaded: agentManager.ts before autoFlow.ts, which imports
    it.  The listener of "purpose.selected" that utils/orchestrator.ts adds
    belongs to the application around the core; it is not in this list. *)
Definition coreListeners : list Listener :=
  [ mkListener SYSTEM_ERROR SystemError false;
    mkListener PROJECT_REALIGN ProjectRealign false ]
  ++ AutoFlow.phaseListeners.

(** The state once the four modules are loaded, at time [now0]. *)
Definition init (now0 : Z) : t :=
  {| now := now0;
     bus := EventBus.with_listeners coreListeners EventBus.new;
     timers := [];
     nextTimer := 0;
     nextCall := 0;
     promises := ∅;
     store := MemoryStore.new;
     manager := AgentManager.new;
     flow := AutoFlow.new |}.

(** [resolve] and [reject]: a promise is settled once. *)
Definition settle (call : nat) (o : Settlement) (s : t) : t :=
  match promises s !! call with
  | Some _ => s
  | None => with_promises (<[call := o]> (promises s)) s
  end.

(** [if (timer) clearTimeout(timer)]. *)
Definition clearTimeout (timer : option nat) (s : t) : t :=
  match timer with
  | Some i => with_timers (filter (fun tm => timerId tm ≠ i) (timers s)) s
  | None => s
  end.

(** The first half of a phase listener: the record of the phase of the
    listener is marked completed in the current project. *)
Definition markCompleted (phaseName : string) (payload : EventPayload)
  (s : t) : t :=
  match MemoryStore.getCurrentProject (store s) with
  | Some project =>
      with_store
        (MemoryStore.updatePhase (now s)
           (MemoryStore.ProjectContext.id project) phaseName
           (AutoFlow.completedRecord phaseName (now s) payload) (store s)) s
  | None => s
  end.

(** [AutoFlow.proceedToNextPhase]; [emit_] is the bus's [emit]. *)
Definition proceedToNextPhase
  (emit_ : string -> EventPayload -> t -> option t)
  (currentPhaseName : string) (s : t) : option t :=
  match AutoFlow.workflows (flow s) !! "default" with
  | None => Some s
  | Some workflow =>
      match AutoFlow.findPhase currentPhaseName workflow with
      | None => Some s
      | Some currentPhase =>
          match AutoFlow.successor currentPhase with
          | None =>
              let s1 := with_flow (AutoFlow.with_isRunning false (flow s)) s in
              match MemoryStore.getCurrentProject (store s1) with
              | Some project =>
                  Some (with_store
                          (MemoryStore.updateProjectStatus (now s1)
                             (MemoryStore.ProjectContext.id project)
                             MemoryStore.COMPLETED (store s1)) s1)
              | None => Some s1
              end
          | Some nextPhaseName =>
              match AutoFlow.findPhase nextPhaseName workflow with
              | None => Some s
              | Some nextPhase =>
                  let s1 :=
                    with_flow
                      (AutoFlow.with_currentPhase (Some nextPhaseName)
                         (flow s)) s in
                  let s2 :=
                    match MemoryStore.getCurrentProject (store s1) with
                    | Some project =>
                        let pid := MemoryStore.ProjectContext.id project in
                        with_store
                          (MemoryStore.updatePhase (now s1) pid nextPhaseName
                             (AutoFlow.startedRecord nextPhaseName (now s1))
                             (MemoryStore.updateProjectStatus (now s1) pid
                                (AutoFlow.phaseStatus nextPhaseName)
                                (store s1))) s1
                    | None => s1
                    end in
                  emit_ (AutoFlow.startEvent nextPhase)
                        (AutoFlow.startPayload nextPhaseName (now s2)) s2
              end
          end
      end
  end.

(** The body of each function that the core subscribes.  The call of a
    function from outside the core has no result here. *)
Definition invoke (emit_ : string -> EventPayload -> t -> option t)
  (h : Handler) (payload : EventPayload) (s : t) : option t :=
  match h with
  | PhaseComplete phaseName =>
      proceedToNextPhase emit_ phaseName (markCompleted phaseName payload s)
  | SystemError => Some s
  | ProjectRealign =>
      Some (with_manager (AgentManager.clearAgents (manager s)) s)
  | WaitFor call timer =>
      Some (settle call (Resolved payload) (clearTimeout timer s))
  | Foreign _ => None
  end.

(** The loop of the emitter over the entries that it found for the event:
    a [once] entry is removed, then its function is called. *)
Fixpoint dispatch (call : Handler -> EventPayload -> t -> option t)
  (ev : string) (payload : EventPayload) (ls : list Listener) (s : t)
  : option t :=
  match ls with
  | [] => Some s
  | l :: ls' =>
      let s1 :=
        if once l then with_bus (dropOnce ev (fn l) (bus s)) s else s in
      match call (fn l) payload s1 with
      | Some s2 => dispatch call ev payload ls' s2
      | None => None
      end
  end.

(** [EventBus.emit]; [None] when the call is not followed to its end:
    the stack is exhausted, or a function from outside the core is
    reached. *)
Fixpoint emit (fuel : nat) (ev : string) (payload : EventPayload) (s : t)
  : option t :=
  match fuel with
  | 0 => None
  | S fuel' =>
      let payload' := stamp (now s) payload in
      let s1 := with_bus (addToHistory ev payload' (bus s)) s in
      dispatch (invoke (emit fuel')) ev payload' (subscribers ev (bus s1)) s1
  end.

(** A run of [emit] calls, each at its own time. *)
Fixpoint publishAll (fuel : nat) (ps : list Publish) (s : t) : option t :=
  match ps with
  | [] => Some s
  | p :: ps' =>
      match emit fuel (p_event p) (p_payload p) (with_now (p_time p) s) with
      | Some s' => publishAll fuel ps' s'
      | None => None
      end
  end.

(** What a call of the engine or of the registry can come to. *)
Inductive Error : Type :=
| WorkflowNotFound (workflowName : string)
| NoActiveProject
| FirstPhaseUndefined
| AgentNotFound (agentId : string)
| WorkerError.

Inductive Outcome : Type :=
| Returned (s : t)
| Threw (e : Error) (s : t)
| NotFollowed.

Definition outcome_of (r : option t) : Outcome :=
  match r with
  | Some s => Returned s
  | None => NotFollowed
  end.

(** [AutoFlow.startWorkflow]. *)
Definition startWorkflow (fuel : nat) (workflowName : string) (s : t)
  : Outcome :=
  match AutoFlow.workflows (flow s) !! workflowName with
  | None => Threw (WorkflowNotFound workflowName) s
  | Some workflow =>
      let s1 := with_flow (AutoFlow.with_isRunning true (flow s)) s in
      match MemoryStore.getCurrentProject (store s1) with
      | None => Threw NoActiveProject s1
      | Some project =>
          match workflow with
          | [] => Threw FirstPhaseUndefined s1
          | firstPhase :: _ =>
              let first := AutoFlow.name firstPhase in
              let pid := MemoryStore.ProjectContext.id project in
              let s2 :=
                with_flow (AutoFlow.with_currentPhase (Some first) (flow s1))
                          s1 in
              let s3 :=
                with_store
                  (MemoryStore.updatePhase (now s2) pid first
                     (AutoFlow.startedRecord first (now s2))
                     (MemoryStore.updateProjectStatus (now s2) pid
                        MemoryStore.REQUIREMENTS (store s2))) s2 in
              outcome_of
                (emit fuel (AutoFlow.startEvent firstPhase)
                      (AutoFlow.startPayload first (now s3)) s3)
          end
      end
  end.

Definition registerWorkflow (workflowName : string)
  (phases : list AutoFlow.WorkflowPhase) (s : t) : t :=
  with_flow (AutoFlow.registerWorkflow workflowName phases (flow s)) s.

Definition createProject (uuid purposeId purposeName : string)
  (techStack : JsVal) (s : t) : MemoryStore.ProjectContext.t * t :=
  let r := MemoryStore.createProject (now s) uuid purposeId purposeName
             techStack (store s) in
  (r.1, with_store r.2 s).

(** [EventBus.waitFor]: the number of the call stands for its promise.
    The timer is set under [timeout ? setTimeout(..., timeout) : null] and
    is due after the delay that [setTimeout] makes of [timeout]. *)
Definition waitFor (ev : string) (timeout : option JsNumber) (s : t)
  : nat * t :=
  let call := nextCall s in
  let timer := if truthy_number timeout then Some (nextTimer s) else None in
  let s1 :=
    match timer with
    | Some i =>
        with_nextTimer (S i)
          (with_timers
             (timers s
              ++ [mkTimer i (now s + from_option timerDelay 1%Z timeout) ev
                    call])
             s)
    | None => s
    end in
  (call,
   with_nextCall (S call)
     (with_bus (subscribeOnce ev (WaitFor call timer) (bus s1)) s1)).

(** The callback of a timer of [waitFor]. *)
Definition expire (tm : Timer) (s : t) : t :=
  settle (t_call tm)
    (Rejected ("Timeout waiting for event: " +:+ t_event tm))
    (with_bus
       (off (t_event tm) (WaitFor (t_call tm) (Some (timerId tm))) (bus s))
       s).

(** Time passes until [time]: the timers that are due by then fire. *)
Definition advanceTo (time : Z) (s : t) : t :=
  let now' := Z.max (now s) time in
  let fired := filter (fun tm => (due tm <= now')%Z) (timers s) in
  let pending := filter (fun tm => ¬ (due tm <= now')%Z) (timers s) in
  foldl (fun acc tm => expire tm acc) (with_timers pending (with_now now' s))
        fired.

(** The state of the promise of a call: [None] while it is pending. *)
Definition promiseOf (call : nat) (s : t) : option Settlement :=
  promises s !! call.

(** *** The registry's calls, with the events that they publish *)

Definition agentPayload (now0 : Z) (agentId : string)
  (r : AgentManager.AgentRole) (d : JsVal) : EventPayload :=
  mkPayload (Some now0) (Some "AgentManager") VUndefined None VUndefined
            VUndefined (Some agentId) (Some (AgentManager.role_name r)) d.

Definition createAgent (fuel : nat) (uuid : string)
  (r : AgentManager.AgentRole) (cfg : AgentManager.AgentConfig)
  (worker : nat) (s : t) : option (string * t) :=
  let m := AgentManager.createAgent (now s) uuid r cfg worker (manager s) in
  pair m.1 <$> emit fuel AGENT_CREATED (agentPayload (now s) uuid r VUndefined)
                    (with_manager m.2 s).

(** [executeAgent] up to its [await]. *)
Definition executeAgent_start (fuel : nat) (agentId : string) (input : JsVal)
  (s : t) : Outcome :=
  match AgentManager.getAgent agentId (manager s) with
  | None => Threw (AgentNotFound agentId) s
  | Some instance =>
      outcome_of
        (emit fuel AGENT_STARTED
           (agentPayload (now s) agentId (AgentManager.role instance) input)
           (with_manager
              (AgentManager.setStatus agentId AgentManager.working
                 (manager s)) s))
  end.

(** [executeAgent] from the moment the worker answers with [output], or
    fails; [r] is the role of the instance that the first half looked up. *)
Definition executeAgent_settle (fuel : nat) (agentId : string)
  (r : AgentManager.AgentRole) (output : option JsVal) (s : t) : Outcome :=
  match output with
  | Some v =>
      outcome_of
        (emit fuel AGENT_COMPLETED (agentPayload (now s) agentId r v)
           (with_manager
              (AgentManager.setStatus agentId AgentManager.completed
                 (manager s)) s))
  | None =>
      match emit fuel AGENT_FAILED (agentPayload (now s) agentId r VUndefined)
              (with_manager
                 (AgentManager.setStatus agentId AgentManager.failed
                    (manager s)) s) with
      | Some s' => Threw WorkerError s'
      | None => NotFollowed
      end
  end.

(** [eventBus.removeAllListeners()]. *)
Definition removeAllListeners (s : t) : t :=
  with_bus (EventBus.removeAllListeners (bus s)) s.

(** The program as src/index.ts loads it, at time [now0]: after the four
    singletons the orchestrator, which subscribes a listener of its own. *)
Definition loaded (now0 : Z) : t :=
  with_bus (on PURPOSE_SELECTED (Foreign 0) (bus (init now0))) (init now0).


(** *** The calls of an application, as data

    What a program that imports the four singletons can call on them; the
    functions that it subscribes are the [Foreign] ones.  The store's calls
    read the clock of the state; a call that throws leaves the state that it
    had reached.  [DoDisk] is not a call: the file system under the store
    starts or stops carrying out writes. *)
Inductive Command : Type :=
| DoCreateProject (uuid purposeId purposeName : string) (techStack : JsVal)
| DoMutate (m : MemoryStore.Mutation)
| DoDeleteProject (projectId : string)
| DoSetCurrentProject (projectId : string)
| DoLoadProject (projectId : string)
| DoLoadAllProjects (listing : list string)
| DoEmit (fuel : nat) (ev : string) (payload : EventPayload)
| DoOn (ev : string) (n : nat)
| DoOnce (ev : string) (n : nat)
| DoRemoveAllListeners
| DoWaitFor (ev : string) (timeout : option JsNumber)
| DoClearHistory
| DoTick (time : Z)
| DoStartWorkflow (fuel : nat) (workflowName : string)
| DoRegisterWorkflow (workflowName : string)
    (phases : list AutoFlow.WorkflowPhase)
| DoReset
| DoCreateAgent (fuel : nat) (uuid : string) (r : AgentManager.AgentRole)
    (cfg : AgentManager.AgentConfig) (worker : nat)
| DoExecuteStart (fuel : nat) (agentId : string) (input : JsVal)
| DoExecuteSettle (fuel : nat) (agentId : string)
    (r : AgentManager.AgentRole) (output : option JsVal)
| DoRemoveAgent (agentId : string)
| DoClearAgents
| DoDisk (writable : bool).

(** The state that a call leaves, whether it returned or threw. *)
Definition after (o : Outcome) : option t :=
  match o with
  | Returned s => Some s
  | Threw _ s => Some s
  | NotFollowed => None
  end.

Definition call (c : Command) (s : t) : option t :=
  match c with
  | DoCreateProject uuid purposeId purposeName techStack =>
      Some (createProject uuid purposeId purposeName techStack s).2
  | DoMutate m => Some (with_store (MemoryStore.apply (now s) m (store s)) s)
  | DoDeleteProject projectId =>
      Some (with_store (MemoryStore.deleteProject projectId (store s)) s)
  | DoSetCurrentProject projectId =>
      Some (with_store (MemoryStore.setCurrentProject projectId (store s)) s)
  | DoLoadProject projectId =>
      Some (with_store (MemoryStore.loadProject projectId (store s)).2 s)
  | DoLoadAllProjects listing =>
      Some (with_store (MemoryStore.loadAllProjects listing (store s)) s)
  | DoEmit fuel ev payload => emit fuel ev payload s
  | DoOn ev n => Some (with_bus (on ev (Foreign n) (bus s)) s)
  | DoOnce ev n => Some (with_bus (subscribeOnce ev (Foreign n) (bus s)) s)
  | DoRemoveAllListeners => Some (removeAllListeners s)
  | DoWaitFor ev timeout => Some (waitFor ev timeout s).2
  | DoClearHistory => Some (with_bus (clearHistory (bus s)) s)
  | DoTick time => Some (advanceTo time s)
  | DoStartWorkflow fuel workflowName =>
      after (startWorkflow fuel workflowName s)
  | DoRegisterWorkflow workflowName phases =>
      Some (registerWorkflow workflowName phases s)
  | DoReset => Some (with_flow (AutoFlow.reset (flow s)) s)
  | DoCreateAgent fuel uuid r cfg worker =>
      snd <$> createAgent fuel uuid r cfg worker s
  | DoExecuteStart fuel agentId input =>
      after (executeAgent_start fuel agentId input s)
  | DoExecuteSettle fuel agentId r output =>
      after (executeAgent_settle fuel agentId r output s)
  | DoRemoveAgent agentId =>
      Some (with_manager (AgentManager.removeAgent agentId (manager s)) s)
  | DoClearAgents =>
      Some (with_manager (AgentManager.clearAgents (manager s)) s)
  | DoDisk v => Some (with_store (MemoryStore.setWritable v (store s)) s)
  end.


End Core.

(** ** The plugin: [AutoCursor] (src/index.ts)

    The methods of the class use [memoryStore], [eventBus], [agentManager],
    [purposeRegistry] and [LeadAgent].  The module names them only in
    [export ... from] declarations, which bind nothing in the module itself:
    evaluating one of these names throws a [ReferenceError]. *)

Module AutoCursor.

(** The one field of the class. *)
Record t : Type := mk {
  initialized : bool
}.

Definition new : t := {| initialized := false |}.

(** What a call of a method comes to: it returns (the promise of an
    [async] method is fulfilled), or it throws a [ReferenceError] (the promise
    of an [async] method is rejected with it); the name is the one that could
    not be resolved. *)
Inductive Outcome : Type :=
| Returned (a : t)
| ThrewReferenceError (name : string) (a : t).

(** [initialize]: after the guard and a line of log, [memoryStore] is the
    first name evaluated. *)
Definition initialize (a : t) : Outcome :=
  if initialized a then Returned a
  else ThrewReferenceError "memoryStore" a.

(** [shutdown]: after a line of log, [agentManager] is the first name
    evaluated; the assignment to the flag is not reached. *)
Definition shutdown (a : t) : Outcome :=
  ThrewReferenceError "agentManager" a.

Definition getCurrentProject (a : t) : Outcome :=
  ThrewReferenceError "memoryStore" a.

Definition getStatistics (a : t) : Outcome :=
  ThrewReferenceError "memoryStore" a.

(** The calls that are meant to change the plugin, as data. *)
Inductive Call : Type := Initialize | Shutdown.

Definition perform (c : Call) (a : t) : Outcome :=
  match c with
  | Initialize => initialize a
  | Shutdown => shutdown a
  end.

(** The plugin after a call, whether it returned or threw. *)
Definition after (o : Outcome) : t :=
  match o with
  | Returned a => a
  | ThrewReferenceError _ a => a
  end.

Definition run (cs : list Call) (a : t) : t :=
  foldl (fun acc c => after (perform c acc)) a cs.

End AutoCursor.

(** ** Notions that the statements below use *)

Module Spec.
Import JS.

(** The last [n] elements of a list, in the order of the list. *)
Definition lastn {A : Type} (n : nat) (l : list A) : list A :=
  drop (length l - n) l.

(** The entries that a run of events leaves in the history when none is
    evicted: each event with its payload, stamped. *)
Definition stamped (ps : list EventBus.Publish)
  : list (string * EventBus.EventPayload) :=
  (fun p => (EventBus.p_event p,
             EventBus.stamp (EventBus.p_time p) (EventBus.p_payload p)))
    <$> ps.

(** A project context whose opaque values are all JSON-representable. *)
Definition clean_phase (d : MemoryStore.PhaseData.t) : Prop :=
  json_clean_opt (MemoryStore.PhaseData.startedAt d) = true
  ∧ json_clean_opt (MemoryStore.PhaseData.completedAt d) = true
  ∧ json_clean_opt (MemoryStore.PhaseData.result d) = true
  ∧ json_clean_opt (MemoryStore.PhaseData.artifacts d) = true.

Definition clean_entry (e : MemoryStore.ConversationEntry.t) : Prop :=
  json_clean_opt (MemoryStore.ConversationEntry.metadata e) = true.

Definition clean_project (p : MemoryStore.ProjectContext.t) : Prop :=
  json_clean_opt (MemoryStore.ProjectContext.techStack p) = true
  ∧ map_Forall (fun _ d => clean_phase d) (MemoryStore.ProjectContext.phases p)
  ∧ map_Forall (fun _ v => json_clean v = true)
               (MemoryStore.ProjectContext.artifacts p)
  ∧ Forall clean_entry (MemoryStore.ProjectContext.conversationHistory p)
  ∧ map_Forall (fun _ v => json_clean v = true)
               (MemoryStore.ProjectContext.metadata p).

(** The project [p] is the current one and sits in the map under its own
    id, [pid]. *)
Definition current (st : MemoryStore.t) (pid : string)
  (p : MemoryStore.ProjectContext.t) : Prop :=
  MemoryStore.currentProjectId st = Some pid
  ∧ pid ≠ ""
  ∧ MemoryStore.projects st !! pid = Some p
  ∧ MemoryStore.ProjectContext.id p = pid.



(** No timer of the [call]-th [waitFor] is pending. *)
Definition untimed (call : nat) (s : Core.t) : Prop :=
  ∀ tm, tm ∈ Core.timers s → Core.t_call tm ≠ call.











(** What goes on around a call of [waitFor]: events are published, by
    whoever, and time passes. *)
Inductive Action : Type :=
  | Emit (fuel : nat) (ev : string) (payload : EventBus.EventPayload)
  | Tick (time : Z).

Definition perform (a : Action) (s : Core.t) : option Core.t :=
  match a with
  | Emit fuel ev payload => Core.emit fuel ev payload s
  | Tick time => Some (Core.advanceTo time s)
  end.

Fixpoint performAll (acts : list Action) (s : Core.t) : option Core.t :=
  match acts with
  | [] => Some s
  | a :: acts => perform a s ≫= performAll acts
  end.

(** The message of the error with which [waitFor] rejects. *)
Definition timeoutMessage (ev : string) : string :=
  "Timeout waiting for event: " +:+ ev.

(** The listeners are those of the two [setupEventListeners] and the
    definition named "default" is the built-in one. *)
Definition wired (s : Core.t) : Prop :=
  EventBus.listeners (Core.bus s) = Core.coreListeners
  ∧ AutoFlow.workflows (Core.flow s) !! "default"
    = Some AutoFlow.defaultWorkflow.

(** *** The engine among the other listeners

    The listeners of the engine, and the functions from outside the
    core. *)
Definition is_phase (h : EventBus.Handler) : bool :=
  match h with
  | EventBus.PhaseComplete _ => true
  | _ => false
  end.

Definition is_foreign (h : EventBus.Handler) : bool :=
  match h with
  | EventBus.Foreign _ => true
  | _ => false
  end.

(** The entries of the bus that hold a listener of the engine, in the
    order of the bus. *)
Definition engineListeners (b : EventBus.t) : list EventBus.Listener :=
  filter (fun l => is_phase (EventBus.fn l) = true) (EventBus.listeners b).

(** No function from outside the core listens to [ev]. *)
Definition core_only (ev : string) (b : EventBus.t) : Prop :=
  ∀ l, l ∈ EventBus.listeners b → EventBus.event l = ev →
       is_foreign (EventBus.fn l) = false.

(** From [s] to [s'] nothing that the engine reads has changed: the
    time, the store, its own fields, the history and its own listeners are
    the same, and no listener was added.  The other listeners, the timers,
    the promises and the registry may differ. *)
Definition undisturbed (s s' : Core.t) : Prop :=
  Core.now s' = Core.now s
  ∧ Core.store s' = Core.store s
  ∧ Core.flow s' = Core.flow s
  ∧ EventBus.eventHistory (Core.bus s') = EventBus.eventHistory (Core.bus s)
  ∧ EventBus.maxHistorySize (Core.bus s')
    = EventBus.maxHistorySize (Core.bus s)
  ∧ engineListeners (Core.bus s') = engineListeners (Core.bus s)
  ∧ ∀ l, l ∈ EventBus.listeners (Core.bus s') →
         l ∈ EventBus.listeners (Core.bus s).

(** The channels of the built-in phases. *)
Definition phaseChannels : list string :=
  (AutoFlow.startEvent <$> AutoFlow.defaultWorkflow)
  ++ (AutoFlow.completeEvent <$> AutoFlow.defaultWorkflow).

(** The engine is attached to the bus as it is when the program is
    loaded: its listeners are the six of [setupEventListeners], the
    definition named "default" is the built-in one, and no function from
    outside the core listens on a channel of the built-in phases.  Handlers of
    [waitFor] and the listeners of the registry may be subscribed anywhere,
    functions from outside the core on the other channels. *)
Definition attached (s : Core.t) : Prop :=
  engineListeners (Core.bus s) = AutoFlow.phaseListeners
  ∧ AutoFlow.workflows (Core.flow s) !! "default"
    = Some AutoFlow.defaultWorkflow
  ∧ ∀ ev, ev ∈ phaseChannels → core_only ev (Core.bus s).







(** The status of the current project. *)
Definition projectStatus (s : Core.t) : option MemoryStore.ProjectStatus :=
  MemoryStore.ProjectContext.status
    <$> MemoryStore.getCurrentProject (Core.store s).

(** The record of a phase in the current project. *)
Definition phaseRecord (phaseName : string) (s : Core.t)
  : option MemoryStore.PhaseData.t :=
  MemoryStore.getCurrentProject (Core.store s)
    ≫= fun p => MemoryStore.ProjectContext.phases p !! phaseName.

(** The phase records of the current project once the listener of phase
    [c] has marked it completed at time [now0]. *)
Definition completedIn (c : string) (now0 : Z)
  (payload : EventBus.EventPayload)
  (phases : gmap string MemoryStore.PhaseData.t)
  : gmap string MemoryStore.PhaseData.t :=
  <[c := MemoryStore.merge_phase
           (default (MemoryStore.pending_phase c) (phases !! c))
           (AutoFlow.completedRecord c now0 payload)]> phases.

(** ... and once the engine has started phase [n] after that. *)
Definition startedIn (n : string) (now0 : Z)
  (phases : gmap string MemoryStore.PhaseData.t)
  : gmap string MemoryStore.PhaseData.t :=
  <[n := MemoryStore.merge_phase
           (default (MemoryStore.pending_phase n) (phases !! n))
           (AutoFlow.startedRecord n now0)]> phases.

(** The file system carries out writes, the project of id [projectId] is
    in memory, its values are JSON-representable and its durable record is
    the document of what is in memory. *)
Definition written_through (projectId : string) (st : MemoryStore.t) : Prop :=
  MemoryStore.writable st = true
  ∧ ∃ p, MemoryStore.projects st !! projectId = Some p
       ∧ clean_project p
       ∧ MemoryStore.files st !! MemoryStore.fileKey projectId
         = Some (MemoryStore.stringify_project p).

(** The functions that do not emit and whose call the model follows:
    those of the core but the phase listeners of the engine. *)
Definition passive (h : EventBus.Handler) : bool :=
  match h with
  | EventBus.PhaseComplete _ | EventBus.Foreign _ => false
  | _ => true
  end.

(** What the call of such a function does to the state. *)
Definition react (h : EventBus.Handler) (payload : EventBus.EventPayload)
  (s : Core.t) : Core.t :=
  match h with
  | EventBus.ProjectRealign =>
      Core.with_manager (AgentManager.clearAgents (Core.manager s)) s
  | EventBus.WaitFor call timer =>
      Core.settle call (Core.Resolved payload) (Core.clearTimeout timer s)
  | _ => s
  end.

(** Only such functions are subscribed to [ev]: no phase listener of the
    engine and no function from outside the core. *)
Definition passive_on (ev : string) (b : EventBus.t) : Prop :=
  Forall (fun l => EventBus.event l = ev → passive (EventBus.fn l) = true)
         (EventBus.listeners b).

(** *** The states that a session reaches *)





(** *** The store and its directory *)

(** An id such as [uuidv4()] makes them: a [plainName], so that its file
    is a file of the persistence directory itself, which the constructor has
    made, and is the file of no other such id. *)
Definition plain_id (projectId : string) : Prop :=
  plainName projectId = true.

(** The keys under which a mutating call writes into the plain objects of
    a project are ordinary ones. *)
Definition ordinary_mutation (m : MemoryStore.Mutation) : bool :=
  match m with
  | MemoryStore.UpdatePhase _ phaseName _ => ordinaryKey phaseName
  | MemoryStore.StoreArtifact _ artifactKey _ => ordinaryKey artifactKey
  | MemoryStore.UpdateMetadata _ key _ => ordinaryKey key
  | _ => true
  end.

(** A mutating call whose effect the durable record can carry: its values
    are JSON-representable, the keys are ordinary ones and the id that it
    names is a plain one. *)
Definition durable (m : MemoryStore.Mutation) : Prop :=
  MemoryStore.clean_mutation m = true
  ∧ ordinary_mutation m = true
  ∧ plain_id (MemoryStore.target m).

(** Every project in memory is held under a plain id and has no value
    that [JSON.stringify] refuses; a project is in memory exactly when it has
    a file, and the file is the document of what is in memory. *)
Definition in_sync (st : MemoryStore.t) : Prop :=
  (∀ projectId p, MemoryStore.projects st !! projectId = Some p →
                  plain_id projectId
                  ∧ MemoryStore.project_throws p = false)
  ∧ ∀ key,
      MemoryStore.files st !! key
      = MemoryStore.stringify_project <$> MemoryStore.projects st !! key.

(** The file system carries out the writes of a run of calls: it does so
    at the start ([writable]) and no step of the run stops it. *)
Definition keeps_writing (ops : list MemoryStore.Op) : Prop :=
  Forall (fun op => op ≠ MemoryStore.Disk false) ops.

(** The values that a call hands to the store can be written: none holds a
    [BigInt]; the keys are ordinary ones; and the id that it makes, loads or
    deletes is a plain one. *)
Definition storable (op : MemoryStore.Op) : Prop :=
  match op with
  | MemoryStore.CreateProject _ uuid _ _ techStack =>
      plain_id uuid ∧ stringify_throws techStack = false
  | MemoryStore.Mutate _ (MemoryStore.UpdatePhase _ phaseName d) =>
      ordinaryKey phaseName = true
      ∧ from_option stringify_throws false
        (MemoryStore.PartialPhaseData.startedAt d) = false
      ∧ from_option stringify_throws false
          (MemoryStore.PartialPhaseData.completedAt d) = false
      ∧ from_option stringify_throws false
          (MemoryStore.PartialPhaseData.result d) = false
      ∧ from_option stringify_throws false
          (MemoryStore.PartialPhaseData.artifacts d) = false
  | MemoryStore.Mutate _ (MemoryStore.StoreArtifact _ artifactKey v) =>
      ordinaryKey artifactKey = true ∧ stringify_throws v = false
  | MemoryStore.Mutate _ (MemoryStore.AddConversation _ _ _ v) =>
      stringify_throws v = false
  | MemoryStore.Mutate _ (MemoryStore.UpdateMetadata _ key v) =>
      ordinaryKey key = true ∧ stringify_throws v = false
  | MemoryStore.LoadProject projectId => plain_id projectId
  | MemoryStore.DeleteProject projectId => plain_id projectId
  | _ => True
  end.

(** The current-project pointer names a project that is in memory. *)
Definition pointer_tracked (st : MemoryStore.t) : Prop :=
  ∀ projectId, MemoryStore.currentProjectId st = Some projectId →
               is_Some (MemoryStore.projects st !! projectId).

(** The fields of a project that say what it is. *)
Definition identity (p : MemoryStore.ProjectContext.t)
  : string * string * string * JsVal * Z :=
  (MemoryStore.ProjectContext.id p, MemoryStore.ProjectContext.purposeId p,
   MemoryStore.ProjectContext.purposeName p,
   MemoryStore.ProjectContext.techStack p,
   MemoryStore.ProjectContext.createdAt p).

(** The conversation entries that a run of mutating calls adds to a
    project, in the order of the calls. *)
Definition spoken (projectId : string)
  (ms : list (Z * MemoryStore.Mutation))
  : list MemoryStore.ConversationEntry.t :=
  omap (fun tm =>
          match tm.2 with
          | MemoryStore.AddConversation pid role message metadata =>
              if decide (pid = projectId)
              then Some (MemoryStore.ConversationEntry.mk tm.1 role message
                           metadata)
              else None
          | _ => None
          end) ms.

(** The project that a mutating call leaves, from the project that it
    found. *)
Definition mutated (now : Z) (m : MemoryStore.Mutation)
  (p : MemoryStore.ProjectContext.t) : MemoryStore.ProjectContext.t :=
  MemoryStore.ProjectContext.with_updatedAt now
    match m with
    | MemoryStore.UpdateProjectStatus _ status =>
        MemoryStore.ProjectContext.with_status status p
    | MemoryStore.UpdatePhase _ phaseName phaseData =>
        MemoryStore.ProjectContext.with_phases
          (<[phaseName :=
               MemoryStore.merge_phase
                 (default (MemoryStore.pending_phase phaseName)
                    (MemoryStore.ProjectContext.phases p !! phaseName))
                 phaseData]> (MemoryStore.ProjectContext.phases p)) p
    | MemoryStore.StoreArtifact _ artifactKey artifactData =>
        MemoryStore.ProjectContext.with_artifacts
          (<[artifactKey := artifactData]>
             (MemoryStore.ProjectContext.artifacts p)) p
    | MemoryStore.AddConversation _ role message metadata =>
        MemoryStore.ProjectContext.with_conversationHistory
          (MemoryStore.ProjectContext.conversationHistory p
           ++ [MemoryStore.ConversationEntry.mk now role message metadata]) p
    | MemoryStore.UpdateMetadata _ key value =>
        MemoryStore.ProjectContext.with_metadata
          (<[key := value]> (MemoryStore.ProjectContext.metadata p)) p
    end.

(** The directory listing shows the files of the store: its names that
    end in ".json" are the file names of the durable records. *)
Definition lists_files (listing : list string) (st : MemoryStore.t) : Prop :=
  ∀ file, (file ∈ listing ∧ endsWith ".json" file = true)
          ↔ ∃ projectId, is_Some (MemoryStore.files st !! projectId)
                         ∧ file = MemoryStore.fileName projectId.

(** The id of a project is read back from the name of its file, and the
    file is one of the directory itself. *)
Definition id_from_file (projectId : string) : Prop :=
  removeFirstOccurrence ".json" (MemoryStore.fileName projectId) = projectId
  ∧ MemoryStore.fileKey projectId = projectId.

(** *** The registry and its role index *)

(** The role index lists, for each role and without repetition, the ids
    of the tracked instances of that role, and every instance is tracked
    under its own id. *)
Definition indexed (m : AgentManager.t) : Prop :=
  (∀ i inst, AgentManager.agents m !! i = Some inst →
             AgentManager.id inst = i)
  ∧ ∀ r, NoDup (default [] (AgentManager.agentsByRole m !! r))
         ∧ ∀ i, i ∈ default [] (AgentManager.agentsByRole m !! r)
                ↔ ∃ inst, AgentManager.agents m !! i = Some inst
                          ∧ AgentManager.role inst = r.

(** Every [createAgent] of the run gets an id that is not tracked when
    it is made, as [uuidv4()] gives. *)
Fixpoint fresh_calls (cs : list AgentManager.Call) (m : AgentManager.t)
  : Prop :=
  match cs with
  | [] => True
  | c :: cs' =>
      match c with
      | AgentManager.CreateAgent _ uuid _ _ _ =>
          AgentManager.agents m !! uuid = None
      | _ => True
      end
      ∧ fresh_calls cs' (AgentManager.step c m)
  end.


(** *** A whole run of the default workflow *)

(** The complete-events of the phases of the built-in definition, in its
    order, each published at its own time with its own payload. *)
Definition completionsInOrder (ps : list (Z * EventBus.EventPayload))
  : list EventBus.Publish :=
  zip_with
    (fun ph tp => EventBus.mkPublish tp.1 (AutoFlow.completeEvent ph) tp.2)
    AutoFlow.defaultWorkflow ps.

(** The record of phase [k] is in progress since [t0]. *)
Definition startedAt_in (k : string) (t0 : Z)
  (phases : gmap string MemoryStore.PhaseData.t) : Prop :=
  ∃ d, phases !! k = Some d
       ∧ MemoryStore.PhaseData.status d = MemoryStore.in_progress
       ∧ MemoryStore.PhaseData.startedAt d = VNum t0.

(** The record of phase [k] is completed: started at [t0], completed at
    [t1] with the result [r]. *)
Definition completedAt_in (k : string) (t0 t1 : Z) (r : JsVal)
  (phases : gmap string MemoryStore.PhaseData.t) : Prop :=
  ∃ d, phases !! k = Some d
       ∧ MemoryStore.PhaseData.status d = MemoryStore.completed
       ∧ MemoryStore.PhaseData.startedAt d = VNum t0
       ∧ MemoryStore.PhaseData.completedAt d = VNum t1
       ∧ MemoryStore.PhaseData.result d = r.

(** *** Waits without a timer *)




(** A publish that has stack left to run in. *)
Definition has_stack (a : Action) : Prop :=
  match a with
  | Emit 0 _ _ => False
  | _ => True
  end.

End Spec.

(** ** Concrete states for the examples *)

Module Samples.
Import JS.

Definition sampleStore : MemoryStore.t :=
  (MemoryStore.createProject 1 "p-1" "web-app" "Web Application" (VObj [])
     MemoryStore.new).2.

(** The mutations of the round trip: a status, a phase, an artifact and a
    conversation entry. *)
Definition sampleMutations : list (Z * MemoryStore.Mutation) :=
  [ (2%Z, MemoryStore.UpdateProjectStatus "p-1" MemoryStore.REQUIREMENTS);
    (3%Z, MemoryStore.UpdatePhase "p-1" "requirements"
            (AutoFlow.startedRecord "requirements" 3));
    (4%Z, MemoryStore.StoreArtifact "p-1" "requirements"
            (VObj [("features", VArr [VStr "login"; VStr "search"]);
                   ("count", VNum 2)]));
    (5%Z, MemoryStore.AddConversation "p-1" MemoryStore.user
            "build me a web app" VUndefined) ].

(** The same project after an artifact that is not a finite number. *)
Definition scoredStore : MemoryStore.t :=
  MemoryStore.storeArtifact 2 "p-1" "score" VNonFinite sampleStore.

(** Five events on three channels. *)
Definition at_ (time : Z) : EventBus.EventPayload :=
  EventBus.mkPayload (Some time) None VUndefined None VUndefined VUndefined
                     None None VUndefined.

Definition fiveEvents : list EventBus.Publish :=
  [ EventBus.mkPublish 1 EventBus.USER_MESSAGE EventBus.emptyPayload;
    EventBus.mkPublish 2 EventBus.SYSTEM_INIT EventBus.emptyPayload;
    EventBus.mkPublish 3 EventBus.USER_MESSAGE EventBus.emptyPayload;
    EventBus.mkPublish 4 EventBus.PURPOSE_SELECTED (at_ 4);
    EventBus.mkPublish 5 EventBus.SYSTEM_INIT EventBus.emptyPayload ].

(** Calls on the bus before them: a listener comes and goes, an event is
    stored and the history is cleared. *)
Definition busCalls : list EventBus.Call :=
  [ EventBus.Subscribe EventBus.USER_MESSAGE (EventBus.Foreign 0) false;
    EventBus.Store
      (EventBus.mkPublish 0 EventBus.SYSTEM_INIT EventBus.emptyPayload);
    EventBus.Unsubscribe EventBus.USER_MESSAGE (EventBus.Foreign 0);
    EventBus.ClearHistory ].

(** The program as it is loaded, with a new project and a caller that
    waits for the architecture phase to start. *)
Definition ready : Core.t :=
  (Core.waitFor EventBus.PHASE_ARCHITECTURE_START None
     (Core.createProject "p-1" "web-app" "Web Application" (VObj [])
        (Core.loaded 1)).2).2.


(** A workflow of one phase, which is not the requirements phase. *)
Definition qaWorkflow : list AutoFlow.WorkflowPhase :=
  [ AutoFlow.mkPhase "testing" [AgentManager.TESTER]
      EventBus.PHASE_TESTING_START EventBus.PHASE_TESTING_COMPLETE
      None None ].

(** The state that an outcome carries, if it is a return. *)
Definition returned (o : Core.Outcome) : option Core.t :=
  match o with
  | Core.Returned s => Some s
  | _ => None
  end.

(** The project that [ready] holds. *)
Definition readyProject : MemoryStore.ProjectContext.t :=
  (Core.createProject "p-1" "web-app" "Web Application" (VObj [])
     (Core.loaded 1)).1.


(** The status of the record of a phase in the current project. *)
Definition phaseStatusOf (phaseName : string) (s : Core.t)
  : option MemoryStore.PhaseStatus :=
  MemoryStore.PhaseData.status <$> Spec.phaseRecord phaseName s.

(** [startWorkflow(name)], then the events of [ps]. *)
Definition startThenPublish (workflowName : string)
  (ps : list EventBus.Publish) (s : Core.t) : option Core.t :=
  returned (Core.startWorkflow 2 workflowName s) ≫= Core.publishAll 2 ps.


(** The times and the payloads of [fullRun]. *)
Definition sixReports : list (Z * EventBus.EventPayload) :=
  (fun t => (t, EventBus.emptyPayload)) <$> [2; 3; 4; 5; 6; 7]%Z.









(** [waitFor(USER_MESSAGE)], without a timeout, on the loaded core. *)
Definition waitingUntimed : nat * Core.t :=
  Core.waitFor EventBus.USER_MESSAGE None (Core.init 0).

(** Things that go on around a wait: an hour passes, an agent is
    announced, a phase is reported complete. *)
Definition sampleActions : list Spec.Action :=
  [ Spec.Tick 3600000;
    Spec.Emit 3 EventBus.AGENT_CREATED EventBus.emptyPayload;
    Spec.Emit 3 EventBus.PHASE_TESTING_COMPLETE EventBus.emptyPayload ].

(** The loaded core with a project and two agents. *)
Definition staffed : Core.t :=
  let s1 := (Core.createProject "p-1" "web-app" "Web Application" (VObj [])
               (Core.init 1)).2 in
  let cfg r := AgentManager.mkConfig r [] 1 None in
  let s2 :=
    Core.with_manager
      (AgentManager.createAgent 2 "a-1" AgentManager.BACKEND
         (cfg AgentManager.BACKEND) 0 (Core.manager s1)).2 s1 in
  Core.with_manager
    (AgentManager.createAgent 3 "a-2" AgentManager.TESTER
       (cfg AgentManager.TESTER) 1 (Core.manager s2)).2 s2.

(** A session with the store: two projects are made, the first is worked
    on and selected again, the second is deleted, the first is read back from
    its file. *)
Definition sampleOps : list MemoryStore.Op :=
  [ MemoryStore.CreateProject 1 "p-1" "web-app" "Web Application" (VObj []);
    MemoryStore.Mutate 2
      (MemoryStore.StoreArtifact "p-1" "score" VNonFinite);
    MemoryStore.CreateProject 3 "p-2" "cli-tool" "CLI Tool" VUndefined;
    MemoryStore.Mutate 4
      (MemoryStore.AddConversation "p-1" MemoryStore.user "hello" VUndefined);
    MemoryStore.SetCurrentProject "p-1";
    MemoryStore.DeleteProject "p-2";
    MemoryStore.LoadProject "p-1" ].


(** Calls on the registry: three agents, of which one is run to its end,
    one is started and one is removed. *)
Definition sampleCalls : list AgentManager.Call :=
  [ AgentManager.CreateAgent 1 "a-1" AgentManager.BACKEND
      (AgentManager.mkConfig AgentManager.BACKEND [] 1 None) 0;
    AgentManager.CreateAgent 2 "a-2" AgentManager.BACKEND
      (AgentManager.mkConfig AgentManager.BACKEND [] 1 None) 1;
    AgentManager.CreateAgent 3 "a-3" AgentManager.TESTER
      (AgentManager.mkConfig AgentManager.TESTER [] 1 None) 2;
    AgentManager.ExecuteStart "a-1";
    AgentManager.ExecuteSettle "a-1" true;
    AgentManager.ExecuteStart "a-2";
    AgentManager.RemoveAgent "a-3" ].

(** What the directory of [sampleStore] lists, were a file of notes put
    beside the document. *)
Definition sampleListing : list string := ["notes.txt"; "p-1.json"].

End Samples.

(** * Properties *)

(** ** The project store *)

Module MemoryStoreFacts.
Import JS MemoryStore Spec Samples.

Lemma persist_missing (projectId : string) (st : MemoryStore.t) :
  projects st !! projectId = None → persist projectId st = st.
Proof. intros H. unfold persist. by rewrite H. Qed.

(** The guard [if (project)] of the five mutating methods. *)
Lemma apply_missing (now : Z) (m : Mutation) (st : MemoryStore.t) :
  projects st !! target m = None → apply now m st = st.
Proof.
  intros H. destruct m; simpl in *;
    [ unfold updateProjectStatus | unfold updatePhase | unfold storeArtifact
    | unfold addConversation | unfold updateMetadata ];
    by rewrite H.
Qed.

(** C10.  A mutating call on a project id that the in-memory map does not
    have returns the store as it was: the map, the current-project pointer
    and the durable records are all unchanged, and nothing is raised. *)
Theorem mutation_of_unknown_project_is_noop
  (now : Z) (m : Mutation) (st : MemoryStore.t) :
  projects st !! target m = None →
  apply now m st = st
  ∧ projects (apply now m st) = projects st
  ∧ files (apply now m st) = files st.
Proof. intros H. by rewrite (apply_missing now m st H). Qed.

Lemma mutation_of_unknown_project_is_noop_witness :
  projects sampleStore !! "p-2" = None
  ∧ apply 2 (UpdateProjectStatus "p-2" COMPLETED) sampleStore = sampleStore
  ∧ apply 2 (UpdatePhase "p-2" "testing"
               (AutoFlow.startedRecord "testing" 2)) sampleStore = sampleStore
  ∧ apply 2 (StoreArtifact "p-2" "k" VNull) sampleStore = sampleStore
  ∧ apply 2 (AddConversation "p-2" user "hello" VUndefined) sampleStore
    = sampleStore
  ∧ apply 2 (UpdateMetadata "p-2" "k" VNull) sampleStore = sampleStore.
Proof.
  assert (H : projects sampleStore !! "p-2" = None) by (vm_compute; reflexivity).
  refine (conj H (conj _ (conj _ (conj _ (conj _ _)))));
    apply mutation_of_unknown_project_is_noop; exact H.
Defined.

(** *** The durable record and the way back *)

Section JsVal_induction.
Variable P : JsVal → Prop.
Hypothesis Hundefined : P VUndefined.
Hypothesis Hnull : P VNull.
Hypothesis Hbool : ∀ b, P (VBool b).
Hypothesis Hnum : ∀ n, P (VNum n).
Hypothesis Hnonfinite : P VNonFinite.
Hypothesis Hbigint : ∀ n, P (VBigInt n).
Hypothesis Hstr : ∀ s, P (VStr s).
Hypothesis Harr : ∀ items, Forall P items → P (VArr items).
Hypothesis Hobj : ∀ props, Forall (fun kv => P kv.2) props → P (VObj props).

Lemma JsVal_nested_ind : ∀ v, P v.
Proof using All.
  fix IH 1.
  intros [ | |b|n| |n|s|items|props];
    [ exact Hundefined | exact Hnull | exact (Hbool b) | exact (Hnum n)
    | exact Hnonfinite | exact (Hbigint n) | exact (Hstr s) | apply Harr
    | apply Hobj ].
  - induction items as [|x items IHitems]; constructor;
      [exact (IH x) | exact IHitems].
  - induction props as [|[k x] props IHprops]; constructor;
      [exact (IH x) | exact IHprops].
Qed.
End JsVal_induction.

(** On a JSON-representable value [JSON.stringify] answers with a document
    that [JSON.parse] reads back as the same value. *)
Lemma stringify_then_parse (v : JsVal) :
  json_clean v = true →
  ∃ j, JSON_stringify v = Some j ∧ JSON_parse j = v.
Proof.
  induction v as [ | |b|n| |n|s|items IH|props IH] using JsVal_nested_ind;
    simpl; intros Hclean; try discriminate; try (eexists; split; reflexivity).
  - eexists. split; [reflexivity|]. simpl. f_equal.
    induction IH as [|x items Hx _ IHitems]; [done|].
    simpl in Hclean. apply andb_prop in Hclean as [Hc1 Hc2].
    destruct (Hx Hc1) as (j & Hs & Hj).
    simpl. rewrite Hs. simpl. by rewrite Hj, IHitems.
  - eexists. split; [reflexivity|]. simpl. f_equal.
    induction IH as [|[k x] props Hx _ IHprops]; [done|].
    simpl in Hclean. apply andb_prop in Hclean as [Hc1 Hc2].
    simpl in Hx. destruct (Hx Hc1) as (j & Hs & Hj).
    cbn. rewrite Hs. cbn. by rewrite Hj, IHprops.
Qed.

Lemma parse_member_stringify (v : JsVal) :
  json_clean_opt v = true → parse_member (JSON_stringify v) = v.
Proof.
  intros Hclean. destruct v as [ | |b|n| |n|s|items|props] eqn:Hv; [done|..];
    rewrite <- Hv in *;
    (assert (Hc : json_clean v = true) by (by rewrite Hv in * ));
    by destruct (stringify_then_parse v Hc) as (j & -> & Hj).
Qed.

Lemma parse_stringify_record (m : gmap string JsVal) :
  map_Forall (fun _ v => json_clean v = true) m →
  JSON_parse <$> omap JSON_stringify m = m.
Proof.
  intros Hm. apply map_eq. intros k.
  rewrite lookup_fmap, lookup_omap.
  destruct (m !! k) as [v|] eqn:Hk; [|done]. simpl.
  destruct (stringify_then_parse v (Hm k v Hk)) as (j & Hs & Hj).
  rewrite Hs. simpl. by rewrite Hj.
Qed.

Lemma parse_stringify_phase (d : PhaseData.t) :
  clean_phase d → parse_phase (stringify_phase d) = d.
Proof.
  intros (Hs & Hc & Hr & Ha). destruct d.
  unfold parse_phase, stringify_phase. simpl in *.
  by rewrite !parse_member_stringify.
Qed.

Lemma parse_stringify_entry (e : ConversationEntry.t) :
  clean_entry e → parse_entry (stringify_entry e) = e.
Proof.
  unfold clean_entry. intros Hm. destruct e.
  unfold parse_entry, stringify_entry. simpl in *.
  by rewrite parse_member_stringify.
Qed.

(** Reading back what was written gives the context that was written, as
    long as its opaque values are JSON-representable. *)
Lemma parse_stringify_project (p : ProjectContext.t) :
  clean_project p → parse_project (stringify_project p) = p.
Proof.
  intros (Ht & Hph & Har & Hco & Hme). destruct p.
  unfold parse_project, stringify_project. simpl in *. f_equal.
  - by apply parse_member_stringify.
  - apply map_eq. intros k. rewrite !lookup_fmap.
    destruct (phases !! k) as [d|] eqn:Hk; [|done]. simpl.
    by rewrite (parse_stringify_phase d (Hph k d Hk)).
  - by apply parse_stringify_record.
  - induction Hco as [|e es He _ IH]; [done|]. cbn.
    rewrite (parse_stringify_entry e He). f_equal. exact IH.
  - by apply parse_stringify_record.
Qed.

(** *** What [persist] changes *)

Lemma persist_projects (projectId : string) (st : MemoryStore.t) :
  projects (persist projectId st) = projects st.
Proof.
  unfold persist. destruct (projects st !! projectId); [|done].
  by destruct (writable st && _).
Qed.

Lemma persist_currentProjectId (projectId : string) (st : MemoryStore.t) :
  currentProjectId (persist projectId st) = currentProjectId st.
Proof.
  unfold persist. destruct (projects st !! projectId); [|done].
  by destruct (writable st && _).
Qed.

Lemma persist_writable (projectId : string) (st : MemoryStore.t) :
  writable (persist projectId st) = writable st.
Proof.
  unfold persist. destruct (projects st !! projectId); [|done].
  by destruct (writable st && _).
Qed.

(** [persist] writes no file but that of the id. *)
Lemma persist_files_other (projectId key : string) (st : MemoryStore.t) :
  key ≠ fileKey projectId →
  files (persist projectId st) !! key = files st !! key.
Proof.
  intros Hne. unfold persist. destruct (projects st !! projectId); [|done].
  destruct (writable st && _); [|done]. simpl. by rewrite lookup_insert_ne.
Qed.

(** ... and that one it writes when nothing throws. *)
Lemma persist_files_written (projectId : string) (p : ProjectContext.t)
  (st : MemoryStore.t) :
  projects st !! projectId = Some p → writable st = true →
  project_throws p = false →
  files (persist projectId st)
  = <[fileKey projectId := stringify_project p]> (files st).
Proof.
  intros Hp Hw Ht. unfold persist. by rewrite Hp, Hw, Ht.
Qed.

(** The file of a plain id is named by the id. *)
Lemma slashFree_segments (s : string) :
  slashFree s = true → segments s = [s].
Proof.
  induction s as [|c s IH]; [done|]. cbn [slashFree segments].
  destruct (Ascii.eqb c _); [done|]. simpl. intros Hs. by rewrite IH.
Qed.

Lemma plain_fileKey (projectId : string) :
  plain_id projectId → fileKey projectId = projectId.
Proof.
  unfold plain_id, plainName. intros Hs.
  apply andb_prop in Hs as [Hs _]. apply andb_prop in Hs as [Hs _].
  unfold fileKey. by rewrite (slashFree_segments _ Hs).
Qed.

(** *** Values that [JSON.stringify] refuses *)

Lemma existsb_false {A : Type} (f : A → bool) (l : list A) :
  existsb f l = false ↔ Forall (fun x => f x = false) l.
Proof.
  induction l as [|x l IH]; simpl.
  - split; [constructor | done].
  - rewrite orb_false_iff, IH. split.
    + intros [? ?]. by constructor.
    + intros H. by inversion H.
Qed.

Lemma none_throws {A : Type} (f : A → bool) (m : gmap string A) :
  existsb (fun kv => f kv.2) (map_to_list m) = false
  ↔ map_Forall (fun _ v => f v = false) m.
Proof.
  rewrite existsb_false, map_Forall_to_list. apply Forall_iff. by intros [k v].
Qed.

Lemma clean_never_throws (v : JsVal) :
  json_clean v = true → stringify_throws v = false.
Proof.
  induction v as [ | |b|n| |n|s|items IH|props IH] using JsVal_nested_ind;
    simpl; try done; intros Hclean.
  - apply existsb_false.
    induction IH as [|x items Hx _ IHitems]; [constructor|].
    simpl in Hclean. apply andb_prop in Hclean as [Hc1 Hc2].
    constructor; [by apply Hx | by apply IHitems].
  - apply existsb_false.
    induction IH as [|[k x] props Hx _ IHprops]; [constructor|].
    simpl in Hclean. apply andb_prop in Hclean as [Hc1 Hc2].
    constructor; [by apply Hx | by apply IHprops].
Qed.

Lemma clean_opt_never_throws (v : JsVal) :
  json_clean_opt v = true → stringify_throws v = false.
Proof. destruct v; try done; apply clean_never_throws. Qed.

Lemma clean_phase_never_throws (d : PhaseData.t) :
  clean_phase d → phase_throws d = false.
Proof.
  intros (Hs & Hc & Hr & Ha). unfold phase_throws.
  by rewrite !clean_opt_never_throws.
Qed.

Lemma clean_project_never_throws (p : ProjectContext.t) :
  clean_project p → project_throws p = false.
Proof.
  intros (Ht & Hph & Har & Hco & Hme). unfold project_throws.
  rewrite (clean_opt_never_throws _ Ht). simpl.
  rewrite (proj2 (none_throws phase_throws _)); simpl.
  2: { intros k d Hd. apply clean_phase_never_throws. exact (Hph k d Hd). }
  rewrite (proj2 (none_throws stringify_throws _)); simpl.
  2: { intros k v Hv. apply clean_never_throws. exact (Har k v Hv). }
  rewrite (proj2 (existsb_false _ _)); simpl.
  2: { eapply Forall_impl; [exact Hco|]. intros e He.
       by apply clean_opt_never_throws. }
  apply none_throws. intros k v Hv. apply clean_never_throws.
  exact (Hme k v Hv).
Qed.

(** *** Mutating calls on a project in memory *)

(** The guard [if (project)] passed: the project that the call leaves is
    put into the map and persisted. *)
Lemma apply_found (now : Z) (m : Mutation) (p : ProjectContext.t)
  (st : MemoryStore.t) :
  projects st !! target m = Some p →
  apply now m st
  = persist (target m) (set_project (target m) (mutated now m p) st).
Proof.
  intros Hp. destruct m; simpl in *;
    [ unfold updateProjectStatus | unfold updatePhase | unfold storeArtifact
    | unfold addConversation | unfold updateMetadata ];
    by rewrite Hp.
Qed.

Lemma apply_projects (now : Z) (m : Mutation) (p : ProjectContext.t)
  (st : MemoryStore.t) :
  projects st !! target m = Some p →
  projects (apply now m st) = <[target m := mutated now m p]> (projects st).
Proof.
  intros Hp. by rewrite (apply_found now m p st Hp), persist_projects.
Qed.

Lemma apply_currentProjectId (now : Z) (m : Mutation) (st : MemoryStore.t) :
  currentProjectId (apply now m st) = currentProjectId st.
Proof.
  destruct (projects st !! target m) as [p|] eqn:Hp.
  - by rewrite (apply_found now m p st Hp), persist_currentProjectId.
  - by rewrite apply_missing.
Qed.

Lemma apply_writable (now : Z) (m : Mutation) (st : MemoryStore.t) :
  writable (apply now m st) = writable st.
Proof.
  destruct (projects st !! target m) as [p|] eqn:Hp.
  - by rewrite (apply_found now m p st Hp), persist_writable.
  - by rewrite apply_missing.
Qed.

Lemma createProject_written_through (now : Z)
  (uuid purposeId purposeName : string) (techStack : JsVal)
  (st : MemoryStore.t) :
  writable st = true →
  json_clean_opt techStack = true →
  written_through uuid
    (createProject now uuid purposeId purposeName techStack st).2.
Proof.
  intros Hw Ht. unfold createProject. cbn [snd].
  set (p := ProjectContext.mk _ _ _ _ _ _ _ _ _ _ _).
  set (st2 := MemoryStore.mk _ _ _ _).
  assert (Hp : projects st2 !! uuid = Some p) by apply lookup_insert_eq.
  assert (Hc : clean_project p).
  { repeat split; simpl; try done; apply map_Forall_empty. }
  split; [by rewrite persist_writable|].
  exists p. split; [by rewrite persist_projects|]. split; [done|].
  rewrite (persist_files_written uuid p st2 Hp Hw)
    by (by apply clean_project_never_throws).
  apply lookup_insert_eq.
Qed.

Lemma clean_merge_phase (old : PhaseData.t) (upd : PartialPhaseData.t) :
  clean_phase old → clean_partial upd = true →
  clean_phase (merge_phase old upd).
Proof.
  intros (Hs & Hc & Hr & Ha) Hu. unfold clean_partial in Hu.
  apply andb_prop in Hu as [Hu Hua]. apply andb_prop in Hu as [Hu Hur].
  apply andb_prop in Hu as [Hus Huc].
  destruct upd as [? ? [s|] [c|] [r|] [a|] ?];
    refine (conj _ (conj _ (conj _ _))); simpl in *; done.
Qed.

Lemma clean_pending_phase (phaseName : string) :
  clean_phase (pending_phase phaseName).
Proof. by repeat split. Qed.

Lemma clean_mutated (now : Z) (m : Mutation) (p : ProjectContext.t) :
  clean_mutation m = true → clean_project p →
  clean_project (mutated now m p).
Proof.
  intros Hm (Ht & Hph & Har & Hco & Hme).
  destruct m; refine (conj _ (conj _ (conj _ (conj _ _)))); simpl in *;
    try done.
  - apply map_Forall_insert_2; [|done].
    apply clean_merge_phase; [|done].
    destruct (ProjectContext.phases p !! phaseName) as [d|] eqn:Hd; simpl.
    + exact (Hph _ _ Hd).
    + apply clean_pending_phase.
  - by apply map_Forall_insert_2.
  - apply Forall_app. split; [done|]. by constructor.
  - by apply map_Forall_insert_2.
Qed.

(** *** The current project under the calls of the engine *)

Lemma current_getCurrentProject (st : MemoryStore.t) (pid : string)
  (p : ProjectContext.t) :
  current st pid p → getCurrentProject st = Some p.
Proof.
  intros (Hcur & Hne & Hp & _). unfold getCurrentProject.
  rewrite Hcur. by rewrite decide_False.
Qed.

Lemma current_persist_set_project (st : MemoryStore.t) (pid : string)
  (p p' : ProjectContext.t) :
  current st pid p → ProjectContext.id p' = pid →
  current (persist pid (set_project pid p' st)) pid p'.
Proof.
  intros (Hcur & Hne & Hp & Hid) Hid'.
  unfold current. rewrite persist_projects, persist_currentProjectId.
  refine (conj Hcur (conj Hne (conj _ Hid'))). apply lookup_insert_eq.
Qed.

Lemma current_updateProjectStatus (now : Z) (v : ProjectStatus)
  (st : MemoryStore.t) (pid : string) (p : ProjectContext.t) :
  current st pid p →
  current (updateProjectStatus now pid v st) pid
    (ProjectContext.with_updatedAt now (ProjectContext.with_status v p)).
Proof.
  intros Hc. unfold updateProjectStatus.
  destruct Hc as (Hcur & Hne & Hp & Hid) eqn:E. rewrite Hp.
  by apply (current_persist_set_project st pid p).
Qed.

(** The record of [phaseName] after [updatePhase] with [phaseData]. *)
Lemma current_updatePhase (now : Z) (phaseName : string)
  (phaseData : PartialPhaseData.t) (st : MemoryStore.t) (pid : string)
  (p : ProjectContext.t) :
  current st pid p →
  current (updatePhase now pid phaseName phaseData st) pid
    (ProjectContext.with_updatedAt now
       (ProjectContext.with_phases
          (<[phaseName :=
               merge_phase
                 (default (pending_phase phaseName)
                          (ProjectContext.phases p !! phaseName))
                 phaseData]> (ProjectContext.phases p)) p)).
Proof.
  intros Hc. unfold updatePhase.
  destruct Hc as (Hcur & Hne & Hp & Hid) eqn:E. rewrite Hp.
  by apply (current_persist_set_project st pid p).
Qed.

(** Every mutating call writes through. *)
Lemma apply_written_through (now : Z) (m : Mutation) (projectId : string)
  (st : MemoryStore.t) :
  plain_id projectId → durable m →
  written_through projectId st →
  written_through projectId (apply now m st).
Proof.
  intros Hid (Hm & _ & Htarget) (Hw & p & Hp & Hclean & Hfile).
  destruct (projects st !! target m) as [q|] eqn:Hq;
    [|rewrite apply_missing by done; split; [done|by exists p]].
  split; [by rewrite apply_writable|].
  rewrite (apply_found now m q st Hq).
  destruct (decide (target m = projectId)) as [Heq|Hne].
  - assert (q = p) as -> by (rewrite Heq in Hq; congruence).
    rewrite Heq. exists (mutated now m p).
    assert (Hc : clean_project (mutated now m p)) by (by apply clean_mutated).
    split; [rewrite persist_projects; apply lookup_insert_eq|].
    split; [done|].
    rewrite (persist_files_written projectId (mutated now m p));
      [apply lookup_insert_eq | apply lookup_insert_eq | done
      | by apply clean_project_never_throws].
  - exists p.
    split; [rewrite persist_projects; simpl; by rewrite lookup_insert_ne|].
    split; [done|].
    rewrite persist_files_other; [done|].
    rewrite (plain_fileKey _ Hid), (plain_fileKey _ Htarget). congruence.
Qed.

Lemma apply_all_written_through (ms : list (Z * Mutation))
  (projectId : string) (st : MemoryStore.t) :
  plain_id projectId →
  Forall (fun tm => durable tm.2) ms →
  written_through projectId st →
  written_through projectId (apply_all ms st).
Proof.
  intros Hid Hms. revert st.
  induction Hms as [|[now m] ms Hm _ IH]; intros st Hst; [done|].
  simpl. apply IH. by apply apply_written_through.
Qed.

Lemma loadProject_written_through (projectId : string) (st : MemoryStore.t) :
  written_through projectId st →
  ∃ p, getProject projectId st = Some p
       ∧ loadProject projectId st = (Some p, st).
Proof.
  intros (_ & p & Hp & Hclean & Hfile). exists p. split; [done|].
  unfold loadProject. rewrite Hfile.
  rewrite parse_stringify_project by done. f_equal.
  unfold set_project. rewrite insert_id by done. by destruct st.
Qed.

(** C7 (as amended).  A project is created in any store and then mutated
    by any run of status updates, phase updates, artifact stores,
    conversation appends and metadata updates, on it or on other projects,
    each of which persists.  If the file system carries out the writes, the
    ids are plain ones (as [uuidv4()] makes them), the keys of phases,
    artifacts and metadata are ordinary ones (none of the names that an
    object inherits) and the opaque values handed in, the times of phases
    among them, are JSON-representable, then loading the project back from
    its durable record returns a context equal to the one in memory, and
    leaves the store as it was. *)
Theorem reload_equals_memory (now : Z) (uuid purposeId purposeName : string)
  (techStack : JsVal) (ms : list (Z * Mutation)) (st0 : MemoryStore.t) :
  writable st0 = true →
  plain_id uuid →
  json_clean_opt techStack = true →
  Forall (fun tm => durable tm.2) ms →
  let st :=
    apply_all ms
      (createProject now uuid purposeId purposeName techStack st0).2 in
  ∃ p, getProject uuid st = Some p ∧ loadProject uuid st = (Some p, st).
Proof.
  intros Hw Hid Ht Hms st. apply loadProject_written_through.
  apply apply_all_written_through; [done|done|].
  by apply createProject_written_through.
Qed.

Lemma reload_equals_memory_witness :
  writable MemoryStore.new = true
  ∧ plain_id "p-1"
  ∧ json_clean_opt (VObj []) = true
  ∧ Forall (fun tm => durable tm.2) sampleMutations
  ∧ ∃ p, getProject "p-1" (apply_all sampleMutations sampleStore) = Some p
         ∧ loadProject "p-1" (apply_all sampleMutations sampleStore)
           = (Some p, apply_all sampleMutations sampleStore).
Proof.
  assert (H0 : writable MemoryStore.new = true) by reflexivity.
  assert (Hid : plain_id "p-1") by reflexivity.
  assert (H1 : json_clean_opt (VObj []) = true) by reflexivity.
  assert (H2 : Forall (fun tm => durable tm.2) sampleMutations)
    by (repeat constructor).
  refine (conj H0 (conj Hid (conj H1 (conj H2 _)))).
  exact (reload_equals_memory 1 "p-1" "web-app" "Web Application" (VObj [])
           sampleMutations MemoryStore.new H0 Hid H1 H2).
Defined.

(** C7 as stated fails: an artifact that is [NaN] is written as [null], so
    the context that comes back differs from the one in memory. *)
Lemma reload_differs_on_non_finite_artifact :
  getArtifact "p-1" "score" scoredStore = VNonFinite
  ∧ getArtifact "p-1" "score" (loadProject "p-1" scoredStore).2 = VNull
  ∧ (loadProject "p-1" scoredStore).1 ≠ getProject "p-1" scoredStore.
Proof.
  split; [by vm_compute|]. split; [by vm_compute|].
  intros Heq.
  apply (f_equal (fun o => (fun p => ProjectContext.artifacts p !! "score")
                             <$> o)) in Heq.
  vm_compute in Heq. discriminate Heq.
Qed.

End MemoryStoreFacts.

(** ** The event bus: its history *)

Module EventBusFacts.
Import JS EventBus Spec Samples.

Lemma lastn_all {A : Type} (n : nat) (l : list A) :
  length l ≤ n → lastn n l = l.
Proof.
  intros H. unfold lastn. by replace (length l - n) with 0 by lia.
Qed.

Lemma lastn_length {A : Type} (n : nat) (l : list A) :
  length (lastn n l) = n `min` length l.
Proof. unfold lastn. rewrite length_drop. lia. Qed.

Lemma lastn_app_lastn {A : Type} (n : nat) (l r : list A) :
  lastn n (lastn n l ++ r) = lastn n (l ++ r).
Proof.
  destruct (decide (length l ≤ n)) as [Hle|Hgt].
  - by rewrite (lastn_all n l Hle).
  - unfold lastn at 1 3. rewrite !length_app, lastn_length.
    replace (n `min` length l + length r - n) with (length r) by lia.
    replace (length l + length r - n)
      with ((length l - n) + length r) by lia.
    unfold lastn. rewrite <- drop_drop.
    rewrite (drop_app_le l r (length l - n)) by lia.
    reflexivity.
Qed.

Lemma addToHistory_capacity (ev : string) (payload : EventPayload) (b : t) :
  maxHistorySize (addToHistory ev payload b) = maxHistorySize b.
Proof. unfold addToHistory. by case_decide. Qed.

Lemma addToHistory_listeners (ev : string) (payload : EventPayload) (b : t) :
  listeners (addToHistory ev payload b) = listeners b.
Proof. unfold addToHistory. by case_decide. Qed.

(** One push: when the buffer is full its first entry leaves. *)
Lemma addToHistory_lastn (ev : string) (payload : EventPayload) (b : t) :
  length (eventHistory b) ≤ maxHistorySize b →
  eventHistory (addToHistory ev payload b)
  = lastn (maxHistorySize b) (eventHistory b ++ [(ev, payload)]).
Proof.
  intros Hle. unfold addToHistory. case_decide as Hfull; simpl.
  - rewrite length_app in Hfull. simpl in Hfull.
    unfold lastn. rewrite length_app. simpl.
    replace (length (eventHistory b) + 1 - maxHistorySize b) with 1 by lia.
    by destruct (eventHistory b ++ [(ev, payload)]).
  - symmetry. apply lastn_all. lia.
Qed.

Lemma record_all_snoc (ps : list Publish) (p : Publish) (b : t) :
  record_all (ps ++ [p]) b
  = record (p_time p) (p_event p) (p_payload p) (record_all ps b).
Proof. unfold record_all. by rewrite foldl_app. Qed.

Lemma record_all_capacity (ps : list Publish) (b : t) :
  maxHistorySize (record_all ps b) = maxHistorySize b.
Proof.
  induction ps as [|p ps IH] using rev_ind; [done|].
  rewrite record_all_snoc. unfold record.
  by rewrite addToHistory_capacity.
Qed.

(** The history over the capacity that the bus holds in
    [maxHistorySize]: after any run of published events it keeps exactly the
    most recent entries, as many as the capacity allows, in the order of
    emission. *)
Lemma record_all_lastn (ps : list Publish) (b : t) :
  length (eventHistory b) ≤ maxHistorySize b →
  eventHistory (record_all ps b)
  = lastn (maxHistorySize b) (eventHistory b ++ stamped ps)
  ∧ length (eventHistory (record_all ps b)) ≤ maxHistorySize b.
Proof.
  intros Hle.
  induction ps as [|p ps [IH IHlen]] using rev_ind.
  - simpl. unfold stamped. simpl. rewrite app_nil_r.
    by rewrite lastn_all.
  - rewrite record_all_snoc. unfold record.
    rewrite addToHistory_lastn by (by rewrite record_all_capacity).
    rewrite record_all_capacity, IH.
    unfold stamped. rewrite fmap_app. simpl.
    rewrite lastn_app_lastn, <- app_assoc.
    split; [done|]. rewrite lastn_length. lia.
Qed.

(** No call changes the capacity, and the history stays within it. *)
Lemma step_capacity (c : Call) (b : t) :
  maxHistorySize (step c b) = maxHistorySize b.
Proof.
  destruct c as [ev h [|]|ev h|p| |]; simpl; try done.
  unfold record. apply addToHistory_capacity.
Qed.

Lemma step_bounded (c : Call) (b : t) :
  length (eventHistory b) ≤ maxHistorySize b →
  length (eventHistory (step c b)) ≤ maxHistorySize (step c b).
Proof.
  intros Hle. rewrite step_capacity.
  destruct c as [ev h [|]|ev h|p| |]; simpl; try done; [|lia].
  unfold record. rewrite addToHistory_lastn by done.
  rewrite lastn_length. lia.
Qed.

Lemma run_capacity (cs : list Call) (b : t) :
  maxHistorySize (run cs b) = maxHistorySize b.
Proof.
  revert b. induction cs as [|c cs IH]; intros b; [done|].
  change (run (c :: cs) b) with (run cs (step c b)).
  by rewrite IH, step_capacity.
Qed.

Lemma run_bounded (cs : list Call) (b : t) :
  length (eventHistory b) ≤ maxHistorySize b →
  length (eventHistory (run cs b)) ≤ maxHistorySize (run cs b).
Proof.
  revert b. induction cs as [|c cs IH]; intros b Hle; [done|].
  change (run (c :: cs) b) with (run cs (step c b)).
  apply IH. by apply step_bounded.
Qed.

(** C4 (as amended).  The history is a ring buffer whose capacity is the
    1000 of the field initializer: on the bus as the constructor builds it,
    and after any calls on it, the capacity is 1000, and after any further
    run of published events the history keeps exactly the most recent
    entries, at most 1000 of them, in the order of emission; so what is
    evicted is always the oldest entry. *)
Theorem history_keeps_last_thousand (cs : list Call) (ps : list Publish) :
  maxHistorySize (record_all ps (run cs EventBus.new)) = 1000
  ∧ eventHistory (record_all ps (run cs EventBus.new))
    = lastn 1000 (eventHistory (run cs EventBus.new) ++ stamped ps)
  ∧ length (eventHistory (record_all ps (run cs EventBus.new))) ≤ 1000.
Proof.
  assert (Hcap : maxHistorySize (run cs EventBus.new) = 1000)
    by (by rewrite run_capacity).
  assert (Hle : length (eventHistory (run cs EventBus.new))
                ≤ maxHistorySize (run cs EventBus.new)).
  { apply run_bounded. simpl. lia. }
  destruct (record_all_lastn ps _ Hle) as [Hh Hl].
  rewrite Hcap in Hh, Hl. rewrite record_all_capacity.
  by refine (conj Hcap (conj Hh Hl)).
Qed.

(** C4 as stated fails: no caller can set the capacity to 3, and with the
    capacity that the bus has, five events leave all five. *)
Lemma five_events_all_retained :
  maxHistorySize (run busCalls EventBus.new) = 1000
  ∧ eventHistory (run busCalls EventBus.new) = []
  ∧ eventHistory (record_all fiveEvents (run busCalls EventBus.new))
    = [ (USER_MESSAGE, at_ 1); (SYSTEM_INIT, at_ 2); (USER_MESSAGE, at_ 3);
        (PURPOSE_SELECTED, at_ 4); (SYSTEM_INIT, at_ 5) ]
  ∧ ∀ cs, maxHistorySize (run cs EventBus.new) ≠ 3.
Proof.
  refine (conj _ (conj _ (conj _ _))); try reflexivity.
  intros cs. by rewrite run_capacity.
Qed.

End EventBusFacts.

(** ** The agent registry *)

Module AgentManagerFacts.
Import AgentManager.

Lemma sum_counts_empty {K : Type} `{Countable K} :
  sum_counts (∅ : gmap K nat) = 0.
Proof. unfold sum_counts. by rewrite map_fold_empty. Qed.

Lemma sum_counts_insert {K : Type} `{Countable K} (k : K) (n : nat)
  (counts : gmap K nat) :
  counts !! k = None →
  sum_counts (<[k := n]> counts) = n + sum_counts counts.
Proof.
  intros Hk. unfold sum_counts.
  rewrite map_fold_insert_L; [done | intros; lia | done].
Qed.

Lemma sum_counts_delete {K : Type} `{Countable K} (k : K) (n : nat)
  (counts : gmap K nat) :
  counts !! k = Some n →
  sum_counts counts = n + sum_counts (delete k counts).
Proof.
  intros Hk. unfold sum_counts.
  rewrite (map_fold_delete_L _ _ k n); [done | intros; lia | done].
Qed.

(** Counting one more instance under a key adds one to the sum, whether
    the key was there or not. *)
Lemma sum_counts_bump {K : Type} `{Countable K} (k : K)
  (counts : gmap K nat) :
  sum_counts (bump k counts) = S (sum_counts counts).
Proof.
  unfold bump. destruct (counts !! k) as [n|] eqn:Hk; simpl.
  - rewrite (sum_counts_delete k n counts Hk).
    rewrite <- insert_delete_eq.
    rewrite sum_counts_insert by apply lookup_delete_eq. lia.
  - by rewrite sum_counts_insert.
Qed.

Lemma byStatus_sums_to_size (m : AgentManager.t) :
  sum_counts (byStatus (getStatistics m)) = size (agents m).
Proof.
  unfold getStatistics. simpl.
  apply (map_fold_weak_ind
           (fun r (am : gmap string AgentInstance) => sum_counts r = size am)).
  - by rewrite sum_counts_empty, map_size_empty.
  - intros i x am r Hi IH.
    rewrite sum_counts_bump, IH. by rewrite map_size_insert_None.
Qed.

(** C8.  After any sequence of calls on the registry, from any state of
    it, and also between the two halves of an [executeAgent], the counts by
    status that [getStatistics] returns add up to the number of tracked
    instances, the size of the map [agents], which is also what it returns
    as [total]. *)
Theorem statistics_by_status_sum_to_total (cs : list Call)
  (m : AgentManager.t) :
  sum_counts (byStatus (getStatistics (run cs m))) = size (agents (run cs m))
  ∧ total (getStatistics (run cs m)) = size (agents (run cs m)).
Proof. split; [apply byStatus_sums_to_size | reflexivity]. Qed.

Lemma byRole_sums_to_size (m : AgentManager.t) :
  sum_counts (byRole (getStatistics m)) = size (agents m).
Proof.
  unfold getStatistics. simpl.
  apply (map_fold_weak_ind
           (fun r (am : gmap string AgentInstance) => sum_counts r = size am)).
  - by rewrite sum_counts_empty, map_size_empty.
  - intros i x am r Hi IH.
    rewrite sum_counts_bump, IH. by rewrite map_size_insert_None.
Qed.

End AgentManagerFacts.

(** ** The core as a whole: dispatch *)

Module CoreFacts.
Import JS EventBus Core Spec Samples.

Lemma subscribers_addToHistory (ev ev' : string) (payload : EventPayload)
  (b : EventBus.t) :
  subscribers ev (addToHistory ev' payload b) = subscribers ev b.
Proof.
  unfold subscribers. by rewrite EventBusFacts.addToHistory_listeners.
Qed.

(** [emit] with fuel left: the event enters the history, then the entries
    of the event are called. *)
Lemma emit_unfold (fuel : nat) (ev : string) (payload : EventPayload)
  (s : Core.t) :
  emit (S fuel) ev payload s
  = dispatch (invoke (emit fuel)) ev (stamp (now s) payload)
      (subscribers ev (bus s))
      (with_bus (record (now s) ev payload (bus s)) s).
Proof. simpl. by rewrite subscribers_addToHistory. Qed.

(** An event that nobody listens to only enters the history. *)
Lemma emit_unheard (fuel : nat) (ev : string) (payload : EventPayload)
  (s : Core.t) :
  subscribers ev (bus s) = [] →
  emit (S fuel) ev payload s
  = Some (with_bus (record (now s) ev payload (bus s)) s).
Proof. intros H. by rewrite emit_unfold, H. Qed.

Lemma invoke_passive (emit_ : string → EventPayload → Core.t → option Core.t)
  (h : Handler) (payload : EventPayload) (s : Core.t) :
  passive h = true → invoke emit_ h payload s = Some (react h payload s).
Proof. by destruct h. Qed.

(** What the functions that do not emit leave alone. *)
Lemma react_frame (h : Handler) (payload : EventPayload) (s : Core.t) :
  store (react h payload s) = store s
  ∧ flow (react h payload s) = flow s
  ∧ now (react h payload s) = now s
  ∧ bus (react h payload s) = bus s.
Proof.
  destruct h as [phaseName| | |call timer|n]; simpl; try done.
  unfold settle, clearTimeout.
  destruct timer; simpl; by destruct (promises _ !! call).
Qed.

Lemma react_manager (h : Handler) (payload : EventPayload) (s : Core.t) :
  manager (react h payload s)
  = if decide (h = ProjectRealign) then AgentManager.new else manager s.
Proof.
  destruct h as [phaseName| | |call timer|n]; simpl; try done.
  unfold settle, clearTimeout.
  destruct timer; simpl; by destruct (promises _ !! call).
Qed.

(** A dispatch to functions that do not emit finishes whatever the fuel;
    it leaves the store and the engine alone, and the registry too unless
    the realign listener is among them, which empties it. *)
Lemma dispatch_passive
  (emit_ : string → EventPayload → Core.t → option Core.t) (ev : string)
  (payload : EventPayload) (ls : list Listener) (s : Core.t) :
  Forall (fun l => passive (fn l) = true) ls →
  ∃ s', dispatch (invoke emit_) ev payload ls s = Some s'
        ∧ store s' = store s
        ∧ flow s' = flow s
        ∧ eventHistory (bus s') = eventHistory (bus s)
        ∧ manager s'
          = if decide (ProjectRealign ∈ fn <$> ls) then AgentManager.new
            else manager s.
Proof.
  intros Hls. revert s.
  induction Hls as [|l ls Hl _ IH]; intros s.
  - exists s. simpl. by repeat split.
  - simpl. rewrite invoke_passive by done.
    set (s1 := if once l then with_bus (dropOnce ev (fn l) (bus s)) s else s).
    assert (Hs1 : store s1 = store s ∧ flow s1 = flow s
                  ∧ eventHistory (bus s1) = eventHistory (bus s)
                  ∧ manager s1 = manager s)
      by (subst s1; by destruct (once l)).
    destruct Hs1 as (Hst & Hfl & Hhi & Hma).
    destruct (react_frame (fn l) payload s1) as (Rst & Rfl & _ & Rbus).
    destruct (IH (react (fn l) payload s1)) as (s' & -> & Est & Efl & Ehi & Ema).
    exists s'. split; [done|].
    rewrite Est, Efl, Ehi, Ema, Rst, Rfl, Rbus, Hst, Hfl, Hhi.
    repeat split; try done.
    change (list_fmap Listener Handler fn ls) with (fn <$> ls).
    rewrite react_manager, Hma.
    repeat case_decide; try done; exfalso;
      match goal with
      | H : _ ∈ _ :: _ |- _ =>
          apply elem_of_cons in H as [?|?]; [congruence | contradiction]
      | H : ¬ (_ ∈ _ :: _) |- _ =>
          apply H; apply elem_of_cons;
          first [ left; congruence | right; assumption ]
      end.
Qed.

Lemma getActiveAgents_new : AgentManager.getActiveAgents AgentManager.new = [].
Proof.
  unfold AgentManager.getActiveAgents. simpl. by rewrite map_to_list_empty.
Qed.

(** C9.  When the re-align signal is published, the registry's listener
    clears every tracked instance and every role-index entry, so that
    [getActiveAgents()] is empty afterwards, and the project store is left as
    it was: its in-memory records, its current-project pointer and its
    durable records. *)
Theorem realign_clears_agents_keeps_store (fuel : nat)
  (payload : EventPayload) (s : Core.t) :
  fuel ≠ 0 →
  mkListener PROJECT_REALIGN ProjectRealign false ∈ listeners (bus s) →
  passive_on PROJECT_REALIGN (bus s) →
  ∃ s', emit fuel PROJECT_REALIGN payload s = Some s'
        ∧ AgentManager.agents (manager s') = ∅
        ∧ AgentManager.agentsByRole (manager s') = ∅
        ∧ AgentManager.getActiveAgents (manager s') = []
        ∧ store s' = store s.
Proof.
  intros Hfuel Hin Hpassive.
  destruct fuel as [|fuel]; [done|]. rewrite emit_unfold.
  set (ls := subscribers PROJECT_REALIGN (bus s)).
  assert (Hls : Forall (fun l => passive (fn l) = true) ls).
  { subst ls. unfold subscribers. apply Forall_forall. intros l Hl.
    apply list_elem_of_filter in Hl as [Hev Hl].
    unfold passive_on in Hpassive. rewrite Forall_forall in Hpassive.
    by apply Hpassive. }
  assert (Hre : ProjectRealign ∈ fn <$> ls).
  { apply list_elem_of_fmap.
    exists (mkListener PROJECT_REALIGN ProjectRealign false).
    split; [done|]. subst ls. unfold subscribers.
    by apply list_elem_of_filter. }
  destruct (dispatch_passive (emit fuel) PROJECT_REALIGN
              (stamp (now s) payload) ls
              (with_bus (record (now s) PROJECT_REALIGN payload (bus s)) s) Hls)
    as (s' & Hs' & Hst & _ & _ & Hma).
  exists s'. rewrite decide_True in Hma by done.
  rewrite Hma, Hst. repeat split; first [done | apply getActiveAgents_new].
Qed.

Lemma realign_clears_agents_keeps_store_witness :
  1 ≠ 0
  ∧ mkListener PROJECT_REALIGN ProjectRealign false ∈ listeners (bus staffed)
  ∧ passive_on PROJECT_REALIGN (bus staffed)
  ∧ length (AgentManager.getActiveAgents (manager staffed)) = 2
  ∧ ∃ s', emit 1 PROJECT_REALIGN emptyPayload staffed = Some s'
          ∧ AgentManager.agents (manager s') = ∅
          ∧ AgentManager.agentsByRole (manager s') = ∅
          ∧ AgentManager.getActiveAgents (manager s') = []
          ∧ store s' = store staffed.
Proof.
  assert (H1 : 1 ≠ 0) by discriminate.
  assert (H2 : mkListener PROJECT_REALIGN ProjectRealign false
               ∈ listeners (bus staffed))
    by (right; left).
  assert (H3 : passive_on PROJECT_REALIGN (bus staffed))
    by (repeat constructor; intros H; (reflexivity || discriminate H)).
  refine (conj H1 (conj H2 (conj H3 (conj _ _)))).
  - vm_compute. reflexivity.
  - exact (realign_clears_agents_keeps_store 1 emptyPayload staffed H1 H2 H3).
Defined.

End CoreFacts.
(** ** The engine among other listeners

    Handlers of [waitFor], the listeners of the registry and the functions
    of the application share the bus with the engine.  A dispatch to
    functions that do not emit leaves everything that the engine reads as it
    was. *)

Module Undisturbed.
Import JS EventBus Core Spec.
Import CoreFacts.

Lemma undisturbed_refl (s : Core.t) : undisturbed s s.
Proof. by repeat split. Qed.

Lemma undisturbed_trans (s1 s2 s3 : Core.t) :
  undisturbed s1 s2 → undisturbed s2 s3 → undisturbed s1 s3.
Proof.
  intros (A1 & A2 & A3 & A4 & A5 & A6 & A7) (B1 & B2 & B3 & B4 & B5 & B6 & B7).
  refine (conj _ (conj _ (conj _ (conj _ (conj _ (conj _ _)))))); try congruence.
  intros l Hl. by apply A7, B7.
Qed.

Lemma passive_not_phase (h : Handler) :
  passive h = true ↔ is_phase h = false ∧ is_foreign h = false.
Proof. destruct h; simpl; split; try done; by intros []. Qed.

(** Taking out entries that hold a function other than a listener of the
    engine leaves the listeners of the engine. *)
Lemma engineListeners_without (P : Listener → Prop)
  `{∀ l, Decision (P l)} (b : EventBus.t) :
  (∀ l, l ∈ listeners b → is_phase (fn l) = true → P l) →
  engineListeners (with_listeners (filter P (listeners b)) b)
  = engineListeners b.
Proof.
  unfold engineListeners. cbn [listeners with_listeners].
  induction (listeners b) as [|x xs IH]; intros HP; [done|].
  rewrite !filter_cons.
  assert (IH' := IH (fun l Hl => HP l (list_elem_of_further _ _ _ Hl))).
  destruct (decide (P x)) as [Hx|Hx].
  - rewrite filter_cons. destruct (decide (is_phase (fn x) = true));
      by rewrite IH'.
  - destruct (decide (is_phase (fn x) = true)) as [Hph|Hph]; [|done].
    exfalso. apply Hx. apply HP; [left|done].
Qed.

Lemma undisturbed_without (P : Listener → Prop) `{∀ l, Decision (P l)}
  (s : Core.t) :
  (∀ l, l ∈ listeners (bus s) → is_phase (fn l) = true → P l) →
  undisturbed s (with_bus (with_listeners (filter P (listeners (bus s)))
                             (bus s)) s).
Proof.
  intros HP.
  refine (conj _ (conj _ (conj _ (conj _ (conj _ (conj _ _)))))); try done.
  - by apply engineListeners_without.
  - intros l Hl. cbn in Hl. by apply list_elem_of_filter in Hl as [_ Hl].
Qed.

Lemma undisturbed_dropOnce (ev : string) (h : Handler) (s : Core.t) :
  is_phase h = false →
  undisturbed s (with_bus (dropOnce ev h (bus s)) s).
Proof.
  intros Hh. unfold dropOnce. apply undisturbed_without.
  intros l _ Hph (_ & Hfn & _). rewrite Hfn in Hph. congruence.
Qed.


Lemma undisturbed_react (h : Handler) (payload : EventPayload) (s : Core.t) :
  undisturbed s (react h payload s).
Proof.
  destruct (react_frame h payload s) as (Hst & Hfl & Hnow & Hbus).
  refine (conj _ (conj _ (conj _ (conj _ (conj _ (conj _ _))))));
    try done; by rewrite Hbus.
Qed.

(** A dispatch to functions that do not emit finishes whatever the fuel,
    and does not disturb the engine. *)
Lemma dispatch_undisturbed
  (emit_ : string → EventPayload → Core.t → option Core.t) (ev : string)
  (payload : EventPayload) (ls : list Listener) (s : Core.t) :
  Forall (fun l => passive (fn l) = true) ls →
  ∃ s', dispatch (invoke emit_) ev payload ls s = Some s'
        ∧ undisturbed s s'.
Proof.
  intros Hls. revert s.
  induction Hls as [|l ls Hl _ IH]; intros s.
  - exists s. split; [done|apply undisturbed_refl].
  - simpl. rewrite invoke_passive by done.
    set (s1 := if once l then with_bus (dropOnce ev (fn l) (bus s)) s else s).
    assert (H1 : undisturbed s s1).
    { subst s1. destruct (once l); [|apply undisturbed_refl].
      apply undisturbed_dropOnce. by apply passive_not_phase in Hl as [? _]. }
    destruct (IH (react (fn l) payload s1)) as (s' & -> & H3).
    exists s'. split; [done|].
    eapply undisturbed_trans; [exact H1|].
    eapply undisturbed_trans; [apply undisturbed_react|exact H3].
Qed.

Lemma dispatch_app
  (call : Handler → EventPayload → Core.t → option Core.t) (ev : string)
  (payload : EventPayload) (l1 l2 : list Listener) (s : Core.t) :
  dispatch call ev payload (l1 ++ l2) s
  = dispatch call ev payload l1 s ≫= dispatch call ev payload l2.
Proof.
  revert s. induction l1 as [|l l1 IH]; intros s; [done|].
  simpl. destruct (call (fn l) payload _); [apply IH | done].
Qed.

Lemma passive_on_subscribers (ev : string) (b : EventBus.t) :
  passive_on ev b →
  Forall (fun l => passive (fn l) = true) (subscribers ev b).
Proof.
  intros Hp. apply Forall_forall. intros l Hl.
  apply list_elem_of_filter in Hl as [Hev Hl].
  unfold passive_on in Hp. rewrite Forall_forall in Hp. by apply Hp.
Qed.

(** An event on a channel where only such functions listen: the publish
    returns whatever the fuel left, and but for the entry of the event the
    engine is not disturbed. *)
Lemma emit_undisturbed (fuel : nat) (ev : string) (payload : EventPayload)
  (s : Core.t) :
  passive_on ev (bus s) →
  ∃ s', emit (S fuel) ev payload s = Some s'
        ∧ undisturbed (with_bus (record (now s) ev payload (bus s)) s) s'.
Proof.
  intros Hp. rewrite emit_unfold.
  apply dispatch_undisturbed. by apply passive_on_subscribers.
Qed.

(** The entries of the history after a publish depend on the history and
    on the capacity only. *)
Lemma record_history (now0 : Z) (ev : string) (payload : EventPayload)
  (b1 b2 : EventBus.t) :
  eventHistory b1 = eventHistory b2 →
  maxHistorySize b1 = maxHistorySize b2 →
  eventHistory (record now0 ev payload b1)
  = eventHistory (record now0 ev payload b2)
  ∧ maxHistorySize (record now0 ev payload b1)
    = maxHistorySize (record now0 ev payload b2).
Proof.
  intros Hh Hm. unfold record, addToHistory. rewrite Hh, Hm.
  by case_decide.
Qed.


Lemma record_engineListeners (now0 : Z) (ev : string)
  (payload : EventPayload) (b : EventBus.t) :
  engineListeners (record now0 ev payload b) = engineListeners b.
Proof.
  unfold engineListeners, record.
  by rewrite EventBusFacts.addToHistory_listeners.
Qed.

(** *** The engine attached *)

Lemma wired_attached (s : Core.t) : wired s → attached s.
Proof.
  intros [Hl Hw]. refine (conj _ (conj Hw _)).
  - unfold engineListeners. rewrite Hl. reflexivity.
  - intros ev _ l Hin _. rewrite Hl in Hin.
    unfold coreListeners, AutoFlow.phaseListeners in Hin. cbn [app] in Hin.
    repeat (apply elem_of_cons in Hin as [->|Hin]; [reflexivity|]).
    by apply elem_of_nil in Hin.
Qed.

(** What keeps the engine attached: its listeners and the definitions
    are the same, and no listener was added. *)
Lemma attached_kept (s s' : Core.t) :
  attached s →
  engineListeners (bus s') = engineListeners (bus s) →
  AutoFlow.workflows (flow s') = AutoFlow.workflows (flow s) →
  (∀ l, l ∈ listeners (bus s') →
        l ∈ listeners (bus s) ∨ is_foreign (fn l) = false) →
  attached s'.
Proof.
  intros (He & Hw & Hc) He' Hw' Hsub.
  refine (conj _ (conj _ _)); [congruence | congruence |].
  intros ev Hev l Hl Hevl. destruct (Hsub l Hl) as [Hin|Hf]; [|done].
  by apply (Hc ev Hev l).
Qed.

Lemma attached_undisturbed (s s' : Core.t) :
  attached s → undisturbed s s' → attached s'.
Proof.
  intros Ha (_ & _ & Hfl & _ & _ & He & Hsub).
  apply (attached_kept s); [done | done | by rewrite Hfl |].
  intros l Hl. left. by apply Hsub.
Qed.


(** A check of [attached] by computation. *)
Lemma attached_check (s : Core.t) :
  engineListeners (bus s) = AutoFlow.phaseListeners →
  AutoFlow.workflows (flow s) !! "default" = Some AutoFlow.defaultWorkflow →
  forallb (fun l => negb (is_foreign (fn l))
                    || bool_decide (event l ∉ phaseChannels))
          (listeners (bus s)) = true →
  attached s.
Proof.
  intros He Hw Hf. refine (conj He (conj Hw _)). intros ev Hev l Hl Hevl.
  rewrite forallb_forall in Hf. apply list_elem_of_In in Hl.
  specialize (Hf l Hl). apply orb_prop in Hf as [Hf|Hf].
  - by apply negb_true_iff in Hf.
  - apply bool_decide_eq_true_1 in Hf. rewrite Hevl in Hf. by destruct Hf.
Qed.

(** After a publish that did not disturb the engine but for the entry of
    the event. *)
Lemma attached_recorded (now0 : Z) (ev : string) (payload : EventPayload)
  (s s' : Core.t) :
  attached s →
  undisturbed (with_bus (record now0 ev payload (bus s)) s) s' →
  attached s'
  ∧ (∀ l, l ∈ listeners (bus s') → l ∈ listeners (bus s))
  ∧ maxHistorySize (bus s') = maxHistorySize (bus s).
Proof.
  intros Ha Hu.
  assert (Ha0 : attached (with_bus (record now0 ev payload (bus s)) s)).
  { apply (attached_kept s); [done | apply record_engineListeners | done |].
    intros l Hl. left. cbn in Hl. unfold record in Hl.
    by rewrite EventBusFacts.addToHistory_listeners in Hl. }
  split; [by apply (attached_undisturbed _ _ Ha0 Hu)|].
  destruct Hu as (_ & _ & _ & _ & U5 & _ & U7). split.
  - intros l Hl. apply U7 in Hl. cbn in Hl. unfold record in Hl.
    by rewrite EventBusFacts.addToHistory_listeners in Hl.
  - rewrite U5. cbn. unfold record.
    by rewrite EventBusFacts.addToHistory_capacity.
Qed.

(** On the channel of a start-event of a built-in phase only functions
    that do not emit listen. *)
Lemma attached_start_passive (s : Core.t) (ph : AutoFlow.WorkflowPhase) :
  attached s → ph ∈ AutoFlow.defaultWorkflow →
  passive_on (AutoFlow.startEvent ph) (bus s).
Proof.
  intros (He & _ & Hc) Hph. apply Forall_forall. intros l Hl Hev.
  apply passive_not_phase. split.
  - destruct (is_phase (fn l)) eqn:Hphase; [|done]. exfalso.
    assert (Hin : l ∈ engineListeners (bus s))
      by (by apply list_elem_of_filter).
    rewrite He in Hin. clear -Hin Hev Hph.
    unfold AutoFlow.defaultWorkflow in Hph.
    unfold AutoFlow.phaseListeners in Hin.
    repeat (apply elem_of_cons in Hin as [->|Hin];
            [ repeat (apply elem_of_cons in Hph as [->|Hph];
                      [discriminate Hev|]);
              by apply elem_of_nil in Hph | ]).
    by apply elem_of_nil in Hin.
  - apply (Hc (AutoFlow.startEvent ph)); [|done|done].
    unfold phaseChannels. apply elem_of_app. left.
    by apply list_elem_of_fmap_2.
Qed.

(** A list whose entries with property [P] are just [x]. *)
Lemma filter_singleton_split {A : Type} (P : A → Prop)
  `{∀ x, Decision (P x)} (l : list A) (x : A) :
  filter P l = [x] →
  ∃ l1 l2, l = l1 ++ x :: l2
           ∧ Forall (fun y => ¬ P y) l1 ∧ Forall (fun y => ¬ P y) l2.
Proof.
  induction l as [|y l IH]; [done|].
  rewrite filter_cons. destruct (decide (P y)) as [Hy|Hy].
  - intros [= -> Hnil]. exists [], l. split; [done|]. split; [constructor|].
    apply Forall_forall. intros z Hz HPz.
    assert (Hin : z ∈ filter P l) by (by apply list_elem_of_filter).
    rewrite Hnil in Hin. by apply elem_of_nil in Hin.
  - intros Hf. destruct (IH Hf) as (l1 & l2 & -> & H1 & H2).
    exists (y :: l1), l2. split; [done|]. split; [by constructor|done].
Qed.

Lemma filter_comm {A : Type} (P Q : A → Prop)
  `{∀ x, Decision (P x)} `{∀ x, Decision (Q x)} (l : list A) :
  filter P (filter Q l) = filter Q (filter P l).
Proof.
  induction l as [|y l IH]; [done|].
  rewrite !filter_cons.
  destruct (decide (Q y)), (decide (P y)); rewrite ?filter_cons;
    repeat (rewrite ?decide_True, ?decide_False by done); by rewrite ?IH.
Qed.

(** The subscribers of the complete-event of a built-in phase: the
    listener of the engine for that phase, among functions that do not
    emit. *)
Lemma attached_complete_split (s : Core.t) (ev c : string) :
  attached s →
  mkListener ev (PhaseComplete c) false ∈ AutoFlow.phaseListeners →
  ∃ l1 l2,
    subscribers ev (bus s) = l1 ++ mkListener ev (PhaseComplete c) false :: l2
    ∧ Forall (fun l => passive (fn l) = true) l1
    ∧ Forall (fun l => passive (fn l) = true) l2.
Proof.
  intros (He & _ & Hc) Hin.
  assert (Hev : ev ∈ phaseChannels).
  { unfold phaseChannels. apply elem_of_app. right.
    unfold AutoFlow.phaseListeners in Hin.
    repeat (apply elem_of_cons in Hin as [[= -> ->]|Hin];
            [ repeat first [ apply list_elem_of_here
                           | apply list_elem_of_further ] | ]).
    by apply elem_of_nil in Hin. }
  assert (Hone : filter (fun l => is_phase (fn l) = true)
                        (subscribers ev (bus s))
                 = [mkListener ev (PhaseComplete c) false]).
  { unfold subscribers. rewrite filter_comm.
    change (filter _ (listeners (bus s))) with (engineListeners (bus s)).
    rewrite He. clear -Hin. unfold AutoFlow.phaseListeners in Hin.
    repeat (apply elem_of_cons in Hin as [[= -> ->]|Hin]; [reflexivity|]).
    by apply elem_of_nil in Hin. }
  destruct (filter_singleton_split _ _ _ Hone) as (l1 & l2 & Hsplit & H1 & H2).
  exists l1, l2. split; [done|].
  assert (Hpassive : ∀ l, l ∈ subscribers ev (bus s) →
                          is_phase (fn l) ≠ true → passive (fn l) = true).
  { intros l Hl Hph. apply list_elem_of_filter in Hl as [Hevl Hl].
    apply passive_not_phase. split; [by destruct (is_phase (fn l))|].
    by apply (Hc ev Hev l). }
  split; apply Forall_forall; intros l Hl;
    apply Hpassive; rewrite ?Hsplit;
    first [ by apply elem_of_app; left
          | by apply elem_of_app; right; right
          | by eapply Forall_forall in H1
          | by eapply Forall_forall in H2 ].
Qed.

End Undisturbed.

(** ** The workflow engine *)

Module AutoFlowFacts.
Import JS EventBus Core Spec Samples.
Import MemoryStoreFacts CoreFacts Undisturbed.

(** The first half of a phase listener, when a project is current. *)
Lemma markCompleted_current (c : string) (payload : EventPayload)
  (s : Core.t) (pid : string) (p : MemoryStore.ProjectContext.t) :
  current (store s) pid p →
  markCompleted c payload s
  = with_store
      (MemoryStore.updatePhase (now s) pid c
         (AutoFlow.completedRecord c (now s) payload) (store s)) s.
Proof.
  intros Hc. unfold markCompleted.
  rewrite (current_getCurrentProject _ _ _ Hc).
  destruct Hc as (_ & _ & _ & Hid). by rewrite Hid.
Qed.

(** [proceedToNextPhase] from a phase of the default definition that has a
    next phase. *)
Lemma proceedToNextPhase_next
  (emit_ : string → EventPayload → Core.t → option Core.t)
  (c n : string) (workflow : list AutoFlow.WorkflowPhase)
  (cp np : AutoFlow.WorkflowPhase) (s : Core.t) (pid : string)
  (p : MemoryStore.ProjectContext.t) :
  AutoFlow.workflows (flow s) !! "default" = Some workflow →
  AutoFlow.findPhase c workflow = Some cp →
  AutoFlow.successor cp = Some n →
  AutoFlow.findPhase n workflow = Some np →
  current (store s) pid p →
  proceedToNextPhase emit_ c s
  = emit_ (AutoFlow.startEvent np) (AutoFlow.startPayload n (now s))
      (with_store
         (MemoryStore.updatePhase (now s) pid n
            (AutoFlow.startedRecord n (now s))
            (MemoryStore.updateProjectStatus (now s) pid
               (AutoFlow.phaseStatus n) (store s)))
         (with_flow (AutoFlow.with_currentPhase (Some n) (flow s)) s)).
Proof.
  intros Hw Hcp Hn Hnp Hc. unfold proceedToNextPhase.
  rewrite Hw, Hcp, Hn, Hnp. cbn zeta.
  cbn [store with_flow].
  rewrite (current_getCurrentProject _ _ _ Hc).
  destruct Hc as (_ & _ & _ & Hid). by rewrite Hid.
Qed.

(** [proceedToNextPhase] from a phase of the default definition that has
    none. *)
Lemma proceedToNextPhase_last
  (emit_ : string → EventPayload → Core.t → option Core.t)
  (c : string) (workflow : list AutoFlow.WorkflowPhase)
  (cp : AutoFlow.WorkflowPhase) (s : Core.t) (pid : string)
  (p : MemoryStore.ProjectContext.t) :
  AutoFlow.workflows (flow s) !! "default" = Some workflow →
  AutoFlow.findPhase c workflow = Some cp →
  AutoFlow.successor cp = None →
  current (store s) pid p →
  proceedToNextPhase emit_ c s
  = Some (with_store
            (MemoryStore.updateProjectStatus (now s) pid
               MemoryStore.COMPLETED (store s))
            (with_flow (AutoFlow.with_isRunning false (flow s)) s)).
Proof.
  intros Hw Hcp Hn Hc. unfold proceedToNextPhase.
  rewrite Hw, Hcp, Hn. cbn zeta. cbn [store with_flow].
  rewrite (current_getCurrentProject _ _ _ Hc).
  destruct Hc as (_ & _ & _ & Hid). by rewrite Hid.
Qed.

(** The table of the six phase listeners against the default definition:
    the listener of a complete-event is the only subscriber of that event, its
    phase is the phase that declares the event, and the start-event of the
    next phase, if there is one, has no subscriber in the core. *)
Lemma phase_listener_table (ev c : string) :
  mkListener ev (PhaseComplete c) false ∈ AutoFlow.phaseListeners →
  filter (fun l => event l = ev) coreListeners
  = [mkListener ev (PhaseComplete c) false]
  ∧ ∃ cp, AutoFlow.findPhase c AutoFlow.defaultWorkflow = Some cp
          ∧ cp ∈ AutoFlow.defaultWorkflow
          ∧ AutoFlow.completeEvent cp = ev
          ∧ AutoFlow.name cp = c
          ∧ match AutoFlow.successor cp with
            | None => True
            | Some n =>
                n ≠ c
                ∧ ∃ np, AutoFlow.findPhase n AutoFlow.defaultWorkflow = Some np
                        ∧ filter (fun l => event l = AutoFlow.startEvent np)
                                 coreListeners = []
            end.
Proof.
  intros H. unfold AutoFlow.phaseListeners in H.
  repeat (apply elem_of_cons in H as [H|H];
          [ injection H as -> ->; split; [reflexivity|];
            eexists; split; [reflexivity|];
            split; [repeat first [ apply list_elem_of_here
                                 | apply list_elem_of_further ]|];
            split; [reflexivity|]; split; [reflexivity|];
            first [ exact I
                  | split; [discriminate|]; eexists; split; reflexivity ]
          | ]).
  by apply elem_of_nil in H.
Qed.


Lemma findPhase_elem (n : string) (workflow : list AutoFlow.WorkflowPhase)
  (ph : AutoFlow.WorkflowPhase) :
  AutoFlow.findPhase n workflow = Some ph → ph ∈ workflow.
Proof.
  unfold AutoFlow.findPhase. intros H. apply List.find_some in H as [H _].
  by apply list_elem_of_In.
Qed.

(** The call of the listener of a built-in phase, with the engine attached
    and a current project: the call returns with one unit of fuel for the
    start-event, the record of the phase is completed, and the engine either
    starts the next phase of the default definition or completes the
    project. *)
Lemma phase_listener_call (fuel : nat) (ev c : string)
  (payload : EventPayload) (s : Core.t) (pid : string)
  (p : MemoryStore.ProjectContext.t) :
  attached s → current (store s) pid p →
  mkListener ev (PhaseComplete c) false ∈ AutoFlow.phaseListeners →
  ∃ s' p' cp,
    invoke (emit (S fuel)) (PhaseComplete c) payload s = Some s'
    ∧ attached s'
    ∧ (∀ l, l ∈ listeners (bus s') → l ∈ listeners (bus s))
    ∧ maxHistorySize (bus s') = maxHistorySize (bus s)
    ∧ current (store s') pid p'
    ∧ now s' = now s
    ∧ AutoFlow.findPhase c AutoFlow.defaultWorkflow = Some cp
    ∧ AutoFlow.completeEvent cp = ev
    ∧ match AutoFlow.successor cp with
      | None =>
          MemoryStore.ProjectContext.phases p'
          = completedIn c (now s) payload
              (MemoryStore.ProjectContext.phases p)
          ∧ MemoryStore.ProjectContext.status p' = MemoryStore.COMPLETED
          ∧ flow s' = AutoFlow.with_isRunning false (flow s)
          ∧ eventHistory (bus s') = eventHistory (bus s)
      | Some n =>
          n ≠ c
          ∧ MemoryStore.ProjectContext.phases p'
            = startedIn n (now s)
                (completedIn c (now s) payload
                   (MemoryStore.ProjectContext.phases p))
          ∧ MemoryStore.ProjectContext.status p' = AutoFlow.phaseStatus n
          ∧ flow s' = AutoFlow.with_currentPhase (Some n) (flow s)
          ∧ ∃ np, AutoFlow.findPhase n AutoFlow.defaultWorkflow = Some np
                  ∧ eventHistory (bus s')
                    = eventHistory
                        (record (now s) (AutoFlow.startEvent np)
                           (AutoFlow.startPayload n (now s)) (bus s))
      end.
Proof.
  intros Ha Hc Hin.
  destruct (phase_listener_table ev c Hin)
    as (_ & cp & Hcp & _ & Hev & Hname & Hsucc).
  cbn [invoke]. rewrite (markCompleted_current c _ s pid p Hc).
  set (s2 := with_store _ s).
  pose proof (current_updatePhase (now s) c
                (AutoFlow.completedRecord c (now s) payload)
                (store s) pid p Hc) as Hc2.
  assert (Hw2 : AutoFlow.workflows (flow s2) !! "default"
                = Some AutoFlow.defaultWorkflow) by apply Ha.
  destruct (AutoFlow.successor cp) as [n|] eqn:Hn.
  - destruct Hsucc as (Hne & np & Hnp & _).
    rewrite (proceedToNextPhase_next _ c n _ cp np s2 pid _ Hw2 Hcp Hn Hnp Hc2).
    set (s3 := with_store _ _).
    assert (Ha3 : attached s3)
      by (apply (attached_kept s); try done; intros l Hl; by left).
    destruct (emit_undisturbed fuel (AutoFlow.startEvent np)
                (AutoFlow.startPayload n (now s2)) s3
                (attached_start_passive s3 np Ha3 (findPhase_elem _ _ _ Hnp)))
      as (s4 & Hs4 & Hu).
    destruct (attached_recorded _ _ _ s3 s4 Ha3 Hu) as (Ha4 & Hsub4 & Hmax4).
    destruct Hu as (U1 & U2 & U3 & U4 & U5 & U6 & U7).
    pose proof (current_updateProjectStatus (now s2) (AutoFlow.phaseStatus n)
                  (store s2) pid _ Hc2) as Hc3.
    pose proof (current_updatePhase (now s2) n
                  (AutoFlow.startedRecord n (now s2)) _ pid _ Hc3) as Hc4.
    eexists s4, _, cp. rewrite Hn. split; [exact Hs4|].
    split; [exact Ha4|]. split; [exact Hsub4|]. split; [exact Hmax4|].
    split; [rewrite U2; exact Hc4|].
    split; [by rewrite U1|].
    split; [done|]. split; [done|]. split; [done|].
    split; [reflexivity|]. split; [reflexivity|].
    split; [by rewrite U3|].
    exists np. split; [done|]. by rewrite U4.
  - rewrite (proceedToNextPhase_last _ c _ cp s2 pid _ Hw2 Hcp Hn Hc2).
    pose proof (current_updateProjectStatus (now s2) MemoryStore.COMPLETED
                  (store s2) pid _ Hc2) as Hc3.
    eexists _, _, cp. rewrite Hn. split; [reflexivity|].
    split; [apply (attached_kept s); try done; intros l Hl; by left|].
    split; [done|]. split; [done|].
    split; [exact Hc3|].
    by repeat split.
Qed.

(** One complete-event of a built-in phase, with the engine attached and a
    current project: the dispatch finishes with two units of fuel, whoever
    else listens to the event or to the start-event that follows. *)
Lemma phase_complete_step (fuel : nat) (ev c : string)
  (payload : EventPayload) (s : Core.t) (pid : string)
  (p : MemoryStore.ProjectContext.t) :
  attached s → current (store s) pid p →
  mkListener ev (PhaseComplete c) false ∈ AutoFlow.phaseListeners →
  ∃ s' p' cp,
    emit (S (S fuel)) ev payload s = Some s'
    ∧ attached s'
    ∧ (∀ l, l ∈ listeners (bus s') → l ∈ listeners (bus s))
    ∧ maxHistorySize (bus s') = maxHistorySize (bus s)
    ∧ current (store s') pid p'
    ∧ now s' = now s
    ∧ AutoFlow.findPhase c AutoFlow.defaultWorkflow = Some cp
    ∧ AutoFlow.completeEvent cp = ev
    ∧ match AutoFlow.successor cp with
      | None =>
          MemoryStore.ProjectContext.phases p'
          = completedIn c (now s) (stamp (now s) payload)
              (MemoryStore.ProjectContext.phases p)
          ∧ MemoryStore.ProjectContext.status p' = MemoryStore.COMPLETED
          ∧ flow s' = AutoFlow.with_isRunning false (flow s)
          ∧ eventHistory (bus s')
            = eventHistory (record (now s) ev payload (bus s))
      | Some n =>
          n ≠ c
          ∧ MemoryStore.ProjectContext.phases p'
            = startedIn n (now s)
                (completedIn c (now s) (stamp (now s) payload)
                   (MemoryStore.ProjectContext.phases p))
          ∧ MemoryStore.ProjectContext.status p' = AutoFlow.phaseStatus n
          ∧ flow s' = AutoFlow.with_currentPhase (Some n) (flow s)
          ∧ ∃ np, AutoFlow.findPhase n AutoFlow.defaultWorkflow = Some np
                  ∧ eventHistory (bus s')
                    = eventHistory
                        (record (now s) (AutoFlow.startEvent np)
                           (AutoFlow.startPayload n (now s))
                           (record (now s) ev payload (bus s)))
      end.
Proof.
  intros Ha Hc Hin.
  destruct (attached_complete_split s ev c Ha Hin) as (l1 & l2 & Hsplit & H1 & H2).
  rewrite emit_unfold, Hsplit, dispatch_app.
  set (s0 := with_bus (record (now s) ev payload (bus s)) s).
  destruct (dispatch_undisturbed (emit (S fuel)) ev (stamp (now s) payload)
              l1 s0 H1) as (sa & -> & Ua).
  destruct (attached_recorded _ _ _ s sa Ha Ua) as (Haa & Asub & Amax).
  destruct Ua as (A1 & A2 & A3 & A4 & A5 & A6 & A7).
  assert (Hca : current (store sa) pid p) by (by rewrite A2).
  destruct (phase_listener_call fuel ev c (stamp (now s) payload) sa pid p
              Haa Hca Hin)
    as (sb & p' & cp & Hsb & Hab & Bsub & Bmax & Hcb & Bnow & Hcp & Hev
        & Hcase).
  cbn [mbind option_bind dispatch once fn]. rewrite Hsb.
  destruct (dispatch_undisturbed (emit (S fuel)) ev (stamp (now s) payload)
              l2 sb H2) as (s' & -> & Ub).
  pose proof (attached_undisturbed sb s' Hab Ub) as Ha'.
  destruct Ub as (B1 & B2 & B3 & B4 & B5 & B6 & B7).
  exists s', p', cp. split; [done|]. split; [done|].
  split; [intros l Hl; by apply Asub, Bsub, B7|].
  split; [by rewrite B5, Bmax, Amax|].
  split; [by rewrite B2|].
  split; [by rewrite B1, Bnow, A1|].
  split; [done|]. split; [done|].
  rewrite A1 in Hcase. change (now s0) with (now s) in Hcase.
  rewrite A3 in Hcase. change (flow s0) with (flow s) in Hcase.
  destruct (AutoFlow.successor cp) as [n|].
  - destruct Hcase as (Hne & Hph & Hst & Hfl & np & Hnp & Hh).
    refine (conj Hne (conj Hph (conj Hst (conj _ _)))); [by rewrite B3|].
    exists np. split; [done|]. rewrite B4, Hh.
    by apply record_history.
  - destruct Hcase as (Hph & Hst & Hfl & Hh).
    refine (conj Hph (conj Hst (conj _ _))); [by rewrite B3|].
    by rewrite B4, Hh, A4.
Qed.

Lemma stamp_result (now0 : Z) (payload : EventPayload) :
  result (stamp now0 payload) = result payload
  ∧ artifacts (stamp now0 payload) = artifacts payload.
Proof. unfold stamp. by destruct (truthy_num _). Qed.

(** [startWorkflow()] with the engine attached and a current project. *)
Lemma startWorkflow_default (fuel : nat) (s : Core.t) (pid : string)
  (p : MemoryStore.ProjectContext.t) :
  attached s → current (store s) pid p →
  ∃ s' p',
    startWorkflow (S fuel) "default" s = Returned s'
    ∧ attached s'
    ∧ (∀ l, l ∈ listeners (bus s') → l ∈ listeners (bus s))
    ∧ maxHistorySize (bus s') = maxHistorySize (bus s)
    ∧ now s' = now s
    ∧ current (store s') pid p'
    ∧ MemoryStore.ProjectContext.phases p'
      = startedIn "requirements" (now s) (MemoryStore.ProjectContext.phases p)
    ∧ MemoryStore.ProjectContext.status p' = MemoryStore.REQUIREMENTS
    ∧ flow s'
      = AutoFlow.with_currentPhase (Some "requirements")
          (AutoFlow.with_isRunning true (flow s))
    ∧ eventHistory (bus s')
      = eventHistory
          (record (now s) PHASE_REQUIREMENTS_START
             (AutoFlow.startPayload "requirements" (now s)) (bus s)).
Proof.
  intros Ha Hc. unfold startWorkflow.
  rewrite (proj1 (proj2 Ha)).
  cbn [store with_flow]. rewrite (current_getCurrentProject _ _ _ Hc).
  cbn [AutoFlow.defaultWorkflow AutoFlow.name AutoFlow.startEvent].
  cbn zeta.
  pose proof (current_updateProjectStatus (now s) MemoryStore.REQUIREMENTS
                (store s) pid p Hc) as Hc1.
  pose proof (current_updatePhase (now s) "requirements"
                (AutoFlow.startedRecord "requirements" (now s)) _ pid _ Hc1)
    as Hc2.
  destruct Hc as (_ & _ & _ & Hid). rewrite Hid.
  match goal with
  | |- context [emit _ _ _ ?s3] => set (s3' := s3)
  end.
  assert (Ha3 : attached s3')
    by (apply (attached_kept s); try done; intros l Hl; by left).
  destruct (emit_undisturbed fuel PHASE_REQUIREMENTS_START
              (AutoFlow.startPayload "requirements" (now s)) s3'
              (attached_start_passive s3' _ Ha3 (list_elem_of_here _ _)))
    as (s4 & Hs4 & Hu).
  destruct (attached_recorded _ _ _ s3' s4 Ha3 Hu) as (Ha4 & Hsub4 & Hmax4).
  destruct Hu as (U1 & U2 & U3 & U4 & U5 & U6 & U7).
  cbn [AutoFlow.startEvent] in Hs4.
  change (now s3') with (now s). rewrite Hs4. cbn [outcome_of].
  eexists s4, _. split; [reflexivity|].
  split; [exact Ha4|]. split; [exact Hsub4|]. split; [exact Hmax4|].
  split; [by rewrite U1|].
  split; [rewrite U2; exact Hc2|].
  split; [reflexivity|]. split; [reflexivity|].
  split; [by rewrite U3|]. by rewrite U4.
Qed.

(** *** Timers and waits beside the engine *)










Lemma ready_attached : attached ready.
Proof. apply attached_check; by vm_compute. Qed.

Lemma ready_current : current (store ready) "p-1" readyProject.
Proof. by refine (conj _ (conj _ (conj _ _))); vm_compute. Qed.




Lemma default_phase_has_listener (ph : AutoFlow.WorkflowPhase) :
  ph ∈ AutoFlow.defaultWorkflow →
  mkListener (AutoFlow.completeEvent ph) (PhaseComplete (AutoFlow.name ph))
             false ∈ AutoFlow.phaseListeners
  ∧ AutoFlow.findPhase (AutoFlow.name ph) AutoFlow.defaultWorkflow = Some ph.
Proof.
  intros H. unfold AutoFlow.defaultWorkflow in H.
  repeat (apply elem_of_cons in H as [->|H];
          [ split; [|reflexivity];
            repeat first [ apply list_elem_of_here
                         | apply list_elem_of_further ]
          | ]).
  by apply elem_of_nil in H.
Qed.




(** C2 at the input that shows the defect: a registered workflow whose
    first phase is "testing" is started.  The record of "testing" is in
    progress and its start-event is the one event published, but the status
    of the project is ["requirements"], not the status that the mapping
    gives for "testing". *)
Lemma startWorkflow_status_is_requirements :
  (fun s => (projectStatus s, phaseStatusOf "testing" s,
             fst <$> eventHistory (bus s)))
    <$> startThenPublish "qa" [] (registerWorkflow "qa" qaWorkflow ready)
  = Some (Some MemoryStore.REQUIREMENTS, Some MemoryStore.in_progress,
          [PHASE_TESTING_START])
  ∧ AutoFlow.phaseStatus "testing" = MemoryStore.TESTING
  ∧ MemoryStore.ProjectContext.status readyProject = MemoryStore.INITIALIZING.
Proof. repeat split; by vm_compute. Qed.







(** *** Every publish is handled to the end *)








End AutoFlowFacts.

(** ** What a publish can do to the state

    Every change that [emit] makes, in the dispatch itself or in a listener
    of the core, nested publishes included, is a run of the steps below.  A
    relation that the steps keep is kept by [emit]. *)

Module EmitFrame.
Import JS EventBus Core Spec.
Import CoreFacts.

Section Steps.
Variable R : Core.t → Core.t → Prop.
Variable Q : Listener → Prop.
Variable J : Core.t → Prop.

Hypothesis R_refl : ∀ s, R s s.
Hypothesis R_trans : ∀ s1 s2 s3, R s1 s2 → R s2 s3 → R s1 s3.
Hypothesis J_entries : ∀ s l, J s → l ∈ listeners (bus s) → Q l.
Hypothesis J_step : ∀ s s', J s → R s s' → J s'.

(** The emitter drops a [once] entry of the engine or of the registry
    before it calls it. *)
Hypothesis R_drop :
  ∀ s ev l, (∀ c timer, fn l ≠ WaitFor c timer) →
            R s (with_bus (dropOnce ev (fn l) (bus s)) s).
(** The bus stores the event. *)
Hypothesis R_record :
  ∀ s ev payload, R s (with_bus (addToHistory ev payload (bus s)) s).
(** The engine writes a phase record or the status of a project, and
    its own two fields. *)
Hypothesis R_updatePhase :
  ∀ s now0 pid phaseName d,
    R s (with_store (MemoryStore.updatePhase now0 pid phaseName d (store s))
           s).
Hypothesis R_updateProjectStatus :
  ∀ s now0 pid v,
    R s (with_store (MemoryStore.updateProjectStatus now0 pid v (store s)) s).
Hypothesis R_currentPhase :
  ∀ s v, R s (with_flow (AutoFlow.with_currentPhase v (flow s)) s).
Hypothesis R_isRunning :
  ∀ s v, R s (with_flow (AutoFlow.with_isRunning v (flow s)) s).
(** The registry is cleared. *)
Hypothesis R_clearAgents :
  ∀ s, R s (with_manager (AgentManager.clearAgents (manager s)) s).
(** The entry of a [waitFor] is dropped if it is a [once] entry, and its
    handler clears its timer and resolves its promise. *)
Hypothesis R_waitFor :
  ∀ s l c timer payload,
    Q l → fn l = WaitFor c timer →
    R s (settle c (Resolved payload)
           (clearTimeout timer
              (if once l then with_bus (dropOnce (event l) (fn l) (bus s)) s
               else s))).

Lemma markCompleted_step (c : string) (payload : EventPayload) (s : Core.t) :
  R s (markCompleted c payload s).
Proof using R_refl R_updatePhase.
  unfold markCompleted.
  destruct (MemoryStore.getCurrentProject (store s)); [|apply R_refl].
  apply R_updatePhase.
Qed.

Lemma proceedToNextPhase_step
  (emit_ : string → EventPayload → Core.t → option Core.t) (c : string)
  (s s' : Core.t) :
  (∀ e p s0 s1, J s0 → emit_ e p s0 = Some s1 → R s0 s1) →
  J s → proceedToNextPhase emit_ c s = Some s' → R s s'.
Proof using R_refl R_trans J_step R_updatePhase R_updateProjectStatus
  R_currentPhase R_isRunning.
  intros Hemit HJ. unfold proceedToNextPhase.
  destruct (AutoFlow.workflows (flow s) !! "default") as [workflow|];
    [|intros [= <-]; apply R_refl].
  destruct (AutoFlow.findPhase c workflow) as [cp|];
    [|intros [= <-]; apply R_refl].
  destruct (AutoFlow.successor cp) as [n|].
  - destruct (AutoFlow.findPhase n workflow) as [np|];
      [|intros [= <-]; apply R_refl].
    cbn zeta. intros Hs'.
    match type of Hs' with
    | emit_ _ _ ?s0 = _ => assert (Hs0 : R s s0)
    end.
    { set (s1 := with_flow (AutoFlow.with_currentPhase (Some n) (flow s)) s).
      apply (R_trans s s1); [apply R_currentPhase|].
      destruct (MemoryStore.getCurrentProject _) as [project|];
        [|apply R_refl].
      set (pid := MemoryStore.ProjectContext.id project).
      set (st1 := MemoryStore.updateProjectStatus (now s1) pid
                    (AutoFlow.phaseStatus n) (store s1)).
      apply (R_trans s1 (with_store st1 s1)); [apply R_updateProjectStatus|].
      exact (R_updatePhase (with_store st1 s1) (now s1) pid n
               (AutoFlow.startedRecord n (now s1))). }
    eapply R_trans; [exact Hs0|].
    eapply Hemit; [|exact Hs']. by apply (J_step s).
  - cbn zeta. intros Hs'.
    assert (Hs1 : R s (with_flow (AutoFlow.with_isRunning false (flow s)) s))
      by apply R_isRunning.
    destruct (MemoryStore.getCurrentProject _) as [project|];
      injection Hs' as <-; [|done].
    eapply R_trans; [exact Hs1|].
    exact (R_updateProjectStatus
             (with_flow (AutoFlow.with_isRunning false (flow s)) s) (now s)
             (MemoryStore.ProjectContext.id project) MemoryStore.COMPLETED).
Qed.

(** One entry of a dispatch. *)
Lemma entry_step
  (emit_ : string → EventPayload → Core.t → option Core.t)
  (payload : EventPayload) (l : Listener) (s s' : Core.t) :
  (∀ e p s0 s1, J s0 → emit_ e p s0 = Some s1 → R s0 s1) →
  J s → Q l →
  invoke emit_ (fn l) payload
    (if once l then with_bus (dropOnce (event l) (fn l) (bus s)) s else s)
  = Some s' →
  R s s'.
Proof using All.
  intros Hemit HJ HQ.
  destruct (fn l) as [ph| | |c timer|n] eqn:Hfn; [| | | |done].
  - set (s1 := if once l
               then with_bus (dropOnce (event l) (PhaseComplete ph) (bus s)) s
               else s).
    assert (Hs1 : R s s1).
    { subst s1. destruct (once l); [|apply R_refl].
      rewrite <- Hfn. apply R_drop. intros c timer. by rewrite Hfn. }
    pose proof (J_step s s1 HJ Hs1) as HJ1. simpl.
    intros Hs'. eapply R_trans; [exact Hs1|].
    eapply R_trans; [apply (markCompleted_step ph payload)|].
    eapply proceedToNextPhase_step; [exact Hemit| |exact Hs'].
    apply (J_step s1); [done|]. apply markCompleted_step.
  - simpl. intros [= <-]. destruct (once l); [|apply R_refl].
    rewrite <- Hfn. apply R_drop. intros c timer. by rewrite Hfn.
  - simpl. intros [= <-].
    apply (R_trans s (if once l
                      then with_bus (dropOnce (event l) ProjectRealign (bus s))
                             s
                      else s)).
    + destruct (once l); [|apply R_refl].
      rewrite <- Hfn. apply R_drop. intros c timer. by rewrite Hfn.
    + apply R_clearAgents.
  - simpl. intros [= <-]. rewrite <- Hfn. by apply R_waitFor.
Qed.

Lemma dispatch_step
  (emit_ : string → EventPayload → Core.t → option Core.t) (ev : string)
  (payload : EventPayload) (ls : list Listener) (s s' : Core.t) :
  (∀ e p s0 s1, J s0 → emit_ e p s0 = Some s1 → R s0 s1) →
  J s → Forall (fun l => event l = ev ∧ Q l) ls →
  dispatch (invoke emit_) ev payload ls s = Some s' →
  R s s'.
Proof using All.
  intros Hemit HJ Hls. revert s HJ.
  induction Hls as [|l ls [Hev HQ] _ IH]; intros s HJ.
  - simpl. intros [= <-]. apply R_refl.
  - simpl. rewrite <- Hev.
    destruct (invoke emit_ (fn l) payload _) as [s2|] eqn:Hs2; [|done].
    rewrite Hev. intros Hs'.
    pose proof (entry_step emit_ payload l s s2 Hemit HJ HQ Hs2) as Hstep.
    eapply R_trans; [exact Hstep|]. apply IH; [|done]. by apply (J_step s).
Qed.

(** [emit], whatever it dispatches to, if it returns. *)
Lemma emit_step (fuel : nat) (ev : string) (payload : EventPayload)
  (s s' : Core.t) :
  J s → emit fuel ev payload s = Some s' → R s s'.
Proof using All.
  revert ev payload s s'.
  induction fuel as [|fuel IH]; intros ev payload s s' HJ; [done|].
  rewrite emit_unfold. intros Hs'.
  assert (Hrec : R s (with_bus (record (now s) ev payload (bus s)) s))
    by apply R_record.
  eapply R_trans; [exact Hrec|].
  eapply (dispatch_step (emit fuel)); [exact IH| | |exact Hs'].
  - by apply (J_step s).
  - apply Forall_forall. intros l Hin.
    apply list_elem_of_filter in Hin as [Hev Hin].
    split; [done|]. by apply (J_entries s).
Qed.

(** The dispatch of [emit] itself. *)
Lemma dispatch_emit_step (fuel : nat) (ev : string) (payload : EventPayload)
  (ls : list Listener) (s s' : Core.t) :
  J s → Forall (fun l => event l = ev ∧ Q l) ls →
  dispatch (invoke (emit fuel)) ev payload ls s = Some s' →
  R s s'.
Proof using All.
  intros HJ Hls Hs'.
  apply (dispatch_step (emit fuel) ev payload ls s s'); try done.
  intros e p s0 s1. apply emit_step.
Qed.

End Steps.

End EmitFrame.
(** ** The engine stays attached

    No publish subscribes a function or registers a definition, and none
    takes out a listener of the engine. *)

Module AttachedKept.
Import JS EventBus Core Spec.
Import CoreFacts Undisturbed AutoFlowFacts.









End AttachedKept.

(** ** [waitFor]: the one-shot handler and the timer *)

Module WaitForFacts.
Import JS EventBus Core Spec Samples.
Import CoreFacts Undisturbed AutoFlowFacts AttachedKept.

Lemma settle_other (c call : nat) (o : Settlement) (s : Core.t) :
  c ≠ call → promises (settle c o s) !! call = promises s !! call.
Proof.
  intros Hne. unfold settle.
  destruct (promises s !! c); [done|]. simpl. by rewrite lookup_insert_ne.
Qed.

Lemma settle_pending (call : nat) (o : Settlement) (s : Core.t) :
  promises s !! call = None → promises (settle call o s) !! call = Some o.
Proof.
  intros Hnone. unfold settle. rewrite Hnone. simpl. apply lookup_insert_eq.
Qed.

(** A promise that is settled stays as it is. *)
Lemma settle_settled (c call : nat) (o o' : Settlement) (s : Core.t) :
  promises s !! call = Some o' →
  promises (settle c o s) !! call = Some o'.
Proof.
  intros Hsome. unfold settle.
  destruct (promises s !! c) eqn:Hc; [done|]. simpl.
  rewrite lookup_insert_ne; [done|]. congruence.
Qed.

Lemma settle_frame (c : nat) (o : Settlement) (s : Core.t) :
  bus (settle c o s) = bus s ∧ timers (settle c o s) = timers s
  ∧ now (settle c o s) = now s.
Proof. unfold settle. by destruct (promises s !! c). Qed.

Lemma expire_settled (tm : Timer) (call : nat) (o : Settlement)
  (s : Core.t) :
  promises s !! call = Some o → promises (expire tm s) !! call = Some o.
Proof. intros H. unfold expire. by apply settle_settled. Qed.

Lemma expire_other (tm : Timer) (call : nat) (s : Core.t) :
  t_call tm ≠ call → promises (expire tm s) !! call = promises s !! call.
Proof. intros H. unfold expire. by rewrite settle_other. Qed.

Lemma expire_timers (tm : Timer) (s : Core.t) :
  timers (expire tm s) = timers s.
Proof. unfold expire. by rewrite (proj1 (proj2 (settle_frame _ _ _))). Qed.

Lemma expire_listeners (tm : Timer) (s : Core.t) (l : Listener) :
  l ∈ listeners (bus (expire tm s)) →
  l ∈ listeners (bus s)
  ∧ ¬ (event l = t_event tm
       ∧ fn l = WaitFor (t_call tm) (Some (timerId tm))).
Proof.
  unfold expire. rewrite (proj1 (settle_frame _ _ _)). simpl.
  intros Hl. apply list_elem_of_filter in Hl as [Hne Hl]. done.
Qed.


Lemma expire_all_other (fired : list Timer) (call : nat) (s : Core.t) :
  Forall (fun tm => t_call tm ≠ call) fired →
  promises (foldl (fun acc tm => expire tm acc) s fired) !! call
  = promises s !! call.
Proof.
  intros H. revert s. induction H as [|tm fired Htm _ IH]; intros s; [done|].
  simpl. rewrite IH. by apply expire_other.
Qed.

Lemma expire_all_timers (fired : list Timer) (s : Core.t) :
  timers (foldl (fun acc tm => expire tm acc) s fired) = timers s.
Proof.
  revert s. induction fired as [|tm fired IH]; intros s; [done|].
  simpl. rewrite IH. apply expire_timers.
Qed.

Lemma expire_all_listeners (fired : list Timer) (s : Core.t) (l : Listener) :
  l ∈ listeners (bus (foldl (fun acc tm => expire tm acc) s fired)) →
  l ∈ listeners (bus s).
Proof.
  revert s. induction fired as [|tm fired IH]; intros s; [done|].
  simpl. intros Hl. apply IH in Hl. by apply expire_listeners in Hl as [Hl _].
Qed.



(** *** On any channel, whoever else listens *)

Section AnyChannel.
Variables (call i : nat) (ev : string).













(** *** While the call is pending, its entry and its timer stay *)







End AnyChannel.

(** *** Time passes while a call waits *)

Section Waiting.
Variables (call i : nat) (ev : string) (due_ : Z).

Lemma advanceTo_listeners (T : Z) (s : Core.t) (l : Listener) :
  l ∈ listeners (bus (advanceTo T s)) → l ∈ listeners (bus s).
Proof. unfold advanceTo. intros Hin. by apply expire_all_listeners in Hin. Qed.

Lemma advanceTo_timers (T : Z) (s : Core.t) (tm : Timer) :
  tm ∈ timers (advanceTo T s)
  ↔ tm ∈ timers s ∧ ¬ (due tm ≤ Z.max (now s) T)%Z.
Proof.
  unfold advanceTo. rewrite expire_all_timers. simpl.
  rewrite list_elem_of_filter. tauto.
Qed.







End Waiting.


(** *** A publish on a channel where the engine does not listen *)












End WaitForFacts.

(** ** More on the project store *)

Module StoreInvariants.
Import JS MemoryStore Spec Samples.
Import MemoryStoreFacts.

(** *** Documents read and written again *)

Section Json_induction.
Variable P : Json → Prop.
Hypothesis Hnull : P JNull.
Hypothesis Hbool : ∀ b, P (JBool b).
Hypothesis Hnum : ∀ n, P (JNum n).
Hypothesis Hstr : ∀ s, P (JStr s).
Hypothesis Harr : ∀ items, Forall P items → P (JArr items).
Hypothesis Hobj : ∀ members, Forall (fun kv => P kv.2) members →
                             P (JObj members).

Lemma Json_nested_ind : ∀ j, P j.
Proof using All.
  fix IH 1. intros [ |b|n|s|items|members].
  - exact Hnull.
  - exact (Hbool b).
  - exact (Hnum n).
  - exact (Hstr s).
  - apply Harr. induction items as [|x items IHitems]; constructor.
    + exact (IH x).
    + exact IHitems.
  - apply Hobj. induction members as [|[k x] members IHmembers]; constructor.
    + exact (IH x).
    + exact IHmembers.
Qed.
End Json_induction.

(** What [JSON.parse] read is written by [JSON.stringify] as it was. *)
Lemma parse_then_stringify (j : Json) :
  JSON_stringify (JSON_parse j) = Some j.
Proof.
  induction j as [ |b|n|s|items IH|members IH] using Json_nested_ind;
    simpl; try done.
  - f_equal. f_equal.
    induction IH as [|x items Hx _ IHitems]; [done|].
    simpl. by rewrite Hx, IHitems.
  - f_equal. f_equal.
    induction IH as [|[k x] members Hx _ IHmembers]; [done|].
    simpl in Hx. cbn. rewrite Hx. cbn. by rewrite IHmembers.
Qed.

Lemma stringify_parse_member (m : option Json) :
  JSON_stringify (parse_member m) = m.
Proof. destruct m as [j|]; [apply parse_then_stringify | done]. Qed.

Lemma stringify_parse_record (m : gmap string Json) :
  omap JSON_stringify (JSON_parse <$> m) = m.
Proof.
  apply map_eq. intros k. rewrite lookup_omap, lookup_fmap.
  destruct (m !! k) as [j|]; [|done]. simpl. apply parse_then_stringify.
Qed.

Lemma stringify_parse_phase (d : PhaseDoc) :
  stringify_phase (parse_phase d) = d.
Proof.
  destruct d. unfold stringify_phase, parse_phase. simpl.
  by rewrite !stringify_parse_member.
Qed.

Lemma stringify_parse_entry (e : ConversationDoc) :
  stringify_entry (parse_entry e) = e.
Proof.
  destruct e. unfold stringify_entry, parse_entry. simpl.
  by rewrite stringify_parse_member.
Qed.

Lemma stringify_parse_project (d : ProjectDoc) :
  stringify_project (parse_project d) = d.
Proof.
  destruct d. unfold stringify_project, parse_project. simpl.
  rewrite stringify_parse_member, !stringify_parse_record. f_equal.
  - rewrite <- map_fmap_compose. rewrite <- (map_fmap_id jd_phases0) at 2.
    apply map_fmap_ext. intros k x _. apply stringify_parse_phase.
  - rewrite <- list_fmap_compose. rewrite <- (list_fmap_id jd_conversationHistory0) at 2.
    apply list_fmap_ext. intros i x _. apply stringify_parse_entry.
Qed.

(** What [JSON.parse] read holds no value that [JSON.stringify]
    refuses. *)
Lemma parse_never_throws (j : Json) : stringify_throws (JSON_parse j) = false.
Proof.
  induction j as [ |b|n|s|items IH|members IH] using Json_nested_ind;
    simpl; try done.
  - apply existsb_false. rewrite Forall_forall. intros v Hv.
    apply list_elem_of_In, in_map_iff in Hv as (j & <- & Hj).
    rewrite Forall_forall in IH. by apply IH, list_elem_of_In.
  - apply existsb_false. rewrite Forall_forall. intros kv Hkv.
    apply list_elem_of_In, in_map_iff in Hkv as ([k j] & <- & Hj).
    rewrite Forall_forall in IH.
    exact (IH (k, j) (proj2 (list_elem_of_In _ _) Hj)).
Qed.

Lemma parse_member_never_throws (m : option Json) :
  stringify_throws (parse_member m) = false.
Proof. destruct m; [apply parse_never_throws | done]. Qed.

Lemma parse_project_never_throws (d : ProjectDoc) :
  project_throws (parse_project d) = false.
Proof.
  unfold project_throws, parse_project. cbn.
  rewrite parse_member_never_throws. cbn.
  rewrite (proj2 (none_throws phase_throws _)); cbn.
  2: { intros k ph Hk. apply lookup_fmap_Some in Hk as (pd & <- & _).
       unfold phase_throws, parse_phase. cbn.
       by rewrite !parse_member_never_throws. }
  rewrite (proj2 (none_throws stringify_throws _)); cbn.
  2: { intros k v Hk. apply lookup_fmap_Some in Hk as (j & <- & _).
       apply parse_never_throws. }
  rewrite (proj2 (existsb_false _ _)); cbn.
  2: { rewrite Forall_forall. intros e He.
       apply list_elem_of_fmap in He as (cd & -> & _).
       apply parse_member_never_throws. }
  apply none_throws. intros k v Hk.
  apply lookup_fmap_Some in Hk as (j & <- & _). apply parse_never_throws.
Qed.

(** X1.  A file that [persist] wrote is read by [loadProject] into a
    project whose own document is that file: saving the project again after
    the reload leaves the directory as it was, also when the values in memory
    were not JSON-representable (they change at the reload, the file does
    not), whatever the id and whether or not the file system carries out the
    write. *)
Theorem resave_after_reload_keeps_file (projectId : string)
  (p0 : ProjectContext.t) (st : MemoryStore.t) :
  files st !! fileKey projectId = Some (stringify_project p0) →
  ∃ p', (loadProject projectId st).1 = Some p'
        ∧ projects (loadProject projectId st).2 !! projectId = Some p'
        ∧ stringify_project p' = stringify_project p0
        ∧ files (persist projectId (loadProject projectId st).2) = files st.
Proof.
  intros Hfile. unfold loadProject. rewrite Hfile. simpl.
  exists (parse_project (stringify_project p0)).
  refine (conj eq_refl (conj _ (conj _ _))).
  - apply lookup_insert_eq.
  - apply stringify_parse_project.
  - unfold persist. simpl. rewrite lookup_insert_eq.
    rewrite parse_project_never_throws.
    destruct (writable st); [|done]. simpl.
    rewrite stringify_parse_project. by apply insert_id.
Qed.

Lemma resave_after_reload_keeps_file_witness :
  ∃ p0, files scoredStore !! fileKey "p-1" = Some (stringify_project p0)
        ∧ getArtifact "p-1" "score" scoredStore = VNonFinite
        ∧ getArtifact "p-1" "score" (loadProject "p-1" scoredStore).2 = VNull
        ∧ files (persist "p-1" (loadProject "p-1" scoredStore).2)
          = files scoredStore.
Proof.
  assert (H : ∃ p0, projects scoredStore !! "p-1" = Some p0
                    ∧ files scoredStore !! fileKey "p-1"
                      = Some (stringify_project p0)).
  { eexists. split; vm_compute; reflexivity. }
  destruct H as (p0 & _ & Hfile). exists p0.
  destruct (resave_after_reload_keeps_file "p-1" p0 scoredStore Hfile)
    as (p' & _ & _ & _ & Hsame).
  refine (conj Hfile (conj _ (conj _ Hsame))); vm_compute; reflexivity.
Defined.

(** *** What every call keeps *)

(** The project that a mutating call leaves holds no value that
    [JSON.stringify] refuses if the project that it found held none and the
    call hands in none. *)
Lemma none_throws_insert {A : Type} (f : A → bool) (k : string) (v : A)
  (m : gmap string A) :
  f v = false →
  existsb (fun kv => f kv.2) (map_to_list m) = false →
  existsb (fun kv => f kv.2) (map_to_list (<[k := v]> m)) = false.
Proof.
  rewrite !none_throws. intros Hv Hm. by apply map_Forall_insert_2.
Qed.

Lemma mutated_never_throws (now : Z) (m : Mutation) (p : ProjectContext.t) :
  storable (Mutate now m) → project_throws p = false →
  project_throws (mutated now m p) = false.
Proof.
  unfold project_throws. rewrite !orb_false_iff.
  intros Hm ((((Hts & Hph) & Har) & Hco) & Hme).
  destruct m as [pid v|pid phaseName d|pid k v|pid r msg md|pid k v];
    cbn in Hm |- *; (split; [split; [split; [split|]|]|]); try done.
  - destruct Hm as (_ & Hs & Hc & Hr & Ha).
    apply none_throws_insert; [|done].
    assert (Hold : phase_throws
                     (default (pending_phase phaseName)
                        (ProjectContext.phases p !! phaseName)) = false).
    { destruct (ProjectContext.phases p !! phaseName) as [old|] eqn:Hold;
        [|done].
      simpl. apply none_throws in Hph. exact (Hph _ _ Hold). }
    revert Hold. generalize (default (pending_phase phaseName)
                               (ProjectContext.phases p !! phaseName)).
    intros old. unfold phase_throws. rewrite !orb_false_iff.
    intros (((Ho1 & Ho2) & Ho3) & Ho4).
    destruct d as [? ? [s|] [c|] [r|] [a|] ?]; cbn in *; done.
  - destruct Hm as [_ Hv]. by apply none_throws_insert.
  - rewrite existsb_app, Hco. cbn. by rewrite Hm.
  - destruct Hm as [_ Hv]. by apply none_throws_insert.
Qed.

Lemma in_sync_set_persist (projectId : string) (p : ProjectContext.t)
  (st : MemoryStore.t) :
  writable st = true → plain_id projectId → project_throws p = false →
  in_sync st →
  in_sync (persist projectId (set_project projectId p st)).
Proof.
  intros Hw Hid Ht [Hmem Hfiles]. split.
  - intros q x. rewrite persist_projects. cbn.
    destruct (decide (q = projectId)) as [->|Hq].
    + rewrite lookup_insert_eq. by intros [= <-].
    + rewrite lookup_insert_ne by done. apply Hmem.
  - intros key. rewrite persist_projects.
    rewrite (persist_files_written projectId p); cbn;
      [|apply lookup_insert_eq|done|done].
    rewrite (plain_fileKey _ Hid).
    destruct (decide (key = projectId)) as [->|Hq].
    + by rewrite !lookup_insert_eq.
    + rewrite !lookup_insert_ne by done. apply Hfiles.
Qed.

Lemma in_sync_exec (op : Op) (st : MemoryStore.t) :
  writable st = true → storable op → in_sync st → in_sync (exec op st).
Proof.
  intros Hw Hop Hsync.
  destruct op as [now uuid pi pn ts|now m|pid|pid|pid|v]; simpl.
  - destruct Hop as [Hid Hts]. unfold createProject. cbn zeta.
    match goal with
    | |- context [persist uuid ?st2] =>
        change st2 with
          (set_project uuid (createProject now uuid pi pn ts st).1
             {| projects := projects st;
                currentProjectId := Some uuid;
                files := files st;
                writable := writable st |})
    end.
    apply in_sync_set_persist; try done.
    unfold project_throws. cbn. rewrite Hts.
    by rewrite !map_to_list_empty.
  - destruct (projects st !! target m) as [p|] eqn:Hp.
    + rewrite (apply_found now m p st Hp).
      destruct (proj1 Hsync _ _ Hp) as [Hid Ht].
      apply in_sync_set_persist; try done.
      by apply mutated_never_throws.
    + by rewrite apply_missing.
  - destruct Hsync as [Hmem Hfiles]. cbn in Hop.
    unfold deleteProject, deletePersisted. cbn.
    rewrite (plain_fileKey _ Hop), Hw.
    destruct (files st !! pid) as [d|] eqn:Hd.
    + split; cbn.
      * intros q x Hq. apply lookup_delete_Some in Hq as [_ Hq].
        by apply (Hmem q x).
      * intros key. destruct (decide (key = pid)) as [->|Hq].
        -- by rewrite !lookup_delete_eq.
        -- rewrite !lookup_delete_ne by done. apply Hfiles.
    + assert (Hnone : projects st !! pid = None).
      { specialize (Hfiles pid). rewrite Hd in Hfiles.
        by destruct (projects st !! pid). }
      rewrite delete_id by done. split; [done|]. apply Hfiles.
  - unfold setCurrentProject. by destruct (projects st !! pid).
  - destruct Hsync as [Hmem Hfiles]. cbn in Hop.
    unfold loadProject. rewrite (plain_fileKey _ Hop).
    destruct (files st !! pid) as [d|] eqn:Hd; [|done].
    split; cbn.
    + intros q x. destruct (decide (q = pid)) as [->|Hq].
      * rewrite lookup_insert_eq. intros [= <-].
        split; [done | apply parse_project_never_throws].
      * rewrite lookup_insert_ne by done. apply Hmem.
    + intros key. destruct (decide (key = pid)) as [->|Hq].
      * rewrite lookup_insert_eq. simpl. by rewrite stringify_parse_project.
      * rewrite lookup_insert_ne by done. apply Hfiles.
  - done.
Qed.

Lemma exec_writable (op : Op) (st : MemoryStore.t) :
  op ≠ Disk false → writable st = true → writable (exec op st) = true.
Proof.
  intros Hop Hw.
  destruct op as [now uuid pi pn ts|now m|pid|pid|pid|v]; simpl.
  - unfold createProject. cbn. by rewrite persist_writable.
  - by rewrite apply_writable.
  - unfold deleteProject, deletePersisted. cbn.
    destruct (files st !! fileKey pid); [|done]. by destruct (writable st).
  - unfold setCurrentProject. by destruct (projects st !! pid).
  - unfold loadProject. by destruct (files st !! fileKey pid).
  - by destruct v.
Qed.

Lemma in_sync_exec_all (ops : list Op) (st : MemoryStore.t) :
  writable st = true → keeps_writing ops → Forall storable ops →
  in_sync st →
  in_sync (exec_all ops st) ∧ writable (exec_all ops st) = true.
Proof.
  revert st. induction ops as [|op ops IH]; intros st Hw Hk Hs Hsync;
    [done|].
  apply Forall_cons in Hk as [Hk1 Hk]. apply Forall_cons in Hs as [Hs1 Hs].
  simpl. apply IH; [by apply exec_writable | done | done |].
  by apply in_sync_exec.
Qed.

(** X2.  As long as the file system carries out the writes, the ids are
    plain ones, the keys ordinary ones and no value handed in is one that
    [JSON.stringify] refuses, whatever calls are made on the store a project
    is in memory exactly when it has a file in the directory, and the file
    holds the document of what is in memory: no call leaves a change unsaved
    or a file behind. *)
Theorem store_and_directory_stay_in_sync (ops : list Op)
  (st : MemoryStore.t) :
  writable st = true → keeps_writing ops → Forall storable ops →
  in_sync st → in_sync (exec_all ops st).
Proof. intros Hw Hk Hs Hsync. by apply in_sync_exec_all. Qed.

Lemma store_and_directory_stay_in_sync_witness :
  writable MemoryStore.new = true
  ∧ keeps_writing sampleOps
  ∧ Forall storable sampleOps
  ∧ in_sync MemoryStore.new
  ∧ in_sync (exec_all sampleOps MemoryStore.new)
  ∧ dom (files (exec_all sampleOps MemoryStore.new)) = {["p-1"]}.
Proof.
  assert (H0 : writable MemoryStore.new = true) by reflexivity.
  assert (H1 : keeps_writing sampleOps) by (repeat constructor; discriminate).
  assert (H2 : Forall storable sampleOps) by (repeat constructor).
  assert (H : in_sync MemoryStore.new).
  { split; [intros q x Hq; cbn in Hq; by rewrite lookup_empty in Hq|].
    intros q; cbn [files projects MemoryStore.new];
      by rewrite !lookup_empty. }
  refine (conj H0 (conj H1 (conj H2 (conj H (conj _ _))))).
  - exact (store_and_directory_stay_in_sync sampleOps MemoryStore.new
             H0 H1 H2 H).
  - by vm_compute.
Defined.

Lemma pointer_tracked_exec (op : Op) (st : MemoryStore.t) :
  pointer_tracked st → pointer_tracked (exec op st).
Proof.
  intros Hptr q.
  destruct op as [now uuid pi pn ts|now m|pid|pid|pid|v]; simpl.
  - unfold createProject. cbn zeta. cbn [snd].
    rewrite persist_projects, persist_currentProjectId. cbn.
    intros [= <-]. by rewrite lookup_insert_eq.
  - rewrite apply_currentProjectId.
    destruct (projects st !! target m) as [p|] eqn:Hp.
    + rewrite (apply_projects now m p st Hp). intros Hq.
      destruct (decide (q = target m)) as [->|Hne].
      * by rewrite lookup_insert_eq.
      * rewrite lookup_insert_ne by done. by apply Hptr.
    + rewrite apply_missing by done. apply Hptr.
  - assert (Hp : projects (deleteProject pid st) = delete pid (projects st)
                 ∧ currentProjectId (deleteProject pid st)
                   = if decide (currentProjectId st = Some pid) then None
                     else currentProjectId st).
    { unfold deleteProject, deletePersisted. cbn.
      destruct (files st !! fileKey pid); [|done].
      by destruct (writable st). }
    destruct Hp as [-> ->].
    destruct (decide (currentProjectId st = Some pid)) as [Hcur|Hcur];
      [done|].
    intros Hq. rewrite lookup_delete_ne by congruence. by apply Hptr.
  - unfold setCurrentProject.
    destruct (projects st !! pid) as [p|] eqn:Hp; [|apply Hptr].
    simpl. intros [= <-]. by rewrite Hp.
  - unfold loadProject.
    destruct (files st !! fileKey pid) as [d|]; [|apply Hptr].
    simpl. intros Hq. destruct (decide (q = pid)) as [->|Hne].
    + by rewrite lookup_insert_eq.
    + rewrite lookup_insert_ne by done. by apply Hptr.
  - apply Hptr.
Qed.

Lemma pointer_tracked_exec_all (ops : list Op) (st : MemoryStore.t) :
  pointer_tracked st → pointer_tracked (exec_all ops st).
Proof.
  revert st. induction ops as [|op ops IH]; intros st Hptr; [done|].
  simpl. apply IH. by apply pointer_tracked_exec.
Qed.


(** X3.  Whatever calls are made on the store, the current-project
    pointer names a project that is in memory: [getCurrentProject] answers
    [null] only when no project is selected, or the selected id is the empty
    string. *)
Theorem current_pointer_never_dangles (ops : list Op) (st : MemoryStore.t) :
  pointer_tracked st →
  pointer_tracked (exec_all ops st)
  ∧ (getCurrentProject (exec_all ops st) = None →
     currentProjectId (exec_all ops st) = None
     ∨ currentProjectId (exec_all ops st) = Some "").
Proof.
  intros Hptr.
  assert (Hall : pointer_tracked (exec_all ops st))
    by (by apply pointer_tracked_exec_all).
  split; [done|]. unfold getCurrentProject.
  destruct (currentProjectId (exec_all ops st)) as [cur|] eqn:Hcur;
    [|by left].
  destruct (decide (cur = "")) as [->|Hne]; [by right|].
  intros Hnone. destruct (Hall cur Hcur) as [p Hp]. congruence.
Qed.

Lemma current_pointer_never_dangles_witness :
  pointer_tracked MemoryStore.new
  ∧ pointer_tracked (exec_all sampleOps MemoryStore.new)
  ∧ currentProjectId (exec_all sampleOps MemoryStore.new) = Some "p-1".
Proof.
  assert (H : pointer_tracked MemoryStore.new) by (intros q; discriminate).
  refine (conj H (conj _ _)).
  - exact (proj1 (current_pointer_never_dangles sampleOps MemoryStore.new H)).
  - by vm_compute.
Defined.

Lemma deleteProject_memory (projectId : string) (st : MemoryStore.t) :
  projects (deleteProject projectId st) = delete projectId (projects st)
  ∧ currentProjectId (deleteProject projectId st)
    = (if decide (currentProjectId st = Some projectId) then None
       else currentProjectId st)
  ∧ writable (deleteProject projectId st) = writable st.
Proof.
  unfold deleteProject, deletePersisted. cbn.
  destruct (files st !! fileKey projectId); [|done].
  by destruct (writable st).
Qed.

(** X4.  [deleteProject] forgets the project in memory: it can no longer
    be looked up, every mutating call on it is without effect, and it is no
    longer current if it was; the other projects and a pointer to one of
    them stay as they are.  Of the directory it touches the file that the
    id names and no other: when the file system carries out the removal that
    file is gone, so that the project cannot be loaded again; when it does
    not, the removal is logged and the file stays as it was.  An id with a
    path in it can name the file of another project, which is then the file
    that goes. *)
Theorem deleteProject_forgets (projectId : string) (st : MemoryStore.t) :
  getProject projectId (deleteProject projectId st) = None
  ∧ (∀ now m, target m = projectId →
              apply now m (deleteProject projectId st)
              = deleteProject projectId st)
  ∧ (∀ q, q ≠ projectId →
          getProject q (deleteProject projectId st) = getProject q st)
  ∧ (∀ key, key ≠ fileKey projectId →
            files (deleteProject projectId st) !! key = files st !! key)
  ∧ getCurrentProject (deleteProject projectId st)
    = (if decide (currentProjectId st = Some projectId) then None
       else getCurrentProject st)
  ∧ (if writable st
     then files (deleteProject projectId st) !! fileKey projectId = None
          ∧ loadProject projectId (deleteProject projectId st)
            = (None, deleteProject projectId st)
     else files (deleteProject projectId st) = files st).
Proof.
  destruct (deleteProject_memory projectId st) as (Hp & Hc & Hw).
  refine (conj _ (conj _ (conj _ (conj _ (conj _ _))))).
  - unfold getProject. rewrite Hp. apply lookup_delete_eq.
  - intros now m <-. apply apply_missing. rewrite Hp.
    apply lookup_delete_eq.
  - intros q Hq. unfold getProject. rewrite Hp. by rewrite lookup_delete_ne.
  - intros key Hkey. unfold deleteProject, deletePersisted. cbn.
    destruct (files st !! fileKey projectId); [|done].
    destruct (writable st); [|done]. cbn. by rewrite lookup_delete_ne.
  - unfold getCurrentProject. rewrite Hc, Hp.
    destruct (decide (currentProjectId st = Some projectId)) as [Hcur|Hcur];
      [done|].
    destruct (currentProjectId st) as [cur|]; [|done].
    destruct (decide (cur = "")); [done|].
    rewrite lookup_delete_ne; [done|congruence].
  - destruct (writable st) eqn:Hwr.
    + assert (Hgone : files (deleteProject projectId st) !! fileKey projectId
                      = None).
      { unfold deleteProject, deletePersisted. cbn. rewrite Hwr.
        destruct (files st !! fileKey projectId) eqn:Hf; [|done].
        cbn. apply lookup_delete_eq. }
      split; [done|]. unfold loadProject. by rewrite Hgone.
    + unfold deleteProject, deletePersisted. cbn. rewrite Hwr.
      by destruct (files st !! fileKey projectId).
Qed.

(** *** What the mutating calls keep *)

Lemma mutated_identity (now : Z) (m : Mutation) (p : ProjectContext.t) :
  identity (mutated now m p) = identity p.
Proof. by destruct m. Qed.

(** X5.  No run of mutating calls creates or drops a project, or changes
    what a project is: the ids in memory and, for each, the id, the purpose,
    the tech stack and the creation time are as they were. *)
Theorem mutations_keep_identity (ms : list (Z * Mutation))
  (st : MemoryStore.t) :
  identity <$> projects (apply_all ms st) = identity <$> projects st.
Proof.
  revert st. induction ms as [|[now m] ms IH]; intros st; [done|].
  unfold apply_all in *. simpl. rewrite IH. clear IH.
  destruct (projects st !! target m) as [p|] eqn:Hp.
  - rewrite (apply_projects now m p st Hp).
    rewrite fmap_insert, mutated_identity.
    apply insert_id. by rewrite lookup_fmap, Hp.
  - by rewrite apply_missing.
Qed.

Lemma mutated_conversation (now : Z) (m : Mutation) (p : ProjectContext.t) :
  ProjectContext.conversationHistory (mutated now m p)
  = ProjectContext.conversationHistory p ++ spoken (target m) [(now, m)].
Proof.
  destruct m; simpl; try (by rewrite app_nil_r).
  by rewrite decide_True.
Qed.

Lemma spoken_other (projectId : string) (now : Z) (m : Mutation) :
  target m ≠ projectId → spoken projectId [(now, m)] = [].
Proof.
  intros Hne. destruct m; simpl; try done.
  by rewrite decide_False.
Qed.

Lemma spoken_cons (projectId : string) (tm : Z * Mutation)
  (ms : list (Z * Mutation)) :
  spoken projectId (tm :: ms) = spoken projectId [tm] ++ spoken projectId ms.
Proof.
  unfold spoken. change (tm :: ms) with ([tm] ++ ms). by rewrite omap_app.
Qed.

(** X6.  The conversation history is an append-only log: after any run
    of mutating calls the history of a project in memory is the history it
    had, followed by the entries of the [addConversation] calls made on it,
    in the order of the calls and with the times of the calls. *)
Theorem conversation_is_append_only (ms : list (Z * Mutation))
  (projectId : string) (st : MemoryStore.t) :
  is_Some (projects st !! projectId) →
  getConversationHistory projectId (apply_all ms st)
  = getConversationHistory projectId st ++ spoken projectId ms.
Proof.
  revert st. induction ms as [|[now m] ms IH]; intros st Hsome.
  - simpl. by rewrite app_nil_r.
  - unfold apply_all in *. simpl foldl.
    rewrite spoken_cons, app_assoc.
    destruct (projects st !! target m) as [p|] eqn:Hp.
    + rewrite IH.
      * f_equal. unfold getConversationHistory.
        rewrite (apply_projects now m p st Hp).
        destruct (decide (projectId = target m)) as [->|Hne].
        -- rewrite lookup_insert_eq, Hp. apply mutated_conversation.
        -- rewrite lookup_insert_ne by done.
           rewrite spoken_other by done. by rewrite app_nil_r.
      * rewrite (apply_projects now m p st Hp).
        destruct (decide (projectId = target m)) as [->|Hne].
        -- by rewrite lookup_insert_eq.
        -- by rewrite lookup_insert_ne.
    + rewrite apply_missing by done. rewrite IH by done. f_equal.
      rewrite spoken_other; [by rewrite app_nil_r|].
      intros <-. destruct Hsome as [? Hsome]. congruence.
Qed.

Lemma conversation_is_append_only_witness :
  is_Some (projects sampleStore !! "p-1")
  ∧ getConversationHistory "p-1" (apply_all sampleMutations sampleStore)
    = [ConversationEntry.mk 5 user "build me a web app" VUndefined].
Proof.
  assert (H : is_Some (projects sampleStore !! "p-1"))
    by (eexists; vm_compute; reflexivity).
  split; [exact H|].
  rewrite (conversation_is_append_only sampleMutations "p-1" sampleStore H).
  vm_compute. reflexivity.
Defined.

(** X7.  An artifact that is stored under an ordinary key (none of the
    names that an object inherits, such as "__proto__" or "constructor") is
    the artifact that is read, for a project in memory: [getArtifact] after
    [storeArtifact] answers the value stored under that key, whatever it is,
    and what it answers for any other project or ordinary key is as before.
    For a project that is not in memory nothing is stored and [undefined] is
    read. *)
Theorem artifact_stored_is_artifact_read (now : Z)
  (projectId artifactKey : string) (artifactData : JsVal)
  (st : MemoryStore.t) :
  ordinaryKey artifactKey = true →
  (is_Some (projects st !! projectId) →
   getArtifact projectId artifactKey
     (storeArtifact now projectId artifactKey artifactData st)
   = artifactData)
  ∧ (projects st !! projectId = None →
     getArtifact projectId artifactKey
       (storeArtifact now projectId artifactKey artifactData st)
     = VUndefined)
  ∧ (∀ q k, ordinaryKey k = true → (q, k) ≠ (projectId, artifactKey) →
            getArtifact q k
              (storeArtifact now projectId artifactKey artifactData st)
            = getArtifact q k st).
Proof.
  intros _.
  pose proof (apply_projects now
                (StoreArtifact projectId artifactKey artifactData)) as Hk.
  pose proof (apply_missing now
                (StoreArtifact projectId artifactKey artifactData)) as Hm.
  simpl in Hk, Hm.
  refine (conj _ (conj _ _)).
  - intros [p Hp]. unfold getArtifact. rewrite (Hk p st Hp).
    rewrite lookup_insert_eq. simpl. by rewrite lookup_insert_eq.
  - intros Hp. rewrite (Hm st Hp). unfold getArtifact. by rewrite Hp.
  - intros q k _ Hne. destruct (projects st !! projectId) as [p|] eqn:Hp.
    + unfold getArtifact. rewrite (Hk p st Hp).
      destruct (decide (q = projectId)) as [->|Hq].
      * rewrite lookup_insert_eq, Hp. simpl.
        rewrite lookup_insert_ne; [done|]. congruence.
      * by rewrite lookup_insert_ne.
    + by rewrite (Hm st Hp).
Qed.

Lemma artifact_stored_is_artifact_read_witness :
  ordinaryKey "score" = true
  ∧ getArtifact "p-1" "score"
      (storeArtifact 2 "p-1" "score" VNonFinite sampleStore) = VNonFinite
  ∧ getArtifact "p-1" "notes"
      (storeArtifact 2 "p-1" "score" VNonFinite sampleStore) = VUndefined.
Proof.
  assert (H : ordinaryKey "score" = true) by reflexivity.
  destruct (artifact_stored_is_artifact_read 2 "p-1" "score" VNonFinite
              sampleStore H) as (Hread & _ & Hframe).
  refine (conj H (conj _ _)).
  - apply Hread. eexists. vm_compute. reflexivity.
  - rewrite Hframe; [by vm_compute | reflexivity | discriminate].
Defined.

(** *** A later run of the program *)

Lemma endsWith_append (suffix s : string) :
  endsWith suffix (s +:+ suffix) = true.
Proof.
  induction s as [|c s IH].
  - change ("" +:+ suffix) with suffix.
    destruct suffix; cbn [endsWith]; by rewrite String.eqb_refl.
  - change (String c s +:+ suffix) with (String c (s +:+ suffix)).
    cbn [endsWith]. by destruct (String.eqb _ _).
Qed.

Lemma loadAll_fold (names : list string) (st : MemoryStore.t) :
  (∀ f, f ∈ names →
        is_Some (files st !! removeFirstOccurrence ".json" f)
        ∧ fileKey (removeFirstOccurrence ".json" f)
          = removeFirstOccurrence ".json" f) →
  let st' :=
    foldl (fun acc file =>
             (loadProject (removeFirstOccurrence ".json" file) acc).2)
          st names in
  files st' = files st
  ∧ currentProjectId st' = currentProjectId st
  ∧ ∀ q, projects st' !! q
         = if bool_decide (q ∈ removeFirstOccurrence ".json" <$> names)
           then parse_project <$> files st !! q
           else projects st !! q.
Proof.
  revert st. induction names as [|f names IH]; intros st Hnames; cbn zeta.
  - by refine (conj _ (conj _ _)).
  - simpl foldl.
    destruct (Hnames f ltac:(left)) as [[d Hd] Hkey].
    set (pid := removeFirstOccurrence ".json" f) in *.
    assert (Hload : (loadProject pid st).2 = set_project pid (parse_project d) st)
      by (unfold loadProject; by rewrite Hkey, Hd).
    rewrite Hload.
    destruct (IH (set_project pid (parse_project d) st)) as (Hf & Hc & Hp).
    { intros f' Hf'. simpl. apply Hnames. by right. }
    refine (conj Hf (conj Hc _)). intros q. rewrite Hp.
    cbn [projects files set_project]. rewrite fmap_cons. fold pid.
    destruct (decide (q ∈ removeFirstOccurrence ".json" <$> names))
      as [Hin|Hin].
    + rewrite !bool_decide_eq_true_2; [done| |done]. by right.
    + rewrite (bool_decide_eq_false_2 _ Hin).
      destruct (decide (q = pid)) as [->|Hq].
      * rewrite lookup_insert_eq, bool_decide_eq_true_2 by (by left).
        by rewrite Hd.
      * rewrite lookup_insert_ne by done.
        rewrite bool_decide_eq_false_2; [done|].
        intros Hin'. apply elem_of_cons in Hin' as [?|?]; done.
Qed.

(** An id without a dot (the character of code 46), such as a UUID, is
    read back from its file name. *)
Lemma dotless_id_from_file (projectId : string) :
  (∀ n, String.get n projectId ≠ Some (Ascii.ascii_of_nat 46)) →
  removeFirstOccurrence ".json" (fileName projectId) = projectId.
Proof.
  unfold fileName. induction projectId as [|c s IH]; intros Hdot.
  - reflexivity.
  - change (String c s +:+ ".json") with (String c (s +:+ ".json")).
    assert (Hc : Ascii.ascii_of_nat 46 ≠ c)
      by (intros <-; by apply (Hdot 0)).
    cbn [removeFirstOccurrence String.prefix].
    destruct (Ascii.ascii_dec _ c) as [Heq|_]; [by destruct Hc|].
    f_equal. apply IH. intros n. apply (Hdot (S n)).
Qed.

(** X8.  A later run of the program finds the projects again but not the
    selection: on a fresh store over the directory of an earlier run,
    [loadAllProjects] reads every document of the directory into memory under
    its id and leaves the directory as it is, but no project is current
    afterwards, since the pointer is not persisted.  The ids are those that
    are read back from their file names; the listing may hold other files. *)
Theorem restart_restores_projects_not_selection (listing : list string)
  (st : MemoryStore.t) :
  lists_files listing st →
  (∀ projectId, is_Some (files st !! projectId) → id_from_file projectId) →
  projects (loadAllProjects listing (reopen st)) = parse_project <$> files st
  ∧ files (loadAllProjects listing (reopen st)) = files st
  ∧ getCurrentProject (loadAllProjects listing (reopen st)) = None.
Proof.
  intros Hlist Hids. unfold loadAllProjects.
  set (names := filter (fun file => endsWith ".json" file = true) listing).
  assert (Hnames : ∀ f, f ∈ names →
            ∃ pid, is_Some (files st !! pid) ∧ f = fileName pid
                   ∧ removeFirstOccurrence ".json" f = pid).
  { intros f Hf. apply list_elem_of_filter in Hf as [Hends Hf].
    destruct (proj1 (Hlist f) (conj Hf Hends)) as (pid & Hsome & ->).
    exists pid.
    by refine (conj Hsome (conj eq_refl (proj1 (Hids pid Hsome)))). }
  destruct (loadAll_fold names (reopen st)) as (Hf & Hc & Hp).
  { intros f Hin. destruct (Hnames f Hin) as (pid & Hsome & _ & ->).
    split; [done|]. exact (proj2 (Hids pid Hsome)). }
  refine (conj _ (conj Hf _)).
  - apply map_eq. intros q. rewrite Hp, lookup_fmap. simpl.
    case_bool_decide as Hin; [done|].
    destruct (files st !! q) as [d|] eqn:Hq; [|by rewrite lookup_empty].
    exfalso. apply Hin. apply list_elem_of_fmap. exists (fileName q).
    split; [symmetry; apply Hids; by rewrite Hq|].
    apply list_elem_of_filter.
    destruct (proj2 (Hlist (fileName q))) as [Hin' Hends]; [|done].
    exists q. by rewrite Hq.
  - unfold getCurrentProject. by rewrite Hc.
Qed.

Lemma restart_restores_projects_not_selection_witness :
  lists_files sampleListing sampleStore
  ∧ (∀ projectId, is_Some (files sampleStore !! projectId) →
                  id_from_file projectId)
  ∧ getCurrentProject sampleStore = getProject "p-1" sampleStore
  ∧ getProject "p-1" (loadAllProjects sampleListing (reopen sampleStore))
    = getProject "p-1" sampleStore
  ∧ getCurrentProject (loadAllProjects sampleListing (reopen sampleStore))
    = None.
Proof.
  assert (Hdom : ∀ pid, is_Some (files sampleStore !! pid) → pid = "p-1").
  { intros pid Hsome. apply elem_of_dom in Hsome.
    assert (Hd : dom (files sampleStore) = {["p-1"]}) by (by vm_compute).
    rewrite Hd in Hsome. by apply elem_of_singleton in Hsome. }
  assert (H1 : lists_files sampleListing sampleStore).
  { intros file. split.
    - intros [Hin Hends]. exists "p-1". split; [eexists; by vm_compute|].
      unfold sampleListing in Hin.
      apply elem_of_cons in Hin as [->|Hin]; [discriminate Hends|].
      by apply list_elem_of_singleton in Hin.
    - intros (pid & Hsome & ->). rewrite (Hdom pid Hsome).
      split; [right; left | reflexivity]. }
  assert (H2 : ∀ projectId, is_Some (files sampleStore !! projectId) →
                            id_from_file projectId).
  { intros pid Hsome. rewrite (Hdom pid Hsome). by split. }
  destruct (restart_restores_projects_not_selection sampleListing sampleStore
              H1 H2) as (Hp & _ & Hcur).
  refine (conj H1 (conj H2 (conj _ (conj _ Hcur)))).
  - by vm_compute.
  - unfold getProject. rewrite Hp. by vm_compute.
Defined.

End StoreInvariants.

(** ** More on the bus and on the core as a whole *)

Module CoreInvariants.
Import JS EventBus Core Spec Samples.
Import EventBusFacts CoreFacts WaitForFacts StoreInvariants.

(** *** The history while listeners run *)
















(** *** The counters of the run time *)






(** *** The store and the definitions under a publish *)


(** *** Every call keeps the core in order *)

Lemma expire_all_frame (fired : list Timer) (s : Core.t) :
  eventHistory (bus (foldl (fun acc tm => expire tm acc) s fired))
  = eventHistory (bus s)
  ∧ maxHistorySize (bus (foldl (fun acc tm => expire tm acc) s fired))
    = maxHistorySize (bus s)
  ∧ store (foldl (fun acc tm => expire tm acc) s fired) = store s
  ∧ flow (foldl (fun acc tm => expire tm acc) s fired) = flow s
  ∧ manager (foldl (fun acc tm => expire tm acc) s fired) = manager s.
Proof.
  revert s. induction fired as [|tm fired IH]; intros s; [done|].
  simpl. destruct (IH (expire tm s)) as (-> & -> & -> & -> & ->).
  unfold expire, settle. by destruct (promises _ !! t_call tm).
Qed.

Lemma advanceTo_frame (T : Z) (s : Core.t) :
  eventHistory (bus (advanceTo T s)) = eventHistory (bus s)
  ∧ maxHistorySize (bus (advanceTo T s)) = maxHistorySize (bus s)
  ∧ store (advanceTo T s) = store s
  ∧ flow (advanceTo T s) = flow s
  ∧ manager (advanceTo T s) = manager s.
Proof.
  unfold advanceTo. cbn zeta.
  by destruct (expire_all_frame
                 (filter (fun tm => (due tm <= Z.max (now s) T)%Z) (timers s))
                 (with_timers
                    (filter (fun tm => ¬ (due tm <= Z.max (now s) T)%Z)
                       (timers s))
                    (with_now (Z.max (now s) T) s)))
    as (-> & -> & -> & -> & ->).
Qed.











End CoreInvariants.

(** ** More on the agent registry *)

Module RegistryInvariants.
Import AgentManager Spec Samples.
Import AgentManagerFacts.

(** *** Counting *)

(** The count that [getStatistics] keeps under a key is the number of
    tracked instances with that key. *)
Lemma count_by {K : Type} `{Countable K} (f : AgentInstance → K)
  (am : gmap string AgentInstance) (k : K) :
  default 0 (map_fold (fun _ i acc => bump (f i) acc) ∅ am !! k)
  = length (filter (fun i => f i = k) (map_to_list am).*2).
Proof.
  revert k.
  apply (map_fold_weak_ind
           (fun (acc : gmap K nat) (am : gmap string AgentInstance) =>
              ∀ k, default 0 (acc !! k)
                   = length (filter (fun i => f i = k) (map_to_list am).*2))).
  - intros k. by rewrite map_to_list_empty.
  - intros i x am' acc Hi IH k.
    assert (Hperm : filter (fun i => f i = k) (map_to_list (<[i:=x]> am')).*2
                    ≡ₚ filter (fun i => f i = k)
                         (x :: (map_to_list am').*2)).
    { apply filter_Permutation.
      rewrite (map_to_list_insert am' i x Hi). done. }
    rewrite Hperm. unfold bump. rewrite filter_cons.
    destruct (decide (f x = k)) as [<-|Hne].
    + rewrite lookup_insert_eq. simpl. rewrite <- IH. lia.
    + rewrite lookup_insert_ne by done. apply IH.
Qed.

Lemma active_split (l : list AgentInstance) :
  length (filter (fun i => isActive i = true) l)
  = length (filter (fun i => status i = idle) l)
    + length (filter (fun i => status i = working) l).
Proof.
  induction l as [|x l IH]; [done|].
  rewrite !filter_cons.
  destruct (decide (isActive x = true)) as [Ha|Ha],
           (decide (status x = idle)) as [Hi|Hi],
           (decide (status x = working)) as [Hw|Hw];
    unfold isActive in Ha; destruct (status x); simplify_eq; simpl; lia.
Qed.

(** X12.  The statistics agree with the queries, whatever the registry
    holds: the counts by role add up to the total, the instances counted as
    idle or working are as many as [getActiveAgents] returns, and these with
    the completed and the failed ones are all the instances. *)
Theorem statistics_agree_with_queries (m : AgentManager.t) :
  sum_counts (byRole (getStatistics m)) = total (getStatistics m)
  ∧ default 0 (byStatus (getStatistics m) !! idle)
    + default 0 (byStatus (getStatistics m) !! working)
    = length (getActiveAgents m)
  ∧ default 0 (byStatus (getStatistics m) !! completed)
    + default 0 (byStatus (getStatistics m) !! failed)
    + length (getActiveAgents m)
    = total (getStatistics m).
Proof.
  assert (Hactive :
            default 0 (byStatus (getStatistics m) !! idle)
            + default 0 (byStatus (getStatistics m) !! working)
            = length (getActiveAgents m)).
  { unfold getStatistics, getActiveAgents. cbn [byStatus].
    by rewrite !count_by, active_split. }
  refine (conj (byRole_sums_to_size m) (conj Hactive _)).
  rewrite <- Hactive. cbn [total getStatistics].
  rewrite <- (byStatus_sums_to_size m).
  set (counts := byStatus (getStatistics m)).
  assert (Hsum : ∀ c : gmap AgentStatus nat,
            sum_counts c
            = default 0 (c !! idle) + default 0 (c !! working)
              + default 0 (c !! completed) + default 0 (c !! failed)).
  { intros c.
    assert (Hstep : ∀ (k : AgentStatus) (c' : gmap AgentStatus nat),
              sum_counts c' = default 0 (c' !! k) + sum_counts (delete k c')).
    { intros k c'. destruct (c' !! k) as [n|] eqn:Hk; simpl.
      - by apply sum_counts_delete.
      - by rewrite delete_id. }
    rewrite (Hstep idle c), (Hstep working (delete idle c)),
      (Hstep completed (delete working (delete idle c))),
      (Hstep failed (delete completed (delete working (delete idle c)))).
    rewrite !lookup_delete_ne by done.
    assert (Hempty : delete failed
                       (delete completed (delete working (delete idle c)))
                     = ∅).
    { apply map_eq. intros k. rewrite lookup_empty.
      destruct k; [ rewrite !lookup_delete_ne by done
                  | rewrite !lookup_delete_ne by done
                  | rewrite lookup_delete_ne by done | ];
        apply lookup_delete_eq. }
    rewrite Hempty. unfold sum_counts at 1. rewrite map_fold_empty. lia. }
  rewrite (Hsum counts). lia.
Qed.

(** *** The role index *)

Lemma removeFirst_spec (a : string) (l : list string) :
  NoDup l →
  NoDup (removeFirst a l) ∧ ∀ i, i ∈ removeFirst a l ↔ i ∈ l ∧ i ≠ a.
Proof.
  induction l as [|x l IH]; intros Hnd.
  - split; [constructor|]. intros i. simpl. split; [|by intros [? _]].
    intros Hin. by apply elem_of_nil in Hin.
  - apply NoDup_cons in Hnd as [Hx Hnd]. destruct (IH Hnd) as [IH1 IH2].
    simpl. destruct (decide (x = a)) as [->|Hne].
    + split; [done|]. intros i. rewrite elem_of_cons. split.
      * intros Hin. split; [by right|]. by intros ->.
      * intros [[->|Hin] Hi]; done.
    + split.
      * apply NoDup_cons. split; [|done]. rewrite IH2. by intros [? _].
      * intros i. rewrite !elem_of_cons, IH2. split.
        -- intros [->|[Hin Hi]]; [by split; [left|] | by split; [right|]].
        -- intros [[->|Hin] Hi]; [by left | by right].
Qed.

Lemma indexed_new : indexed AgentManager.new.
Proof.
  split.
  - intros i inst Hi. simpl in Hi. by rewrite lookup_empty in Hi.
  - intros r. simpl. rewrite lookup_empty. simpl. split; [constructor|].
    intros i. split; [intros Hin; by apply elem_of_nil in Hin|].
    intros (inst & Hi & _). by rewrite lookup_empty in Hi.
Qed.

Lemma indexed_setStatus (agentId : string) (v : AgentStatus)
  (m : AgentManager.t) :
  indexed m → indexed (setStatus agentId v m).
Proof.
  intros [Hid Hidx]. split.
  - intros i inst. simpl. destruct (decide (i = agentId)) as [->|Hne].
    + rewrite lookup_alter_eq. destruct (agents m !! agentId) as [x|] eqn:Hx;
        [|done].
      simpl. intros [= <-]. simpl. by apply Hid.
    + rewrite lookup_alter_ne by done. apply Hid.
  - intros r. destruct (Hidx r) as [Hnd Hiff]. split; [done|].
    intros i. rewrite Hiff. simpl. destruct (decide (i = agentId)) as [->|Hne].
    + rewrite lookup_alter_eq. destruct (agents m !! agentId) as [x|]; simpl.
      * split; intros (inst & [= <-] & Hr); by eexists.
      * split; by intros (inst & ? & _).
    + by rewrite lookup_alter_ne.
Qed.

Lemma indexed_step (c : Call) (m : AgentManager.t) :
  indexed m →
  match c with
  | CreateAgent _ uuid _ _ _ => agents m !! uuid = None
  | _ => True
  end →
  indexed (step c m).
Proof.
  intros Hind Hfresh.
  destruct c as [now uuid r cfg worker|agentId|agentId ok|agentId| ];
    cbn [step].
  - destruct Hind as [Hid Hidx]. unfold createAgent. cbn [snd]. split.
    + intros i inst. simpl. destruct (decide (i = uuid)) as [->|Hne].
      * rewrite lookup_insert_eq. by intros [= <-].
      * rewrite lookup_insert_ne by done. apply Hid.
    + intros r'. simpl. destruct (Hidx r') as [Hnd Hiff].
      destruct (decide (r' = r)) as [->|Hr].
      * rewrite lookup_insert_eq. simpl.
        assert (Hnot : uuid ∉ default [] (agentsByRole m !! r)).
        { rewrite Hiff. intros (inst & Hi & _). congruence. }
        split.
        -- apply NoDup_app. split; [done|]. split; [|apply NoDup_singleton].
           intros i Hi Hi'. apply list_elem_of_singleton in Hi'. by subst i.
        -- intros i. rewrite elem_of_app, list_elem_of_singleton, Hiff.
           destruct (decide (i = uuid)) as [->|Hne].
           ++ rewrite lookup_insert_eq. split; [|by right].
              intros _. by eexists.
           ++ rewrite lookup_insert_ne by done. split; [|by left].
              by intros [?|?].
      * rewrite lookup_insert_ne by done. split; [done|].
        intros i. rewrite Hiff. destruct (decide (i = uuid)) as [->|Hne].
        -- rewrite lookup_insert_eq, Hfresh. split.
           ++ by intros (inst & ? & _).
           ++ intros (inst & [= <-] & Hrole). simpl in Hrole. by destruct Hr.
        -- by rewrite lookup_insert_ne.
  - by apply indexed_setStatus.
  - by apply indexed_setStatus.
  - unfold removeAgent. destruct (agents m !! agentId) as [inst|] eqn:Hinst;
      [|done].
    destruct Hind as [Hid Hidx]. split.
    + intros i x. simpl. destruct (decide (i = agentId)) as [->|Hne].
      * by rewrite lookup_delete_eq.
      * rewrite lookup_delete_ne by done. apply Hid.
    + intros r'. simpl. destruct (Hidx r') as [Hnd Hiff].
      destruct (decide (r' = role inst)) as [->|Hr].
      * rewrite lookup_alter_eq.
        destruct (removeFirst_spec agentId
                    (default [] (agentsByRole m !! role inst)) Hnd)
          as [Hnd' Hiff'].
        destruct (agentsByRole m !! role inst) as [l|] eqn:Hl; simpl in *.
        -- split; [done|]. intros i. rewrite Hiff', Hiff.
           destruct (decide (i = agentId)) as [->|Hne].
           ++ rewrite lookup_delete_eq. split; [by intros [_ ?]|].
              by intros (x & ? & _).
           ++ rewrite lookup_delete_ne by done. split; [by intros [? _]|done].
        -- split; [constructor|]. intros i. split.
           ++ intros Hin. by apply elem_of_nil in Hin.
           ++ intros (x & Hx & Hrole).
              destruct (decide (i = agentId)) as [->|Hne].
              ** by rewrite lookup_delete_eq in Hx.
              ** rewrite lookup_delete_ne in Hx by done.
                 apply (proj2 (Hiff i)). by exists x.
      * rewrite lookup_alter_ne by done. split; [done|].
        intros i. rewrite Hiff. destruct (decide (i = agentId)) as [->|Hne].
        -- rewrite lookup_delete_eq, Hinst. split.
           ++ intros (x & [= <-] & Hrole). by destruct Hr.
           ++ by intros (x & ? & _).
        -- by rewrite lookup_delete_ne.
  - apply indexed_new.
Qed.

Lemma indexed_run (cs : list Call) (m : AgentManager.t) :
  indexed m → fresh_calls cs m → indexed (run cs m).
Proof.
  revert m. induction cs as [|c cs IH]; intros m Hind Hfresh; [done|].
  destruct Hfresh as [Hc Hfresh]. unfold run in *. simpl.
  apply IH; [|done]. by apply indexed_step.
Qed.

(** The instances of a registry whose index is in order are all
    different. *)
Lemma indexed_values_NoDup (m : AgentManager.t) :
  indexed m → NoDup (map_to_list (agents m)).*2.
Proof.
  intros [Hid _]. apply (NoDup_fmap_1 id).
  assert (Heq : id <$> (map_to_list (agents m)).*2
                = (map_to_list (agents m)).*1).
  { rewrite <- list_fmap_compose. apply list_fmap_ext.
    intros k [i inst] Hk. simpl.
    apply (Hid i inst), elem_of_map_to_list, (list_elem_of_lookup_2 _ k).
    exact Hk. }
  rewrite Heq. apply NoDup_fst_map_to_list.
Qed.

Lemma omap_NoDup {A B : Type} (f : A → option B) (l : list A) :
  NoDup l → (∀ i j x, f i = Some x → f j = Some x → i = j) →
  NoDup (omap f l).
Proof.
  intros Hnd Hinj. induction Hnd as [|i l Hi Hnd IH]; [constructor|].
  simpl. destruct (f i) as [x|] eqn:Hx; [|done].
  simpl. apply NoDup_cons. split; [|done].
  rewrite list_elem_of_omap. intros (j & Hj & Hx').
  by rewrite (Hinj i j x Hx Hx') in Hi.
Qed.

(** What [getAgentsByRole] returns when the index is in order. *)
Lemma indexed_query (r : AgentRole) (m : AgentManager.t) :
  indexed m →
  getAgentsByRole r m
  ≡ₚ filter (fun inst => role inst = r) (map_to_list (agents m)).*2.
Proof.
  intros Hind. pose proof Hind as [Hid Hidx].
  destruct (Hidx r) as [Hnd Hiff].
  assert (Hin : ∀ inst, inst ∈ getAgentsByRole r m
                        ↔ agents m !! id inst = Some inst ∧ role inst = r).
  { intros inst. unfold getAgentsByRole. rewrite list_elem_of_omap. split.
    - intros (i & Hi & Hget). pose proof (Hid i inst Hget) as <-.
      split; [done|]. apply Hiff in Hi as (inst' & Hget' & Hr). congruence.
    - intros [Hget Hr]. exists (id inst). split; [|done].
      apply Hiff. by exists inst. }
  apply NoDup_Permutation.
  - unfold getAgentsByRole. apply omap_NoDup; [done|].
    intros i j inst Hi Hj. by rewrite <- (Hid i inst Hi), <- (Hid j inst Hj).
  - apply NoDup_filter, indexed_values_NoDup, Hind.
  - intros inst. rewrite Hin, list_elem_of_filter, list_elem_of_fmap. split.
    + intros [Hget Hr]. split; [done|]. exists (id inst, inst).
      split; [done|]. by apply elem_of_map_to_list.
    + intros [Hr ([i inst'] & -> & Hel)]. simpl in *.
      apply elem_of_map_to_list in Hel. split; [|done].
      by rewrite (Hid i inst' Hel).
Qed.

(** X13.  The role index follows the registry: after any sequence of
    calls on a new registry in which every [createAgent] draws an id that
    is not in use, [getAgentsByRole] returns each tracked instance of the
    role once and nothing else, in the state that [getAgent] shows, and as
    many as [getStatistics] counts for the role. *)
Theorem role_query_lists_tracked_agents (cs : list Call) (r : AgentRole) :
  fresh_calls cs AgentManager.new →
  NoDup (getAgentsByRole r (run cs AgentManager.new))
  ∧ (∀ inst, inst ∈ getAgentsByRole r (run cs AgentManager.new)
             ↔ getAgent (id inst) (run cs AgentManager.new) = Some inst
               ∧ role inst = r)
  ∧ length (getAgentsByRole r (run cs AgentManager.new))
    = default 0 (byRole (getStatistics (run cs AgentManager.new)) !! r).
Proof.
  intros Hfresh.
  pose proof (indexed_run cs AgentManager.new indexed_new Hfresh) as Hind.
  set (m := run cs AgentManager.new) in *.
  pose proof (indexed_query r m Hind) as Hperm.
  pose proof Hind as [Hid _].
  refine (conj _ (conj _ _)).
  - rewrite Hperm. apply NoDup_filter, indexed_values_NoDup, Hind.
  - intros inst. rewrite Hperm, list_elem_of_filter, list_elem_of_fmap.
    unfold getAgent. split.
    + intros [Hr ([i inst'] & -> & Hel)]. simpl in *.
      apply elem_of_map_to_list in Hel. split; [|done].
      by rewrite (Hid i inst' Hel).
    + intros [Hget Hr]. split; [done|]. exists (id inst, inst).
      split; [done|]. by apply elem_of_map_to_list.
  - rewrite Hperm. unfold getStatistics. cbn [byRole]. by rewrite count_by.
Qed.

Lemma role_query_lists_tracked_agents_witness :
  fresh_calls sampleCalls AgentManager.new
  ∧ id <$> getAgentsByRole BACKEND (run sampleCalls AgentManager.new)
    = ["a-1"; "a-2"]
  ∧ getAgentsByRole TESTER (run sampleCalls AgentManager.new) = []
  ∧ default 0 (byRole (getStatistics (run sampleCalls AgentManager.new))
               !! BACKEND)
    = 2.
Proof.
  assert (Hfresh : fresh_calls sampleCalls AgentManager.new)
    by (vm_compute; tauto).
  destruct (role_query_lists_tracked_agents sampleCalls BACKEND Hfresh)
    as (_ & _ & Hlen).
  refine (conj Hfresh (conj _ (conj _ _))).
  - by vm_compute.
  - by vm_compute.
  - rewrite <- Hlen. by vm_compute.
Defined.

(** *** Creating and removing *)

Lemma removeFirst_last (a : string) (l : list string) :
  a ∉ l → removeFirst a (l ++ [a]) = l.
Proof.
  induction l as [|x l IH]; intros Hnot; simpl.
  - by rewrite decide_True.
  - apply not_elem_of_cons in Hnot as [Hne Hnot].
    rewrite decide_False by done. by rewrite IH.
Qed.

(** X14.  Removing an agent that was just created leaves the registry as
    it was for every query: the same instances, the same answer of
    [getAgentsByRole] for every role, the same active agents and the same
    statistics.  (The role keeps an entry in the index, with an empty list
    if it had none.) *)
Theorem removeAgent_undoes_createAgent (cs : list Call) (now : Z)
  (uuid : string) (r : AgentRole) (cfg : AgentConfig) (worker : nat) :
  fresh_calls cs AgentManager.new →
  getAgent uuid (run cs AgentManager.new) = None →
  agents (removeAgent uuid
            (createAgent now uuid r cfg worker (run cs AgentManager.new)).2)
  = agents (run cs AgentManager.new)
  ∧ (∀ r', getAgentsByRole r'
             (removeAgent uuid
                (createAgent now uuid r cfg worker
                   (run cs AgentManager.new)).2)
           = getAgentsByRole r' (run cs AgentManager.new))
  ∧ getActiveAgents
      (removeAgent uuid
         (createAgent now uuid r cfg worker (run cs AgentManager.new)).2)
    = getActiveAgents (run cs AgentManager.new)
  ∧ getStatistics
      (removeAgent uuid
         (createAgent now uuid r cfg worker (run cs AgentManager.new)).2)
    = getStatistics (run cs AgentManager.new).
Proof.
  intros Hfresh Hnone.
  pose proof (indexed_run cs AgentManager.new indexed_new Hfresh) as Hind.
  set (m := run cs AgentManager.new) in *. unfold getAgent in Hnone.
  destruct Hind as [_ Hidx].
  assert (Hnot : uuid ∉ default [] (agentsByRole m !! r)).
  { destruct (Hidx r) as [_ Hiff]. rewrite Hiff.
    intros (inst & Hi & _). congruence. }
  set (m' := removeAgent uuid (createAgent now uuid r cfg worker m).2).
  assert (Hagents : agents m' = agents m).
  { subst m'. unfold removeAgent, createAgent. cbn [snd agents].
    rewrite lookup_insert_eq. cbn [agents]. by apply delete_insert_id. }
  assert (Hroles : ∀ r', default [] (agentsByRole m' !! r')
                         = default [] (agentsByRole m !! r')).
  { intros r'. subst m'. unfold removeAgent, createAgent.
    cbn [snd agents]. rewrite lookup_insert_eq. cbn [agentsByRole role].
    destruct (decide (r' = r)) as [->|Hne].
    - rewrite lookup_alter_eq, lookup_insert_eq. simpl.
      by apply removeFirst_last.
    - by rewrite lookup_alter_ne, lookup_insert_ne. }
  refine (conj Hagents (conj _ (conj _ _))).
  - intros r'. unfold getAgentsByRole. by rewrite Hroles, Hagents.
  - unfold getActiveAgents. by rewrite Hagents.
  - unfold getStatistics. by rewrite Hagents.
Qed.

Lemma removeAgent_undoes_createAgent_witness :
  fresh_calls sampleCalls AgentManager.new
  ∧ getAgent "a-9" (run sampleCalls AgentManager.new) = None
  ∧ getAgentsByRole DOCS
      (removeAgent "a-9"
         (createAgent 9 "a-9" DOCS (mkConfig DOCS [] 1 None) 3
            (run sampleCalls AgentManager.new)).2)
    = getAgentsByRole DOCS (run sampleCalls AgentManager.new).
Proof.
  assert (Hfresh : fresh_calls sampleCalls AgentManager.new)
    by (vm_compute; tauto).
  assert (Hnone : getAgent "a-9" (run sampleCalls AgentManager.new) = None)
    by (by vm_compute).
  refine (conj Hfresh (conj Hnone _)).
  exact (proj1 (proj2 (removeAgent_undoes_createAgent sampleCalls 9 "a-9"
                         DOCS (mkConfig DOCS [] 1 None) 3 Hfresh Hnone))
           DOCS).
Defined.

End RegistryInvariants.

(** ** Waits without a timer, the core without listeners, and the plugin *)

Module WaitInvariants.
Import JS EventBus Core Spec Samples.
Import EventBusFacts CoreFacts WaitForFacts CoreInvariants.

(** *** A wait without a timer *)

Section Untimed.
Variables (call : nat) (ev : string).








End Untimed.




(** *** After [removeAllListeners] *)

Lemma expire_all_rejects (fired : list Timer) (s : Core.t) (call : nat)
  (o : Settlement) :
  promises (foldl (fun acc tm => expire tm acc) s fired) !! call = Some o →
  promises s !! call = Some o
  ∨ ∃ tm, tm ∈ fired ∧ t_call tm = call
          ∧ o = Rejected (timeoutMessage (t_event tm)).
Proof.
  revert s. induction fired as [|tm fired IH]; intros s; [by left|].
  simpl. intros Hs'. destruct (IH _ Hs') as [Hp|(tm' & Hin & Hc & Ho)].
  - destruct (decide (t_call tm = call)) as [Hc|Hc].
    + destruct (promises s !! call) as [o'|] eqn:Hq.
      * left. by rewrite (expire_settled tm call o' s Hq) in Hp.
      * right. exists tm. split; [by left|]. split; [done|].
        unfold expire in Hp. rewrite Hc in Hp.
        rewrite settle_pending in Hp by done. by injection Hp as <-.
    + left. by rewrite expire_other in Hp.
  - right. exists tm'. split; [by right | done].
Qed.

(** A step on a core without listeners: nothing is heard. *)
Lemma perform_deaf (a : Action) (s : Core.t) :
  has_stack a → listeners (bus s) = [] →
  ∃ s', perform a s = Some s'
        ∧ listeners (bus s') = []
        ∧ store s' = store s ∧ flow s' = flow s ∧ manager s' = manager s
        ∧ (∀ tm, tm ∈ timers s' → tm ∈ timers s)
        ∧ (∀ call o, promises s' !! call = Some o →
                     promises s !! call = Some o
                     ∨ ∃ tm, tm ∈ timers s ∧ t_call tm = call
                             ∧ o = Rejected (timeoutMessage (t_event tm)))
        ∧ (∀ call, untimed call s →
                   promises s' !! call = promises s !! call).
Proof.
  intros Hstack Hdeaf. destruct a as [fuel ev payload|T]; simpl.
  - destruct fuel as [|fuel]; [done|].
    rewrite emit_unheard by (unfold subscribers; by rewrite Hdeaf).
    eexists. split; [done|].
    cbn [bus with_bus store flow manager timers promises]. unfold record.
    rewrite addToHistory_listeners.
    refine (conj Hdeaf (conj _ (conj _ (conj _ (conj _ (conj _ _))))));
      try done.
    intros call o Ho. by left.
  - eexists. split; [done|].
    destruct (advanceTo_frame T s) as (_ & _ & -> & -> & ->).
    refine (conj _ (conj _ (conj _ (conj _ (conj _ (conj _ _)))))); try done.
    + destruct (listeners (bus (advanceTo T s))) as [|l ls] eqn:Hl; [done|].
      assert (Hin : l ∈ listeners (bus s)).
      { apply (advanceTo_listeners T). rewrite Hl. by left. }
      rewrite Hdeaf in Hin. by apply elem_of_nil in Hin.
    + intros tm Hin. by apply advanceTo_timers in Hin as [? _].
    + intros call o Ho. unfold advanceTo in Ho.
      apply expire_all_rejects in Ho as [Ho|(tm & Hin & Hc & Ho)].
      * by left.
      * right. exists tm. split; [|done].
        by apply list_elem_of_filter in Hin as [_ ?].
    + intros call Hun. unfold advanceTo. rewrite expire_all_other; [done|].
      apply Forall_forall. intros tm Hin.
      apply list_elem_of_filter in Hin as [_ Hin]. by apply Hun.
Qed.

Lemma performAll_deaf (acts : list Action) (s : Core.t) :
  Forall has_stack acts → listeners (bus s) = [] →
  ∃ s', performAll acts s = Some s'
        ∧ listeners (bus s') = []
        ∧ store s' = store s ∧ flow s' = flow s ∧ manager s' = manager s
        ∧ (∀ tm, tm ∈ timers s' → tm ∈ timers s)
        ∧ (∀ call o, promises s' !! call = Some o →
                     promises s !! call = Some o
                     ∨ ∃ tm, tm ∈ timers s ∧ t_call tm = call
                             ∧ o = Rejected (timeoutMessage (t_event tm)))
        ∧ (∀ call, untimed call s →
                   promises s' !! call = promises s !! call).
Proof.
  intros Hacts. revert s.
  induction Hacts as [|a acts Ha _ IH]; intros s Hdeaf.
  - exists s. split; [done|].
    refine (conj Hdeaf (conj _ (conj _ (conj _ (conj _ (conj _ _))))));
      try done.
    intros call o Ho. by left.
  - destruct (perform_deaf a s Ha Hdeaf)
      as (s1 & Hs1 & D1 & St1 & F1 & M1 & T1 & P1 & U1).
    destruct (IH s1 D1) as (s' & Hs' & D2 & St2 & F2 & M2 & T2 & P2 & U2).
    exists s'. simpl. rewrite Hs1. simpl.
    refine (conj Hs' (conj D2 (conj _ (conj _ (conj _ (conj _ (conj _ _)))))));
      try congruence.
    + intros tm Hin. by apply T1, T2.
    + intros call o Ho. destruct (P2 call o Ho) as [Hp|(tm & Hin & Hc & Hr)].
      * by apply P1.
      * right. exists tm. split; [by apply T1 | done].
    + intros call Hun. rewrite U2, U1; [done|done|].
      intros tm Hin. apply Hun. by apply T1.
Qed.

(** X16.  After [eventBus.removeAllListeners()] nothing that is published
    is heard, whatever is published and however much time passes, as long as
    nothing is subscribed again: every publish with stack left returns, no
    listener comes back, and the store, the engine and the registry stay as
    they were.  No pending wait is resolved any more: a promise that is
    resolved was resolved before the call, and the promise of a wait without
    a pending timer stays as it was, so a pending one is never settled. *)
Theorem removeAllListeners_silences_the_core (s : Core.t)
  (acts : list Action) :
  Forall has_stack acts →
  ∃ s', performAll acts (removeAllListeners s) = Some s'
        ∧ listeners (bus s') = []
        ∧ store s' = store s
        ∧ flow s' = flow s
        ∧ manager s' = manager s
        ∧ (∀ call payload,
             promiseOf call s' = Some (Resolved payload) →
             promiseOf call s = Some (Resolved payload))
        ∧ (∀ call, untimed call s → promiseOf call s' = promiseOf call s).
Proof.
  intros Hacts.
  destruct (performAll_deaf acts (removeAllListeners s) Hacts eq_refl)
    as (s' & Hs' & D & St & F & M & _ & P & U).
  exists s'.
  refine (conj Hs' (conj D (conj St (conj F (conj M (conj _ _)))))).
  - intros call payload Hp. destruct (P call _ Hp) as [Hq|(tm & _ & _ & Hr)];
      [exact Hq | discriminate Hr].
  - intros call Hun. by apply U.
Qed.

Lemma removeAllListeners_silences_the_core_witness :
  Forall has_stack sampleActions
  ∧ promiseOf waitingUntimed.1
      (default (init 0)
         (performAll (sampleActions
                      ++ [Emit 1 USER_MESSAGE emptyPayload])
            (removeAllListeners waitingUntimed.2)))
    = None.
Proof.
  assert (Hacts : Forall has_stack
                    (sampleActions ++ [Emit 1 USER_MESSAGE emptyPayload]))
    by (repeat constructor).
  split; [repeat constructor|].
  destruct (removeAllListeners_silences_the_core waitingUntimed.2 _ Hacts)
    as (s' & -> & _ & _ & _ & _ & _ & Hun).
  simpl default. rewrite Hun; [by vm_compute|].
  intros tm Hin. by vm_compute in Hin; apply elem_of_nil in Hin.
Defined.

(** *** The plugin *)



End WaitInvariants.

(** ** A whole run of the default workflow *)

Module EngineRuns.
Import JS EventBus Core Spec Samples.
Import MemoryStoreFacts EventBusFacts CoreFacts Undisturbed AutoFlowFacts.

Lemma attached_with_now (time : Z) (s : Core.t) :
  attached s → attached (with_now time s).
Proof.
  intros Ha. apply (attached_kept s); try done. intros l Hl. by left.
Qed.

(** The complete-event of a phase of the default definition that has a
    next phase. *)
Lemma advance_step (fuel : nat) (ph : AutoFlow.WorkflowPhase) (n : string)
  (payload : EventPayload) (s : Core.t) (pid : string)
  (p : MemoryStore.ProjectContext.t) :
  ph ∈ AutoFlow.defaultWorkflow → AutoFlow.successor ph = Some n →
  attached s → current (store s) pid p →
  ∃ s' p',
    emit (S (S fuel)) (AutoFlow.completeEvent ph) payload s = Some s'
    ∧ attached s'
    ∧ current (store s') pid p'
    ∧ MemoryStore.ProjectContext.phases p'
      = startedIn n (now s)
          (completedIn (AutoFlow.name ph) (now s) (stamp (now s) payload)
             (MemoryStore.ProjectContext.phases p))
    ∧ flow s' = AutoFlow.with_currentPhase (Some n) (flow s).
Proof.
  intros Hph Hn Hw Hc.
  destruct (default_phase_has_listener ph Hph) as [Hin Hfind].
  destruct (phase_complete_step fuel _ _ payload s pid p Hw Hc Hin)
    as (s' & p' & cp & Hs' & Hw' & _ & _ & Hc' & _ & Hcp & _ & Hcase).
  rewrite Hfind in Hcp. injection Hcp as <-. rewrite Hn in Hcase.
  destruct Hcase as (_ & Hphases & _ & Hfl & _).
  by exists s', p'.
Qed.

(** ... and of the phase that has none. *)
Lemma final_step (fuel : nat) (ph : AutoFlow.WorkflowPhase)
  (payload : EventPayload) (s : Core.t) (pid : string)
  (p : MemoryStore.ProjectContext.t) :
  ph ∈ AutoFlow.defaultWorkflow → AutoFlow.successor ph = None →
  attached s → current (store s) pid p →
  ∃ s' p',
    emit (S (S fuel)) (AutoFlow.completeEvent ph) payload s = Some s'
    ∧ current (store s') pid p'
    ∧ MemoryStore.ProjectContext.phases p'
      = completedIn (AutoFlow.name ph) (now s) (stamp (now s) payload)
          (MemoryStore.ProjectContext.phases p)
    ∧ MemoryStore.ProjectContext.status p' = MemoryStore.COMPLETED
    ∧ flow s' = AutoFlow.with_isRunning false (flow s).
Proof.
  intros Hph Hn Hw Hc.
  destruct (default_phase_has_listener ph Hph) as [Hin Hfind].
  destruct (phase_complete_step fuel _ _ payload s pid p Hw Hc Hin)
    as (s' & p' & cp & Hs' & Hw' & _ & _ & Hc' & _ & Hcp & _ & Hcase).
  rewrite Hfind in Hcp. injection Hcp as <-. rewrite Hn in Hcase.
  destruct Hcase as (Hphases & Hst & Hfl & _).
  by exists s', p'.
Qed.

Ltac listed :=
  unfold AutoFlow.defaultWorkflow;
  repeat first [ apply list_elem_of_here | apply list_elem_of_further ].

Ltac advance Hw Hc t q s' p' Hs Hph Hfl :=
  let Hw' := fresh "Hw" in
  let Hc' := fresh "Hc" in
  match goal with
  | |- context [emit (S (S ?fuel)) (AutoFlow.completeEvent ?ph) _
                  (with_now _ ?s)] =>
      match type of Hc with
      | current _ ?pid ?p =>
          destruct (advance_step fuel ph _ q (with_now t s) pid p
                      ltac:(listed) eq_refl (attached_with_now t s Hw) Hc)
            as (s' & p' & Hs & Hw' & Hc' & Hph & Hfl)
      end
  end;
  rewrite Hs; clear Hs Hw Hc; rename Hw' into Hw; rename Hc' into Hc;
  cbn [now with_now flow] in Hph, Hfl.

(** *** The records of the phases along the run *)

Lemma startedIn_started (n : string) (t : Z)
  (phases : gmap string MemoryStore.PhaseData.t) :
  startedAt_in n t (startedIn n t phases).
Proof.
  unfold startedIn. eexists. rewrite lookup_insert_eq. by split.
Qed.

Lemma completedIn_completed (c : string) (t0 t : Z) (q : EventPayload)
  (phases : gmap string MemoryStore.PhaseData.t) :
  startedAt_in c t0 phases →
  completedAt_in c t0 t (result q) (completedIn c t (stamp t q) phases).
Proof.
  intros (d & Hd & _ & Hst). unfold completedIn. rewrite Hd.
  eexists. rewrite lookup_insert_eq. split; [done|]. simpl.
  rewrite Hst. by rewrite (proj1 (stamp_result t q)).
Qed.

Lemma completed_kept (k c n : string) (a b t : Z) (r : JsVal)
  (q : EventPayload) (phases : gmap string MemoryStore.PhaseData.t) :
  k ≠ c → k ≠ n →
  completedAt_in k a b r phases →
  completedAt_in k a b r (startedIn n t (completedIn c t q phases))
  ∧ completedAt_in k a b r (completedIn c t q phases).
Proof.
  intros Hc Hn (d & Hd & Hrest). split; exists d; (split; [|done]).
  - unfold startedIn, completedIn. by rewrite !lookup_insert_ne.
  - unfold completedIn. by rewrite lookup_insert_ne.
Qed.

(** What the complete-event of phase [c], followed by the start of phase
    [n], does to the records. *)
Lemma step_records (c n : string) (t0 t : Z) (q : EventPayload)
  (phases : gmap string MemoryStore.PhaseData.t) :
  n ≠ c → startedAt_in c t0 phases →
  startedAt_in n t (startedIn n t (completedIn c t (stamp t q) phases))
  ∧ completedAt_in c t0 t (result q)
      (startedIn n t (completedIn c t (stamp t q) phases)).
Proof.
  intros Hne Hc. split; [apply startedIn_started|].
  destruct (completedIn_completed c t0 t q phases Hc) as (d & Hd & Hrest).
  exists d. split; [|done]. unfold startedIn. by rewrite lookup_insert_ne.
Qed.

Ltac keep H :=
  match goal with
  | Hph : _ = startedIn ?n ?t (completedIn ?c ?t ?q ?phases) |- _ =>
      apply (fun Hc Hn => proj1 (completed_kept _ c n _ _ t _ q phases Hc Hn H))
  | Hph : _ = completedIn ?c ?t ?q ?phases |- _ =>
      apply (fun Hc Hn => proj2 (completed_kept _ c c _ _ t _ q phases Hc Hn H))
  end; discriminate.

(** X18.  The default workflow runs to its end: with a current project
    and the engine attached to a bus that it may share with handlers of
    [waitFor], the listeners of the registry and functions of the application
    on channels that are not those of the built-in phases,
    [startWorkflow()] returns with the engine running, and when the
    complete-events of the six phases are then published in the order of
    the chain, each at its own time, every publish returns, the project ends
    with the status ["completed"], the engine is no longer running (its
    current phase stays "documentation"), and the record of each phase is
    completed, started when the phase before it was reported complete (the
    first when the workflow was started), completed when its own event was
    published, with the result of that event. *)
Theorem default_workflow_runs_to_completion (fuel : nat) (s : Core.t)
  (pid : string) (p : MemoryStore.ProjectContext.t)
  (ps : list (Z * EventPayload)) :
  2 ≤ fuel → attached s → current (store s) pid p → length ps = 6 →
  ∃ s1 s',
    startWorkflow fuel "default" s = Returned s1
    ∧ AutoFlow.isWorkflowRunning (flow s1) = true
    ∧ publishAll fuel (completionsInOrder ps) s1 = Some s'
    ∧ projectStatus s' = Some MemoryStore.COMPLETED
    ∧ AutoFlow.isWorkflowRunning (flow s') = false
    ∧ AutoFlow.getCurrentPhase (flow s') = Some "documentation"
    ∧ ∀ i ph, AutoFlow.defaultWorkflow !! i = Some ph →
        ∃ d, phaseRecord (AutoFlow.name ph) s' = Some d
             ∧ MemoryStore.PhaseData.status d = MemoryStore.completed
             ∧ Some (MemoryStore.PhaseData.startedAt d)
               = VNum <$> (now s :: ps.*1) !! i
             ∧ Some (MemoryStore.PhaseData.completedAt d)
               = VNum <$> ps.*1 !! i
             ∧ Some (MemoryStore.PhaseData.result d)
               = (fun tp => result tp.2) <$> ps !! i.
Proof.
  intros Hfuel Hw Hc Hlen.
  destruct ps as [|[t1 q1] [|[t2 q2] [|[t3 q3] [|[t4 q4] [|[t5 q5]
                 [|[t6 q6] [|]]]]]]]; try discriminate Hlen.
  clear Hlen. destruct fuel as [|[|fuel]]; [lia | lia |]. clear Hfuel.
  destruct (startWorkflow_default (S fuel) s pid p Hw Hc)
    as (s1 & p1 & Hs1 & Hw1 & _ & _ & _ & Hc1 & Hph1 & _ & Hfl1 & _).
  exists s1. clear Hw Hc.
  unfold completionsInOrder, AutoFlow.defaultWorkflow.
  cbn [zip_with publishAll p_event p_payload p_time fst snd].
  advance Hw1 Hc1 t1 q1 s2 p2 Hs2 Hph2 Hfl2.
  advance Hw1 Hc1 t2 q2 s3 p3 Hs3 Hph3 Hfl3.
  advance Hw1 Hc1 t3 q3 s4 p4 Hs4 Hph4 Hfl4.
  advance Hw1 Hc1 t4 q4 s5 p5 Hs5 Hph5 Hfl5.
  advance Hw1 Hc1 t5 q5 s6 p6 Hs6 Hph6 Hfl6.
  match goal with
  | |- context [emit _ (AutoFlow.completeEvent ?ph) _ _] =>
      destruct (final_step fuel ph q6 (with_now t6 s6) pid p6
                  ltac:(listed) eq_refl (attached_with_now t6 s6 Hw1) Hc1)
        as (s7 & p7 & Hs7 & Hc7 & Hph7 & Hst7 & Hfl7)
  end.
  cbn [now with_now flow AutoFlow.name] in Hph2, Hph3, Hph4, Hph5, Hph6,
    Hph7, Hfl7.
  rewrite Hs7. exists s7.
  split; [done|]. split; [by rewrite Hfl1|]. split; [done|].
  unfold projectStatus, phaseRecord.
  rewrite (current_getCurrentProject _ _ _ Hc7).
  cbn [fmap option_fmap option_map mbind option_bind].
  split; [by rewrite Hst7|].
  split; [by rewrite Hfl7|].
  split; [by rewrite Hfl7, Hfl6|].
  clear Hs1 Hfl1 Hfl2 Hfl3 Hfl4 Hfl5 Hfl6 Hfl7 Hst7 Hc7 Hc1 Hw1.
  (* the records, phase by phase *)
  pose proof (startedIn_started "requirements" (now s)
                (MemoryStore.ProjectContext.phases p)) as S1.
  rewrite <- Hph1 in S1. clear Hph1.
  destruct (step_records "requirements" "architecture" (now s) t1 q1
              (MemoryStore.ProjectContext.phases p1)
              ltac:(discriminate) S1) as [S2 C1].
  rewrite <- Hph2 in S2, C1. clear S1.
  destruct (step_records "architecture" "development" t1 t2 q2
              (MemoryStore.ProjectContext.phases p2)
              ltac:(discriminate) S2) as [S3 C2].
  assert (C1' : completedAt_in "requirements" (now s) t1 (result q1)
                  (MemoryStore.ProjectContext.phases p3))
    by (rewrite Hph3; keep C1).
  rewrite <- Hph3 in S3, C2. clear S2 C1 Hph2 Hph3.
  destruct (step_records "development" "testing" t2 t3 q3
              (MemoryStore.ProjectContext.phases p3)
              ltac:(discriminate) S3) as [S4 C3].
  assert (C1 : completedAt_in "requirements" (now s) t1 (result q1)
                 (MemoryStore.ProjectContext.phases p4))
    by (rewrite Hph4; keep C1').
  assert (C2' : completedAt_in "architecture" t1 t2 (result q2)
                  (MemoryStore.ProjectContext.phases p4))
    by (rewrite Hph4; keep C2).
  rewrite <- Hph4 in S4, C3. clear S3 C1' C2 Hph4.
  destruct (step_records "testing" "devops" t3 t4 q4
              (MemoryStore.ProjectContext.phases p4)
              ltac:(discriminate) S4) as [S5 C4].
  assert (C1' : completedAt_in "requirements" (now s) t1 (result q1)
                  (MemoryStore.ProjectContext.phases p5))
    by (rewrite Hph5; keep C1).
  assert (C2 : completedAt_in "architecture" t1 t2 (result q2)
                 (MemoryStore.ProjectContext.phases p5))
    by (rewrite Hph5; keep C2').
  assert (C3' : completedAt_in "development" t2 t3 (result q3)
                  (MemoryStore.ProjectContext.phases p5))
    by (rewrite Hph5; keep C3).
  rewrite <- Hph5 in S5, C4. clear S4 C1 C2' C3 Hph5.
  destruct (step_records "devops" "documentation" t4 t5 q5
              (MemoryStore.ProjectContext.phases p5)
              ltac:(discriminate) S5) as [S6 C5].
  assert (C1 : completedAt_in "requirements" (now s) t1 (result q1)
                 (MemoryStore.ProjectContext.phases p6))
    by (rewrite Hph6; keep C1').
  assert (C2' : completedAt_in "architecture" t1 t2 (result q2)
                  (MemoryStore.ProjectContext.phases p6))
    by (rewrite Hph6; keep C2).
  assert (C3 : completedAt_in "development" t2 t3 (result q3)
                 (MemoryStore.ProjectContext.phases p6))
    by (rewrite Hph6; keep C3').
  assert (C4' : completedAt_in "testing" t3 t4 (result q4)
                  (MemoryStore.ProjectContext.phases p6))
    by (rewrite Hph6; keep C4).
  rewrite <- Hph6 in S6, C5. clear S5 C1' C2 C3' C4 Hph6.
  pose proof (completedIn_completed "documentation" t5 t6 q6
                (MemoryStore.ProjectContext.phases p6) S6) as C6.
  assert (C1' : completedAt_in "requirements" (now s) t1 (result q1)
                  (MemoryStore.ProjectContext.phases p7))
    by (rewrite Hph7; keep C1).
  assert (C2 : completedAt_in "architecture" t1 t2 (result q2)
                 (MemoryStore.ProjectContext.phases p7))
    by (rewrite Hph7; keep C2').
  assert (C3' : completedAt_in "development" t2 t3 (result q3)
                  (MemoryStore.ProjectContext.phases p7))
    by (rewrite Hph7; keep C3).
  assert (C4 : completedAt_in "testing" t3 t4 (result q4)
                 (MemoryStore.ProjectContext.phases p7))
    by (rewrite Hph7; keep C4').
  assert (C5' : completedAt_in "devops" t4 t5 (result q5)
                  (MemoryStore.ProjectContext.phases p7))
    by (rewrite Hph7; keep C5).
  rewrite <- Hph7 in C6. clear S6 C1 C2' C3 C4' C5 Hph7.
  intros i ph Hi.
  destruct i as [|[|[|[|[|[|i]]]]]]; try discriminate Hi;
    injection Hi as <-; cbn [AutoFlow.name].
  - destruct C1' as (d & Hd & A & B & C & D). exists d. simpl.
    by rewrite B, C, D.
  - destruct C2 as (d & Hd & A & B & C & D). exists d. simpl.
    by rewrite B, C, D.
  - destruct C3' as (d & Hd & A & B & C & D). exists d. simpl.
    by rewrite B, C, D.
  - destruct C4 as (d & Hd & A & B & C & D). exists d. simpl.
    by rewrite B, C, D.
  - destruct C5' as (d & Hd & A & B & C & D). exists d. simpl.
    by rewrite B, C, D.
  - destruct C6 as (d & Hd & A & B & C & D). exists d. simpl.
    by rewrite B, C, D.
Qed.

Lemma default_workflow_runs_to_completion_witness :
  2 ≤ 2
  ∧ attached ready
  ∧ current (store ready) "p-1" readyProject
  ∧ length sixReports = 6
  ∧ ∃ s1 s',
      startWorkflow 2 "default" ready = Returned s1
      ∧ publishAll 2 (completionsInOrder sixReports) s1 = Some s'
      ∧ projectStatus s' = Some MemoryStore.COMPLETED
      ∧ AutoFlow.isWorkflowRunning (flow s') = false.
Proof.
  assert (H1 : 2 ≤ 2) by lia.
  assert (H2 : length sixReports = 6) by reflexivity.
  refine (conj H1 (conj ready_attached (conj ready_current (conj H2 _)))).
  destruct (default_workflow_runs_to_completion 2 ready "p-1" readyProject
              sixReports H1 ready_attached ready_current H2)
    as (s1 & s' & Hs1 & _ & Hs' & Hst & Hrun & _).
  by exists s1, s'.
Defined.

End EngineRuns.

(** ** [executeAgent] on the core as it is wired *)

Module AgentRuns.
Import JS EventBus Core Spec Samples.
Import EventBusFacts CoreFacts AutoFlowFacts.





End AgentRuns.
